(** * Eve's Quantum Clone Computer: the dual-state simulator

    A shallow embedding of [src/EveQuantumComputer.js].

    Modelling conventions.
    - A JavaScript [number] holding a measured quantity is an exact real
      ([R]); a [Float64Array] is a [list R]; a complex entry occupies two
      consecutive slots (real part, imaginary part), rows first, exactly as
      the source indexes [rawBuffer()] with [(r*w + c)*2].
    - A [number] used as an integer for the bit operators is a [Z], with the
      32-bit wrap-around of [<<], [>>], [&] and [|] written out.
    - [1 / x] at [x = 0] is [Infinity] in JavaScript (and [NaN] as soon as
      it meets a zero entry).  No real number stands for these, so the
      embedding stops with [NonFinite] at that division.
    - [throw] is the outcome [Thrown]; methods of the class return, next to
      their outcome, the object as the call left it.
    - [Math.random()] is an argument of [measureQubit]. *)

From Stdlib Require Import String.
From Stdlib Require Import Reals Lra Lia ZArith List Bool Arith Psatz.
From Stdlib Require Import Ascii DecimalString.
Import ListNotations.

Local Open Scope R_scope.

(** ** Outcomes of a call *)

Inductive outcome (A : Type) : Type :=
| Done (a : A)
| Thrown (msg : string)
| NonFinite.

Arguments Done {A} a.
Arguments Thrown {A} msg.
Arguments NonFinite {A}.

Definition bind {A B : Type} (x : outcome A) (k : A -> outcome B) : outcome B :=
  match x with
  | Done a => k a
  | Thrown msg => Thrown msg
  | NonFinite => NonFinite
  end.

Notation "x <- e ;; k" := (bind e (fun x => k))
  (at level 61, e at next level, right associativity).

(** [1 / x] on numbers. *)
Definition reciprocal (x : R) : outcome R :=
  if Req_dec_T x 0 then NonFinite else Done (1 / x).

Definition Rltb (x y : R) : bool := if Rlt_dec x y then true else false.

(** ** Complex numbers, as the pair a buffer stores *)

Definition C : Type := (R * R)%type.

Definition C0 : C := (0, 0).
Definition C1 : C := (1, 0).
Definition Cplus (a b : C) : C := (fst a + fst b, snd a + snd b).
Definition Cmult (a b : C) : C :=
  (fst a * fst b - snd a * snd b, fst a * snd b + snd a * fst b).
Definition Cminus (a b : C) : C := (fst a - fst b, snd a - snd b).
Definition Cconj (a : C) : C := (fst a, - snd a).
Definition Cnorm2 (a : C) : R := fst a * fst a + snd a * snd a.
(** [Complex.abs()] *)
Definition Cabs (a : C) : R := sqrt (Cnorm2 a).
(** A complex number scaled by a real one. *)
Definition Cscale (s : R) (z : C) : C := (fst z * s, snd z * s).

Fixpoint Rsum (n : nat) (f : nat -> R) : R :=
  match n with
  | O => 0
  | S k => Rsum k f + f k
  end.

Fixpoint Csum (n : nat) (f : nat -> C) : C :=
  match n with
  | O => C0
  | S k => Cplus (Csum k f) (f k)
  end.

(** ** 32-bit integer operators *)

Local Open Scope Z_scope.

Definition to_int32 (z : Z) : Z := (z + 2^31) mod 2^32 - 2^31.

(** [a << k] *)
Definition js_shl (a k : Z) : Z := to_int32 (Z.shiftl (to_int32 a) (k mod 32)).
(** [a >> k] *)
Definition js_shr (a k : Z) : Z := Z.shiftr (to_int32 a) (k mod 32).
(** [a & b] *)
Definition js_and (a b : Z) : Z := Z.land (to_int32 a) (to_int32 b).
(** [a | b] *)
Definition js_or (a b : Z) : Z := Z.lor (to_int32 a) (to_int32 b).

Local Close Scope Z_scope.

(** ** Typed arrays *)

(** [buf[i] = v]: a write outside the array is dropped. *)
Fixpoint upd (buf : list R) (i : nat) (v : R) : list R :=
  match buf, i with
  | [], _ => []
  | _ :: t, O => v :: t
  | x :: t, S j => x :: upd t j v
  end.

(** [buf[i]]; every statement below keeps its reads inside the array
    (outside, JavaScript yields [undefined]). *)
Definition rd (buf : list R) (i : nat) : R := nth i buf 0.

(** [for (let i = 0; i < n; i++) body] threading the variables it assigns. *)
Definition for_range {S : Type} (n : nat) (body : S -> nat -> S) (init : S) : S :=
  fold_left body (seq 0 n) init.

(** ** Matrix

    [Matrix.js] is not part of the sources at hand; its constructor
    [new Matrix(width, height, buffer)] and [rawBuffer()] are used by the
    simulator directly, the operations below follow section 4.1 of the
    specification. *)

Record Matrix : Type := mkMatrix {
  width : nat;
  height : nat;
  rawBuffer : list R
}.

Definition wf (m : Matrix) : Prop :=
  length (rawBuffer m) = (2 * (height m * width m))%nat.

(** The entry at row [r], column [c]. *)
Definition entry (m : Matrix) (r c : nat) : C :=
  (rd (rawBuffer m) ((r * width m + c) * 2),
   rd (rawBuffer m) ((r * width m + c) * 2 + 1)).

(** The matrix whose entry at [(r, c)] is [f r c]. *)
Definition make (w h : nat) (f : nat -> nat -> C) : Matrix :=
  mkMatrix w h
    (map (fun i => let z := f ((i / 2) / w)%nat ((i / 2) mod w)%nat in
                   if Nat.even i then fst z else snd z)
         (seq 0 (2 * (h * w)))).

Record EveQuantumComputer : Type := mkEve {
  _actualHiddenState : Matrix;
  _inferredStateDensity : Matrix;
  _operationCount : Z;
  _expectedIgnoranceErrors : R
}.

Definition Rleb (x y : R) : bool := if Rle_dec x y then true else false.

(** Modelled from the spec: [Matrix.identity(n)], the n-by-n identity
    matrix ([Matrix.js] is missing from the sources). *)
Definition identity (n : nat) : Matrix :=
  make n n (fun r c => if Nat.eqb r c then C1 else C0).

(** Modelled from the spec: [a.times(b)] for a matrix [b], "requires
    A.width == B.height; standard matrix product", failing otherwise
    ([Matrix.js] is missing from the sources). *)
Definition times (a b : Matrix) : outcome Matrix :=
  if Nat.eqb (width a) (height b) then
    Done (make (width b) (height a)
            (fun r c => Csum (width a) (fun k => Cmult (entry a r k) (entry b k c))))
  else Thrown "Incompatible sizes.".

(** Modelled from the spec: [m.times(s)] for a number [s], "uniform
    scaling" ([Matrix.js] is missing from the sources). *)
Definition timesScalar (m : Matrix) (s : R) : Matrix :=
  mkMatrix (width m) (height m) (map (fun x => x * s) (rawBuffer m)).

(** Modelled from the spec: [m.adjoint()], "conjugate transpose, dimensions
    swapped" ([Matrix.js] is missing from the sources). *)
Definition adjoint (m : Matrix) : Matrix :=
  make (height m) (width m) (fun r c => Cconj (entry m c r)).

(** Modelled from the spec: [m.trace()], "requires square; sum of diagonal
    entries (complex)" ([Matrix.js] is missing from the sources). *)
Definition trace (m : Matrix) : outcome C :=
  if Nat.eqb (width m) (height m) then
    Done (Csum (height m) (fun i => entry m i i))
  else Thrown "Not square.".

(** Modelled from the spec: [a.tensorProduct(b)], "Kronecker product;
    result dimensions (A.h*B.h) x (A.w*B.w)", the receiver holding the more
    significant index ([Matrix.js] is missing from the sources). *)
Definition tensorProduct (a b : Matrix) : Matrix :=
  make (width a * width b) (height a * height b)
    (fun r c => Cmult (entry a (r / height b) (c / width b))
                      (entry b (r mod height b) (c mod width b))).

(** Modelled from the spec: [m.isUnitary(tolerance)], "true iff A*adjoint(A)
    is within tolerance of the identity matrix", read entrywise
    ([Matrix.js] is missing from the sources). *)
Definition isUnitary (m : Matrix) (tolerance : R) : bool :=
  Nat.eqb (width m) (height m) &&
  forallb (fun r =>
    forallb (fun c =>
      Rleb (Cabs (Cminus
                    (Csum (width m) (fun k => Cmult (entry m r k) (Cconj (entry m c k))))
                    (if Nat.eqb r c then C1 else C0)))
           tolerance)
      (seq 0 (height m)))
    (seq 0 (height m)).

(** Modelled from the spec: [m.qubitDensityMatrixToBlochVector()], "its 3D
    Bloch-sphere coordinates (x,y,z) via the standard Pauli-expectation
    decomposition": the real parts of tr(m X), tr(m Y), tr(m Z)
    ([Matrix.js] is missing from the sources). *)
Definition qubitDensityMatrixToBlochVector (m : Matrix) : R * R * R :=
  (fst (entry m 0 1) + fst (entry m 1 0),
   snd (entry m 1 0) - snd (entry m 0 1),
   fst (entry m 0 0) - fst (entry m 1 1)).

(** Modelled from the spec: [Util.isPowerOf2(i)], "power-of-2 height"
    ([Util.js] is missing from the sources). *)
Definition isPowerOf2 (i : nat) : bool :=
  Nat.ltb 0 i && Nat.eqb (2 ^ Nat.log2 i) i.

(** ** The functions of [EveQuantumComputer.js] *)

(** [m => Math.sqrt(m.adjoint().times(m).trace().abs())] *)
Definition absCol (m : Matrix) : outcome R :=
  p <- times (adjoint m) m ;;
  t <- trace p ;;
  Done (sqrt (Cabs t)).

(** [m => m.times(1 / absCol(m))] *)
Definition normalizeCol (m : Matrix) : outcome Matrix :=
  a <- absCol m ;;
  s <- reciprocal a ;;
  Done (timesScalar m s).

(** [m => m.times(1 / m.trace().abs())] *)
Definition normalizeDensity (m : Matrix) : outcome Matrix :=
  t <- trace m ;;
  s <- reciprocal (Cabs t) ;;
  Done (timesScalar m s).

Definition controlify (matrix : Matrix) (controlMask : Z) : Matrix :=
  let w := width matrix in
  let h := height matrix in
  let newBuf := rawBuffer matrix in
  let newBuf :=
    for_range h (fun newBuf r =>
      for_range w (fun newBuf c =>
        if negb (Z.eqb (js_and controlMask (Z.of_nat r)) controlMask)
           || negb (Z.eqb (js_and controlMask (Z.of_nat c)) controlMask)
        then
          let k := ((r * w + c) * 2)%nat in
          let newBuf := upd newBuf k (if Nat.eqb r c then 1 else 0) in
          upd newBuf (k + 1) 0
        else newBuf) newBuf) newBuf in
  mkMatrix w h newBuf.

Definition expandOp (singleQubitOperationMatrix : Matrix) (qubitIndex : Z)
    (numQubits : nat) (controls : list Z) : Matrix :=
  let controlMask := fold_left (fun a e => js_or a (js_shl 1 e)) controls 0%Z in
  let opMatrix := mkMatrix 1 1 [1; 0] in
  let opMatrix :=
    for_range numQubits (fun opMatrix i =>
      let m := if Z.eqb (Z.of_nat i) qubitIndex
               then singleQubitOperationMatrix else identity 2 in
      tensorProduct m opMatrix) opMatrix in
  controlify opMatrix controlMask.

Definition postselectCol (col : Matrix) (qubitIndex : Z) (qubitValue : bool)
    : outcome Matrix :=
  let mask := js_shl 1 qubitIndex in
  let newBuf := rawBuffer col in
  let h := height col in
  let newBuf :=
    for_range h (fun newBuf i =>
      if negb (Bool.eqb (negb (Z.eqb (js_and (Z.of_nat i) mask) 0)) qubitValue)
      then
        let newBuf := upd newBuf (i * 2) 0 in
        upd newBuf (i * 2 + 1) 0
      else newBuf) newBuf in
  normalizeCol (mkMatrix 1 h newBuf).

Definition postselectDensity (densityMatrix : Matrix) (qubitIndex : Z)
    (qubitValue : bool) : outcome Matrix :=
  let mask := js_shl 1 qubitIndex in
  let newBuf := rawBuffer densityMatrix in
  let w := width densityMatrix in
  let h := height densityMatrix in
  let newBuf :=
    for_range w (fun newBuf c =>
      for_range h (fun newBuf r =>
        if negb (Bool.eqb (negb (Z.eqb (js_and (Z.of_nat c) mask) 0)) qubitValue)
           || negb (Bool.eqb (negb (Z.eqb (js_and (Z.of_nat r) mask) 0)) qubitValue)
        then
          let k := ((r * w + c) * 2)%nat in
          let newBuf := upd newBuf k 0 in
          upd newBuf (k + 1) 0
        else newBuf) newBuf) newBuf in
  normalizeDensity (mkMatrix w h newBuf).

(** [new EveQuantumComputer(initialState)]; [initialState instanceof Matrix]
    holds by typing. *)
Definition constructor (initialState : Matrix) : outcome EveQuantumComputer :=
  if negb (isPowerOf2 (height initialState))
     || negb (Nat.eqb (width initialState) 1)
  then Thrown "Initial state must be a column matrix with power-of-2 height."
  else
    actual <- normalizeCol initialState ;;
    inferred <- normalizeDensity (identity (height initialState)) ;;
    Done (mkEve actual inferred 0%Z 0).

Definition withInitialState (column : Matrix) : outcome EveQuantumComputer :=
  constructor column.

Definition set_operationCount (this : EveQuantumComputer) (n : Z) :=
  mkEve (_actualHiddenState this) (_inferredStateDensity this) n
        (_expectedIgnoranceErrors this).
Definition set_actualHiddenState (this : EveQuantumComputer) (m : Matrix) :=
  mkEve m (_inferredStateDensity this) (_operationCount this)
        (_expectedIgnoranceErrors this).
Definition set_inferredStateDensity (this : EveQuantumComputer) (m : Matrix) :=
  mkEve (_actualHiddenState this) m (_operationCount this)
        (_expectedIgnoranceErrors this).
Definition set_expectedIgnoranceErrors (this : EveQuantumComputer) (x : R) :=
  mkEve (_actualHiddenState this) (_inferredStateDensity this)
        (_operationCount this) x.

(** A method call: its outcome, and the object as the call left it. *)
Definition method (A : Type) : Type :=
  EveQuantumComputer -> outcome A * EveQuantumComputer.

(** Runs a computation that may throw inside a method: when it does not
    return, the method stops there with the object as it is. *)
Definition attempt {A B : Type} (x : outcome A) (this : EveQuantumComputer)
    (k : A -> outcome B * EveQuantumComputer) : outcome B * EveQuantumComputer :=
  match x with
  | Done a => k a
  | Thrown msg => (Thrown msg, this)
  | NonFinite => (NonFinite, this)
  end.

Definition applyOperation (opMatrix : Matrix) : method unit := fun this =>
  let this := set_operationCount this (_operationCount this + 1)%Z in
  if negb (Nat.eqb (width opMatrix) (height (_actualHiddenState this)))
     || negb (Nat.eqb (height opMatrix) (height (_actualHiddenState this)))
     || negb (isUnitary opMatrix (1 / 1000))
  then (Thrown "Operation must be unitary and match the size of the state.", this)
  else
    attempt (times opMatrix (_actualHiddenState this)) this (fun actual =>
    let this := set_actualHiddenState this actual in
    attempt (p <- times opMatrix (_inferredStateDensity this) ;;
             times p (adjoint opMatrix)) this (fun inferred =>
    let this := set_inferredStateDensity this inferred in
    (Done tt, this))).

(** [random] is the value [Math.random()] returns in this call.  The loop
    [for (i = 0; i < actualBuf.length; i += 2)] runs over [i = 2*j]; the
    buffer of a matrix has even length, so [actualBuf.length/2] is the
    integer quotient. *)
Definition measureQubit (qubitIndex : Z) (random : R) : method bool := fun this =>
  let this := set_operationCount this (_operationCount this + 1)%Z in
  let actualBuf := rawBuffer (_actualHiddenState this) in
  let inferredBuf := rawBuffer (_inferredStateDensity this) in
  let '(actualOnNess, predictedOnNess) :=
    for_range ((length actualBuf + 1) / 2) (fun '(actualOnNess, predictedOnNess) j =>
      let i := (2 * j)%nat in
      if negb (Z.eqb (js_and (js_shr (Z.of_nat i) 1) (js_shl 1 qubitIndex)) 0)
      then
        let cr := rd actualBuf i in
        let ci := rd actualBuf (i + 1) in
        (actualOnNess + (cr * cr + ci * ci),
         predictedOnNess + rd inferredBuf (i * (length actualBuf / 2 + 1)))
      else (actualOnNess, predictedOnNess)) (0, 0) in
  let result := Rltb random actualOnNess in
  let this := set_expectedIgnoranceErrors this
                (_expectedIgnoranceErrors this + Rabs (predictedOnNess - actualOnNess)) in
  attempt (postselectCol (_actualHiddenState this) qubitIndex result) this (fun actual =>
  let this := set_actualHiddenState this actual in
  attempt (postselectDensity (_inferredStateDensity this) qubitIndex result) this
    (fun inferred =>
  let this := set_inferredStateDensity this inferred in
  (Done result, this))).

(** [Math.log2] of the height, which the constructor made a power of two. *)
Definition expandOperation (this : EveQuantumComputer)
    (singleQubitOperationMatrix : Matrix) (targetQubit : Z)
    (qubitsUsedAsControls : list Z) : Matrix :=
  let n := Nat.log2 (height (_actualHiddenState this)) in
  expandOp singleQubitOperationMatrix targetQubit n qubitsUsedAsControls.

(** ** [qubitTraceDistance] *)

(** A JavaScript value as [qubitTraceDistance] can return it. *)
Inductive jsvalue : Type :=
| Num (x : R)
| Str (s : string).

Definition decimal (n : Z) : string :=
  NilZero.string_of_uint (N.to_uint (Z.to_N n)).

Definition pad_zeros (n : nat) (s : string) : string :=
  String.append (string_of_list_ascii (repeat "0"%char (n - String.length s))) s.

(** The digits [Number.prototype.toFixed] prints for [n / 10^f], [0 <= n]. *)
Definition render_fixed (n : Z) (fractionDigits : nat) : string :=
  let q := (n / 10 ^ Z.of_nat fractionDigits)%Z in
  let r := (n mod 10 ^ Z.of_nat fractionDigits)%Z in
  String.append (decimal q)
    (if Nat.eqb fractionDigits 0 then EmptyString
     else String.append "." (pad_zeros fractionDigits (decimal r))).

(** The integer [n] with [n / 10^f - x] closest to zero, the larger one of
    two. *)
Definition nearest_scaled (x : R) (fractionDigits : nat) : Z :=
  Zfloor (x * 10 ^ fractionDigits + 1 / 2).

(** [x.toFixed(fractionDigits)] for [|x| < 10^21] (beyond, JavaScript prints
    an exponent). *)
Definition toFixed (x : R) (fractionDigits : nat) : string :=
  if Rlt_dec x 0
  then String.append "-" (render_fixed (nearest_scaled (- x) fractionDigits) fractionDigits)
  else render_fixed (nearest_scaled x fractionDigits) fractionDigits.

Definition qubitTraceDistance (d1 d2 : Matrix) : jsvalue :=
  let '(x1, y1, z1) := qubitDensityMatrixToBlochVector d1 in
  let '(x2, y2, z2) := qubitDensityMatrixToBlochVector d2 in
  let '(dx, dy, dz) := (x2 - x1, y2 - y1, z2 - z1) in
  Str (toFixed (sqrt (dx * dx + dy * dy + dz * dz) / 2) 4).

(** ** Vocabulary of the statements *)

(** Index [i] agrees with the outcome [qubitValue] on qubit [qubitIndex]:
    the negation of the test under which the post-selection loops clear an
    entry. *)
Definition consistent (qubitIndex : Z) (qubitValue : bool) (i : nat) : bool :=
  Bool.eqb (negb (Z.eqb (js_and (Z.of_nat i) (js_shl 1 qubitIndex)) 0)) qubitValue.

(** The column with the amplitudes that disagree with the outcome cleared. *)
Definition keepCol (col : Matrix) (qubitIndex : Z) (qubitValue : bool) : Matrix :=
  make 1 (height col)
    (fun r _ => if consistent qubitIndex qubitValue r then entry col r 0 else C0).

(** The matrix with every entry cleared whose row or column disagrees with
    the outcome. *)
Definition keepDensity (m : Matrix) (qubitIndex : Z) (qubitValue : bool) : Matrix :=
  make (width m) (height m)
    (fun r c => if consistent qubitIndex qubitValue c && consistent qubitIndex qubitValue r
                then entry m r c else C0).

(** Sum of the squared magnitudes of a column's amplitudes. *)
Definition norm2 (col : Matrix) : R :=
  Rsum (height col) (fun i => Cnorm2 (entry col i 0)).

(** Bit [k] of the basis index [i]. *)
Definition bitOf (k : Z) (i : nat) : bool := Z.testbit (Z.of_nat i) k.

(** Probability mass a column puts on the basis indices selected by [sel]. *)
Definition massWhere (sel : nat -> bool) (col : Matrix) : R :=
  Rsum (height col) (fun i => if sel i then Cnorm2 (entry col i 0) else 0).

(** Sum of the (real parts of the) diagonal entries selected by [sel]. *)
Definition diagWhere (sel : nat -> bool) (m : Matrix) : R :=
  Rsum (height m) (fun i => if sel i then fst (entry m i i) else 0).

(** Sum of the diagonal entries selected by [sel], as a complex number. *)
Definition traceWhere (sel : nat -> bool) (m : Matrix) : C :=
  Csum (height m) (fun i => if sel i then entry m i i else C0).

(** The shape of a simulator of [n] qubits: a column of height [2^n] and a
    square matrix of the same dimension, each with a buffer of the right
    length. *)
Record shaped (n : nat) (this : EveQuantumComputer) : Prop := {
  actual_wf : wf (_actualHiddenState this);
  actual_width : width (_actualHiddenState this) = 1%nat;
  actual_height : height (_actualHiddenState this) = (2 ^ n)%nat;
  inferred_wf : wf (_inferredStateDensity this);
  inferred_width : width (_inferredStateDensity this) = (2 ^ n)%nat;
  inferred_height : height (_inferredStateDensity this) = (2 ^ n)%nat
}.

(** What the data model promises of a simulator state and what the
    measurement relies on: the true state has unit norm; the diagonal of the
    inferred density matrix is real and non-negative, and is zero only at
    basis states on which the true state has no amplitude. *)
Record state_ok (n : nat) (this : EveQuantumComputer) : Prop := {
  ok_shaped : shaped n this;
  ok_norm : norm2 (_actualHiddenState this) = 1;
  ok_diag : forall i, (i < 2 ^ n)%nat ->
    snd (entry (_inferredStateDensity this) i i) = 0 /\
    0 <= fst (entry (_inferredStateDensity this) i i) /\
    (fst (entry (_inferredStateDensity this) i i) = 0 ->
     entry (_actualHiddenState this) i 0 = C0)
}.

(** The bits of the basis index [i] at the positions in [controls] are all
    1. *)
Definition controlsOn (controls : list Z) (i : nat) : bool :=
  forallb (fun e => bitOf e i) controls.

(** The computational basis state [b] of a register of dimension [h], as a
    column. *)
Definition basisCol (h b : nat) : Matrix :=
  make 1 h (fun r _ => if Nat.eqb r b then C1 else C0).

(** [U] is unitary: [U * adjoint(U)] and [adjoint(U) * U] are the
    identity. *)
Definition unitary (U : Matrix) : Prop :=
  times U (adjoint U) = Done (identity (height U)) /\
  times (adjoint U) U = Done (identity (height U)).

(** The Euclidean distance between the Bloch vectors of two single-qubit
    density matrices. *)
Definition blochDistance (d1 d2 : Matrix) : R :=
  let '(x1, y1, z1) := qubitDensityMatrixToBlochVector d1 in
  let '(x2, y2, z2) := qubitDensityMatrixToBlochVector d2 in
  sqrt ((x2 - x1) * (x2 - x1) + (y2 - y1) * (y2 - y1) + (z2 - z1) * (z2 - z1)).

(** The observer's matrix is a mixture [sum_j w_j adjoint(w_j)] of finitely
    many vectors, and the true state is a combination of these vectors. *)
Definition mixture (n : nat) (this : EveQuantumComputer) : Prop :=
  exists (m : nat) (w : nat -> nat -> C) (a : nat -> C),
    (forall r c, (r < 2 ^ n)%nat -> (c < 2 ^ n)%nat ->
       entry (_inferredStateDensity this) r c =
       Csum m (fun j => Cmult (w j r) (Cconj (w j c)))) /\
    (forall r, (r < 2 ^ n)%nat ->
       entry (_actualHiddenState this) r 0 =
       Csum m (fun j => Cmult (a j) (w j r))).

(** The invariant of the simulator under construction, unitary operations
    and measurements. *)
Record invariant (n : nat) (this : EveQuantumComputer) : Prop := {
  inv_shaped : shaped n this;
  inv_norm : norm2 (_actualHiddenState this) = 1;
  inv_trace : trace (_inferredStateDensity this) = Done C1;
  inv_mixture : mixture n this
}.

(** The simulator states of [n] qubits that calls can produce: constructed
    from a column, then evolved by unitary operators and by measurements
    that draw their sample from [0, 1). *)
Inductive reachable (n : nat) : EveQuantumComputer -> Prop :=
| reach_constructor (v : Matrix) (this : EveQuantumComputer) :
    wf v -> height v = (2 ^ n)%nat ->
    constructor v = Done this ->
    reachable n this
| reach_applyOperation (U : Matrix) (this this' : EveQuantumComputer) :
    reachable n this -> unitary U ->
    applyOperation U this = (Done tt, this') ->
    reachable n this'
| reach_measureQubit (k : Z) (random : R) (result : bool)
    (this this' : EveQuantumComputer) :
    reachable n this -> 0 <= random < 1 ->
    measureQubit k random this = (Done result, this') ->
    reachable n this'.

(** ** Sample data *)

(** The one-qubit state "certainly off". *)
Definition ket0 : Matrix := mkMatrix 1 2 [1; 0; 0; 0].

(** The maximally mixed one-qubit density matrix. *)
Definition mixed1 : Matrix := mkMatrix 2 2 [1 / 2; 0; 0; 0; 0; 0; 1 / 2; 0].

Definition eve1 : EveQuantumComputer := mkEve ket0 mixed1 0%Z 0.

(** [Matrix.PAULI_X] *)
Definition PAULI_X : Matrix := mkMatrix 2 2 [0; 0; 1; 0; 1; 0; 0; 0].

(** A one-qubit density matrix whose Bloch vector is (0.00002, 0, 0). *)
Definition tilted : Matrix :=
  mkMatrix 2 2 [1 / 2; 0; 1 / 100000; 0; 1 / 100000; 0; 1 / 2; 0].

(** The simulator [new EveQuantumComputer(ket0)] yields. *)
Definition born : EveQuantumComputer :=
  mkEve (timesScalar ket0 (1 / sqrt (norm2 ket0)))
        (timesScalar (identity 2) (1 / INR 2)) 0%Z 0.

(** Equality of two complex numbers, component by component. *)
Ltac cpx := apply injective_projections; simpl; try ring; try lra.

(** ** Vocabulary of the further statements *)

Fixpoint Cprod (n : nat) (f : nat -> C) : C :=
  match n with
  | O => C1
  | S k => Cmult (Cprod k f) (f k)
  end.

(** Bit [k] of the basis index [i], as the row or column index (0 or 1) of
    a single-qubit matrix. *)
Definition bitIndex (k : Z) (i : nat) : nat := if bitOf k i then 1%nat else 0%nat.

(** The basis indices [r] and [c] of a register of [n] qubits agree on
    every qubit other than [t]. *)
Definition agreeOff (t : Z) (n : nat) (r c : nat) : bool :=
  forallb (fun i => Z.eqb (Z.of_nat i) t
                    || Bool.eqb (bitOf (Z.of_nat i) r) (bitOf (Z.of_nat i) c))
          (seq 0 n).

(** The entry at [(r, c)] of "[M] on qubit [t], identity on the other
    qubits" in a register of [n] qubits. *)
Definition onQubit (M : Matrix) (t : Z) (n : nat) (r c : nat) : C :=
  if agreeOff t n r c
  then (if Z.leb 0 t && Z.ltb t (Z.of_nat n)
        then entry M (bitIndex t r) (bitIndex t c) else C1)
  else C0.

(** ** Random initial states *)

(** [random i] is the value of the [i]-th call of [Math.random()].
    [new Float64Array(len)] throws a [RangeError] when [len] is negative,
    which [2 << numQubits] is for [numQubits = 30] (mod 32).  The height
    [1 << numQubits] is negative only for [numQubits = 31] (mod 32), where
    the buffer is empty; what the constructor of the missing [Matrix.js]
    does with it is not known, and the height is taken as 0 there. *)
Definition generateUnknownState (numQubits : Z) (random : nat -> R) : outcome Matrix :=
  let len := js_shl 2 numQubits in
  if Z.ltb len 0 then Thrown "Invalid typed array length"
  else
    let buf := repeat 0 (Z.to_nat len) in
    let buf := for_range (length buf) (fun buf i => upd buf i (random i - 1 / 2)) buf in
    normalizeCol (mkMatrix 1 (Z.to_nat (js_shl 1 numQubits)) buf).

Definition withRandomInitialState (numQubits : Z) (random : nat -> R)
    : outcome EveQuantumComputer :=
  initialState <- generateUnknownState numQubits random ;;
  constructor initialState.

(** ** The marginal of one qubit *)

(** [~a] *)
Definition js_not (a : Z) : Z := Z.lnot (to_int32 a).

(** [new Float64Array(8)] starts as zeros; [continue] leaves the buffer as
    it is; [c0] and [r0] are 0 or 1, so [k0] is an index of the buffer. *)
Definition traceQubitOutOfDensityMatrix (density : Matrix) (qubitIndex : Z) : Matrix :=
  let newBuf := repeat 0 8 in
  let mask := js_shl 1 qubitIndex in
  let w := width density in
  let h := height density in
  let buf := rawBuffer density in
  let newBuf :=
    for_range h (fun newBuf r =>
      for_range w (fun newBuf c =>
        if negb (Z.eqb (js_and (Z.of_nat r) (js_not mask))
                       (js_and (Z.of_nat c) (js_not mask)))
        then newBuf
        else
          let c0 := js_and (js_shr (Z.of_nat c) qubitIndex) 1 in
          let r0 := js_and (js_shr (Z.of_nat r) qubitIndex) 1 in
          let k := ((r * w + c) * 2)%nat in
          let k0 := Z.to_nat ((r0 * 2 + c0) * 2) in
          let newBuf := upd newBuf k0 (rd newBuf k0 + rd buf k) in
          upd newBuf (k0 + 1) (rd newBuf (k0 + 1) + rd buf (k + 1))) newBuf) newBuf in
  mkMatrix 2 2 newBuf.

(** The part of [redraw] that compares the marginals of qubit [k]:
    [actualDensity] is the outer product of the true state with itself, and
    [traceDistanceQubit] is the text printed in the distance column. *)
Definition actualDensity (computer : EveQuantumComputer) : outcome Matrix :=
  times (_actualHiddenState computer) (adjoint (_actualHiddenState computer)).

Definition traceDistanceQubit (computer : EveQuantumComputer) (k : Z) : outcome jsvalue :=
  actualDensity <- actualDensity computer ;;
  let actualMarginalBit := traceQubitOutOfDensityMatrix actualDensity k in
  let predictedMarginalBit :=
    traceQubitOutOfDensityMatrix (_inferredStateDensity computer) k in
  Done (qubitTraceDistance actualMarginalBit predictedMarginalBit).

(** The test under which [traceQubitOutOfDensityMatrix] adds the entry
    [(r, c)], and the cell of the marginal it adds it to. *)
Definition sameOff (k : Z) (r c : nat) : bool :=
  Z.eqb (js_and (Z.of_nat r) (js_not (js_shl 1 k)))
        (js_and (Z.of_nat c) (js_not (js_shl 1 k))).

Definition cellBit (k : Z) (i : nat) : nat :=
  Z.to_nat (js_and (js_shr (Z.of_nat i) k) 1).

(** The density matrix of a qubit that is certainly [b]. *)
Definition certain (b : bool) : Matrix :=
  mkMatrix 2 2 (if b then [0; 0; 0; 0; 0; 0; 1; 0] else [1; 0; 0; 0; 0; 0; 0; 0]).

(** Qubit [k] is [b] wherever the two states of the simulator are not
    zero. *)
Definition settled (n : nat) (k : Z) (b : bool) (this : EveQuantumComputer) : Prop :=
  (forall i, (i < 2 ^ n)%nat -> bitOf k i <> b ->
     entry (_actualHiddenState this) i 0 = C0) /\
  (forall r c, (r < 2 ^ n)%nat -> (c < 2 ^ n)%nat ->
     bitOf k r <> b \/ bitOf k c <> b ->
     entry (_inferredStateDensity this) r c = C0).

(** ** The driver loop of [main.js]

    [Matrix.HADAMARD] and the three matrices that
    [Matrix.fromAngleAxisPhaseRotation] returns are values of the missing
    [Matrix.js]; the driver takes them as [HADAMARD], [yRotation],
    [xRotation] and [confounding].  The operators are built once, from the
    simulator [qpu] as it is before the loop starts. *)

Module Main.

Definition X0 (qpu : EveQuantumComputer) : Matrix :=
  expandOperation qpu PAULI_X 0 [].
Definition X3 (qpu : EveQuantumComputer) : Matrix :=
  expandOperation qpu PAULI_X 3 [].
Definition H0 (HADAMARD : Matrix) (qpu : EveQuantumComputer) : Matrix :=
  expandOperation qpu HADAMARD 0 [].
Definition CNOT_2_ONTO_3 (qpu : EveQuantumComputer) : Matrix :=
  expandOperation qpu PAULI_X 3 [2%Z].
Definition SMALL_Y_ROT_1 (yRotation : Matrix) (qpu : EveQuantumComputer) : Matrix :=
  expandOperation qpu yRotation 1 [].
Definition SMALL_X_ROT_2_WHEN_1 (xRotation : Matrix) (qpu : EveQuantumComputer)
    : Matrix :=
  expandOperation qpu xRotation 2 [1%Z].
Definition CONFOUNDING_X3 (confounding : Matrix) (qpu : EveQuantumComputer) : Matrix :=
  expandOperation qpu confounding 3 [].

(** One statement after another on the same object: a call that throws
    ends the sequence. *)
Definition andThen {A B : Type} (m : method A) (k : A -> method B) : method B :=
  fun this =>
    match m this with
    | (Done a, this') => k a this'
    | (Thrown msg, this') => (Thrown msg, this')
    | (NonFinite, this') => (NonFinite, this')
    end.

Definition skip : method unit := fun this => (Done tt, this).

(** The function passed to [drawLoop]; [qpu0] is the simulator the
    operators were built from, and [random1], [random2], [random3] are the
    values of the three calls of [Math.random()], in the order they are
    made (inside [measureQubit(0)], in the test against 0.3, inside
    [measureQubit(3)]). *)
Definition loopBody (HADAMARD yRotation xRotation confounding : Matrix)
    (qpu0 : EveQuantumComputer) (random1 random2 random3 : R) : method unit :=
  andThen (measureQubit 0 random1) (fun generatedEntropy =>
  let generatedEntropy :=
    if Rltb random2 (3 / 10) then negb generatedEntropy else generatedEntropy in
  andThen (if generatedEntropy
           then andThen (applyOperation (SMALL_Y_ROT_1 yRotation qpu0)) (fun _ =>
                applyOperation (X0 qpu0))
           else skip) (fun _ =>
  andThen (applyOperation (H0 HADAMARD qpu0)) (fun _ =>
  andThen (applyOperation (SMALL_X_ROT_2_WHEN_1 xRotation qpu0)) (fun _ =>
  andThen (applyOperation (CNOT_2_ONTO_3 qpu0)) (fun _ =>
  andThen (applyOperation (CONFOUNDING_X3 confounding qpu0)) (fun _ =>
  andThen (measureQubit 3 random3) (fun measureResult =>
  if measureResult then applyOperation (X3 qpu0) else skip))))))).

(** What [drawLoop] makes of the loop body: the timer calls it once per
    period, here once for each triple of samples in [samples]; a call that
    throws ends that call only, so each call has an outcome of its own.
    Drawing in between reads the simulator and does not change it. *)
Fixpoint rounds (HADAMARD yRotation xRotation confounding : Matrix)
    (qpu0 : EveQuantumComputer) (samples : list (R * R * R))
    (qpu : EveQuantumComputer) : list (outcome unit) * EveQuantumComputer :=
  match samples with
  | [] => ([], qpu)
  | (random1, random2, random3) :: rest =>
      let '(o, qpu) :=
        loopBody HADAMARD yRotation xRotation confounding qpu0
          random1 random2 random3 qpu in
      let '(os, qpu) :=
        rounds HADAMARD yRotation xRotation confounding qpu0 rest qpu in
      (o :: os, qpu)
  end.

End Main.

(** The simulator of [n] qubits constructed from the basis state 0. *)
Definition started (n : nat) : EveQuantumComputer :=
  mkEve (timesScalar (basisCol (2 ^ n) 0) (1 / sqrt (norm2 (basisCol (2 ^ n) 0))))
        (timesScalar (identity (2 ^ n)) (1 / INR (2 ^ n))) 0%Z 0.

(** The one-qubit state "certainly on", and the simulator
    [new EveQuantumComputer(ket1)] yields. *)
Definition ket1 : Matrix := mkMatrix 1 2 [0; 0; 1; 0].

Definition lit : EveQuantumComputer :=
  mkEve (timesScalar ket1 (1 / sqrt (norm2 ket1)))
        (timesScalar (identity 2) (1 / INR 2)) 0%Z 0.

(** 0.9998 times the 2x2 identity: within 0.001 of a unitary matrix, and
    not unitary. *)
Definition nearIdentity : Matrix :=
  mkMatrix 2 2 [9998 / 10000; 0; 0; 0; 0; 0; 9998 / 10000; 0].

(** The product of two square arrays of entries of dimension [n]. *)
Definition mm (n : nat) (f g : nat -> nat -> C) : nat -> nat -> C :=
  fun r c => Csum n (fun k => Cmult (f r k) (g k c)).

(** * Properties *)

(** ** Typed-array reads and writes *)

Local Open Scope nat_scope.

Lemma length_upd (buf : list R) (i : nat) (v : R) :
  length (upd buf i v) = length buf.
Proof.
  revert i; induction buf as [|x t IH]; intros [|j]; simpl; auto.
Qed.

Lemma rd_upd (buf : list R) (i j : nat) (v : R) :
  rd (upd buf i v) j =
  if Nat.eqb j i && Nat.ltb j (length buf) then v else rd buf j.
Proof.
  unfold rd. revert i j; induction buf as [|x t IH]; intros i j.
  - simpl. destruct i, j; simpl; rewrite ?andb_false_r; reflexivity.
  - destruct i as [|i], j as [|j]; simpl; try reflexivity.
    rewrite IH. reflexivity.
Qed.

Lemma half_cell (m j : nat) :
  (j / 2 = m)%nat <-> (j = m * 2 \/ j = m * 2 + 1)%nat.
Proof.
  pose proof (Nat.div_mod_eq j 2) as E.
  pose proof (Nat.mod_upper_bound j 2 ltac:(lia)) as B.
  split; intros H.
  - lia.
  - destruct H as [-> | ->].
    + apply Nat.div_mul; lia.
    + rewrite Nat.add_comm, Nat.div_add; simpl; lia.
Qed.

Lemma even_cell (m : nat) : Nat.even (m * 2) = true /\ Nat.even (m * 2 + 1) = false.
Proof.
  split.
  - rewrite Nat.even_mul. simpl. apply orb_true_r.
  - rewrite Nat.even_add, Nat.even_mul. simpl. rewrite orb_true_r. reflexivity.
Qed.

(** Writing the two slots of cell [m]. *)
Lemma rd_write_cell (buf : list R) (m j : nat) (a b : R) :
  rd (upd (upd buf (m * 2) a) (m * 2 + 1) b) j =
  if Nat.eqb (j / 2) m && Nat.ltb j (length buf)
  then (if Nat.even j then a else b) else rd buf j.
Proof.
  rewrite !rd_upd, length_upd.
  destruct (even_cell m) as [Ev Od].
  destruct (Nat.eqb_spec (j / 2) m) as [E | NE].
  - apply half_cell in E. destruct E as [-> | ->].
    + rewrite Ev.
      replace (Nat.eqb (m * 2) (m * 2 + 1)) with false
        by (symmetry; apply Nat.eqb_neq; lia).
      rewrite Nat.eqb_refl. simpl. reflexivity.
    + rewrite Od, Nat.eqb_refl. simpl.
      destruct (Nat.ltb (m * 2 + 1) (length buf)); [reflexivity|].
      replace (Nat.eqb (m * 2 + 1) (m * 2)) with false
        by (symmetry; apply Nat.eqb_neq; lia).
      reflexivity.
  - rewrite half_cell in NE.
    replace (Nat.eqb j (m * 2 + 1)) with false
      by (symmetry; apply Nat.eqb_neq; lia).
    replace (Nat.eqb j (m * 2)) with false
      by (symmetry; apply Nat.eqb_neq; lia).
    reflexivity.
Qed.

(** A loop that overwrites the cells selected by [p]: what a slot holds at
    the end, when the choice and the values depend on the cell only. *)
Lemma rd_fold_cells {A : Type} (p : A -> bool) (idx : A -> nat) (va vb : A -> R)
    (P : nat -> bool) (Va Vb : nat -> R) (l : list A) :
  (forall x, In x l -> p x = P (idx x) /\ va x = Va (idx x) /\ vb x = Vb (idx x)) ->
  forall (buf : list R) (j : nat),
  rd (fold_left (fun b x =>
        if p x then upd (upd b (idx x * 2) (va x)) (idx x * 2 + 1) (vb x) else b)
      l buf) j =
  if existsb (fun x => Nat.eqb (idx x) (j / 2)) l && P (j / 2) && Nat.ltb j (length buf)
  then (if Nat.even j then Va (j / 2) else Vb (j / 2)) else rd buf j.
Proof.
  induction l as [|x l IH]; intros Hl buf j.
  - reflexivity.
  - cbn [fold_left existsb].
    rewrite IH by (intros y Hy; apply Hl; right; exact Hy).
    destruct (Hl x (or_introl eq_refl)) as (Hp & Ha & Hb).
    set (b1 := if p x then upd (upd buf (idx x * 2) (va x)) (idx x * 2 + 1) (vb x)
               else buf).
    assert (Len : length b1 = length buf)
      by (subst b1; destruct (p x); rewrite ?length_upd; reflexivity).
    assert (R1 : rd b1 j =
                 if Nat.eqb (idx x) (j / 2) && P (j / 2) && Nat.ltb j (length buf)
                 then (if Nat.even j then Va (j / 2) else Vb (j / 2)) else rd buf j).
    { subst b1. rewrite Hp.
      destruct (Nat.eqb_spec (idx x) (j / 2)) as [E | NE].
      - rewrite <- E. destruct (P (idx x)); cbn [andb]; [|reflexivity].
        rewrite rd_write_cell, E, Nat.eqb_refl, <- E, Ha, Hb. reflexivity.
      - cbn [andb]. destruct (P (idx x)); [|reflexivity].
        rewrite rd_write_cell.
        replace (Nat.eqb (j / 2) (idx x)) with false
          by (symmetry; apply Nat.eqb_neq; lia).
        reflexivity. }
    rewrite Len, R1.
    destruct (Nat.eqb (idx x) (j / 2));
      destruct (existsb (fun y => Nat.eqb (idx y) (j / 2)) l);
      destruct (P (j / 2)); destruct (Nat.ltb j (length buf));
      reflexivity.
Qed.

Lemma length_fold_cells {A : Type} (p : A -> bool) (idx : A -> nat) (va vb : A -> R)
    (l : list A) (buf : list R) :
  length (fold_left (fun b x =>
        if p x then upd (upd b (idx x * 2) (va x)) (idx x * 2 + 1) (vb x) else b)
      l buf) = length buf.
Proof.
  revert buf; induction l as [|x l IH]; intros buf; simpl; [reflexivity|].
  rewrite IH. destruct (p x); rewrite ?length_upd; reflexivity.
Qed.

(** Two nested loops visit the pairs of their ranges. *)
Lemma fold_nested {A B S : Type} (g : S -> A * B -> S) (la : list A) (lb : list B) (s : S) :
  fold_left (fun s a => fold_left (fun s b => g s (a, b)) lb s) la s =
  fold_left g (list_prod la lb) s.
Proof.
  revert s; induction la as [|a la IH]; intros s; simpl; [reflexivity|].
  rewrite fold_left_app, IH. f_equal.
  clear. revert s. induction lb as [|b lb IH]; intros s; simpl; [reflexivity|].
  apply IH.
Qed.

(** ** Entries of a matrix *)

Lemma cell_decode (w r c : nat) :
  c < w -> (r * w + c) / w = r /\ (r * w + c) mod w = c.
Proof.
  intros Hc. split.
  - rewrite Nat.add_comm, Nat.div_add by lia. rewrite Nat.div_small by lia. lia.
  - rewrite Nat.add_comm, Nat.Div0.mod_add. apply Nat.mod_small; lia.
Qed.

Lemma cell_encode (w h m : nat) :
  m < h * w -> m / w < h /\ m mod w < w /\ m = (m / w) * w + m mod w.
Proof.
  intros Hm. assert (w <> 0) by (intros ->; lia).
  pose proof (Nat.div_mod_eq m w). pose proof (Nat.mod_upper_bound m w H).
  repeat split; try lia.
  apply Nat.Div0.div_lt_upper_bound. lia.
Qed.

Lemma length_make (w h : nat) (f : nat -> nat -> C) :
  length (rawBuffer (make w h f)) = 2 * (h * w).
Proof. unfold make; simpl. rewrite length_map, length_seq. lia. Qed.

Lemma wf_make (w h : nat) (f : nat -> nat -> C) : wf (make w h f).
Proof. unfold wf. rewrite length_make. reflexivity. Qed.

Lemma rd_map_seq (g : nat -> R) (n j : nat) :
  j < n -> rd (map g (seq 0 n)) j = g j.
Proof.
  intros Hj. unfold rd.
  rewrite (nth_indep _ 0%R (g 0)) by (rewrite length_map, length_seq; exact Hj).
  rewrite map_nth, seq_nth by exact Hj. reflexivity.
Qed.

Lemma entry_make (w h : nat) (f : nat -> nat -> C) (r c : nat) :
  r < h -> c < w -> entry (make w h f) r c = f r c.
Proof.
  intros Hr Hc. unfold entry, make; cbn [rawBuffer width].
  assert (B : (r * w + c) * 2 + 1 < 2 * (h * w)) by nia.
  rewrite !rd_map_seq by lia.
  destruct (even_cell (r * w + c)) as [Ev Od]. rewrite Ev, Od.
  replace (((r * w + c) * 2 + 1) / 2) with (r * w + c)
    by (symmetry; apply half_cell; lia).
  replace (((r * w + c) * 2) / 2) with (r * w + c)
    by (symmetry; apply half_cell; lia).
  destruct (cell_decode w r c Hc) as [-> ->].
  destruct (f r c); reflexivity.
Qed.

Lemma width_make w h f : width (make w h f) = w.
Proof. reflexivity. Qed.

Lemma height_make w h f : height (make w h f) = h.
Proof. reflexivity. Qed.

(** Two well-formed matrices with the same entries are the same matrix. *)
Lemma matrix_ext (m1 m2 : Matrix) :
  wf m1 -> wf m2 -> width m1 = width m2 -> height m1 = height m2 ->
  (forall r c, r < height m1 -> c < width m1 -> entry m1 r c = entry m2 r c) ->
  m1 = m2.
Proof.
  destruct m1 as [w h b1], m2 as [w2 h2 b2]; unfold wf, entry; simpl.
  intros W1 W2 <- <- E. f_equal.
  apply (nth_ext _ _ 0%R 0%R); [lia|].
  intros j Hj. rewrite W1 in Hj.
  assert (Hm : j / 2 < h * w)
    by (apply Nat.Div0.div_lt_upper_bound; lia).
  destruct (cell_encode w h _ Hm) as (Hr & Hc & Em).
  specialize (E _ _ Hr Hc). rewrite <- Em in E.
  injection E as E1 E2. unfold rd in E1, E2.
  destruct (proj1 (half_cell (j / 2) j) eq_refl) as [Ej | Ej];
    rewrite Ej; assumption.
Qed.

Lemma make_entry (m : Matrix) :
  wf m -> make (width m) (height m) (entry m) = m.
Proof.
  intros W. apply matrix_ext; auto using wf_make.
  intros r c Hr Hc. apply entry_make; assumption.
Qed.

Lemma make_ext (w h : nat) (f g : nat -> nat -> C) :
  (forall r c, r < h -> c < w -> f r c = g r c) -> make w h f = make w h g.
Proof.
  intros E. apply matrix_ext; auto using wf_make.
  cbn [height width make]. intros r c Hr Hc. rewrite !entry_make by assumption. auto.
Qed.

Lemma rd_map_scale (l : list R) (s : R) (j : nat) :
  rd (map (fun x => (x * s)%R) l) j = (rd l j * s)%R.
Proof.
  unfold rd.
  transitivity (nth j (map (fun x => (x * s)%R) l) (0 * s)%R).
  - f_equal. ring.
  - apply (map_nth (fun x => (x * s)%R)).
Qed.

Lemma entry_timesScalar (m : Matrix) (s : R) (r c : nat) :
  entry (timesScalar m s) r c =
  ((fst (entry m r c) * s)%R, (snd (entry m r c) * s)%R).
Proof.
  unfold entry, timesScalar; cbn [rawBuffer width fst snd].
  rewrite !rd_map_scale. reflexivity.
Qed.

Lemma wf_timesScalar (m : Matrix) (s : R) : wf m -> wf (timesScalar m s).
Proof. unfold wf, timesScalar; simpl. rewrite length_map. auto. Qed.

Lemma timesScalar_one (m : Matrix) : timesScalar m (1 / 1) = m.
Proof.
  destruct m as [w h b]; unfold timesScalar; simpl. f_equal.
  rewrite <- (map_id b) at 2. apply map_ext. intros x. field.
Qed.

(** ** The buffer loops of the source, entry by entry *)

Lemma exists_cell (w h r c : nat) :
  r < h -> c < w ->
  existsb (fun x : nat * nat => Nat.eqb (fst x * w + snd x) (r * w + c))
          (list_prod (seq 0 h) (seq 0 w)) = true.
Proof.
  intros Hr Hc. apply existsb_exists. exists (r, c). split.
  - apply in_prod; apply in_seq; lia.
  - apply Nat.eqb_refl.
Qed.

Lemma exists_cell_swapped (w h r c : nat) :
  r < h -> c < w ->
  existsb (fun x : nat * nat => Nat.eqb (snd x * w + fst x) (r * w + c))
          (list_prod (seq 0 w) (seq 0 h)) = true.
Proof.
  intros Hr Hc. apply existsb_exists. exists (c, r). split.
  - apply in_prod; apply in_seq; lia.
  - apply Nat.eqb_refl.
Qed.

Lemma half_even (m : nat) : (m * 2) / 2 = m.
Proof. apply half_cell; lia. Qed.

Lemma half_odd (m : nat) : (m * 2 + 1) / 2 = m.
Proof. apply half_cell; lia. Qed.

Lemma wf_controlify (m : Matrix) (mask : Z) : wf m -> wf (controlify m mask).
Proof.
  unfold wf, controlify, for_range; cbn [rawBuffer width height]. intros W.
  rewrite (fold_nested (fun (b : list R) (x : nat * nat) =>
     if negb (Z.eqb (js_and mask (Z.of_nat (fst x))) mask)
        || negb (Z.eqb (js_and mask (Z.of_nat (snd x))) mask)
     then upd (upd b ((fst x * width m + snd x) * 2)
                 (if Nat.eqb (fst x) (snd x) then 1%R else 0%R))
              ((fst x * width m + snd x) * 2 + 1) 0%R
     else b)).
  rewrite (length_fold_cells _ (fun x : nat * nat => fst x * width m + snd x)
             (fun x => if Nat.eqb (fst x) (snd x) then 1%R else 0%R) (fun _ => 0%R)).
  exact W.
Qed.

Lemma entry_controlify (m : Matrix) (mask : Z) (r c : nat) :
  wf m -> r < height m -> c < width m ->
  entry (controlify m mask) r c =
  if negb (Z.eqb (js_and mask (Z.of_nat r)) mask)
     || negb (Z.eqb (js_and mask (Z.of_nat c)) mask)
  then (if Nat.eqb r c then C1 else C0) else entry m r c.
Proof.
  intros W Hr Hc.
  unfold entry, controlify, for_range; cbn [rawBuffer width height].
  set (w := width m) in *. set (h := height m) in *.
  set (p := fun x : nat * nat =>
     negb (Z.eqb (js_and mask (Z.of_nat (fst x))) mask)
     || negb (Z.eqb (js_and mask (Z.of_nat (snd x))) mask)).
  rewrite (fold_nested (fun (b : list R) (x : nat * nat) =>
     if p x
     then upd (upd b ((fst x * w + snd x) * 2)
                 (if Nat.eqb (fst x) (snd x) then 1%R else 0%R))
              ((fst x * w + snd x) * 2 + 1) 0%R
     else b)).
  assert (Hl : forall x, In x (list_prod (seq 0 h) (seq 0 w)) ->
     p x = (fun k => p (k / w, k mod w)) (fst x * w + snd x) /\
     (if Nat.eqb (fst x) (snd x) then 1%R else 0%R) =
       (fun k => if Nat.eqb (k / w) (k mod w) then 1%R else 0%R) (fst x * w + snd x) /\
     0%R = (fun _ : nat => 0%R) (fst x * w + snd x)).
  { intros [a b] Hin. apply in_prod_iff in Hin. destruct Hin as [_ Hb].
    apply in_seq in Hb. cbn [fst snd].
    destruct (cell_decode w a b) as [-> ->]; [lia|]. auto. }
  rewrite !(rd_fold_cells p (fun x : nat * nat => fst x * w + snd x)
             (fun x => if Nat.eqb (fst x) (snd x) then 1%R else 0%R) (fun _ => 0%R)
             _ _ _ _ Hl).
  rewrite half_even, half_odd, exists_cell by assumption.
  destruct (even_cell (r * w + c)) as [-> ->].
  destruct (cell_decode w r c Hc) as [-> ->].
  replace (Nat.ltb ((r * w + c) * 2) (length (rawBuffer m))) with true
    by (symmetry; apply Nat.ltb_lt; rewrite W; fold w h; nia).
  replace (Nat.ltb ((r * w + c) * 2 + 1) (length (rawBuffer m))) with true
    by (symmetry; apply Nat.ltb_lt; rewrite W; fold w h; nia).
  unfold p; cbn [fst snd andb].
  destruct (negb (Z.eqb (js_and mask (Z.of_nat r)) mask)
            || negb (Z.eqb (js_and mask (Z.of_nat c)) mask)); cbn [andb].
  - destruct (Nat.eqb r c); reflexivity.
  - reflexivity.
Qed.

Lemma exists_index (h r : nat) :
  r < h -> existsb (fun x : nat => Nat.eqb x r) (seq 0 h) = true.
Proof.
  intros Hr. apply existsb_exists. exists r. split.
  - apply in_seq; lia.
  - apply Nat.eqb_refl.
Qed.

(** [postselectCol] clears the amplitudes that disagree with the outcome,
    then normalizes. *)
Lemma postselectCol_keep (col : Matrix) (qubitIndex : Z) (qubitValue : bool) :
  wf col -> width col = 1 ->
  postselectCol col qubitIndex qubitValue =
  normalizeCol (keepCol col qubitIndex qubitValue).
Proof.
  intros W W1. unfold postselectCol, for_range. f_equal.
  set (p := fun i : nat =>
     negb (Bool.eqb (negb (Z.eqb (js_and (Z.of_nat i) (js_shl 1 qubitIndex)) 0))
                    qubitValue)).
  change (mkMatrix 1 (height col)
            (fold_left (fun (b : list R) (i : nat) =>
               if p i then upd (upd b (i * 2) 0%R) (i * 2 + 1) 0%R else b)
               (seq 0 (height col)) (rawBuffer col)) =
          keepCol col qubitIndex qubitValue).
  assert (Hl : forall x, In x (seq 0 (height col)) ->
     p x = p x /\ 0%R = (fun _ : nat => 0%R) x /\ 0%R = (fun _ : nat => 0%R) x)
    by auto.
  apply matrix_ext.
  - unfold wf; cbn [rawBuffer width height].
    rewrite (length_fold_cells p (fun i => i) (fun _ => 0%R) (fun _ => 0%R)).
    rewrite W, W1. reflexivity.
  - apply wf_make.
  - reflexivity.
  - reflexivity.
  - cbn [width height]. intros r c Hr Hc. assert (c = 0) as -> by lia.
    unfold keepCol. rewrite entry_make by lia.
    unfold entry at 1; cbn [rawBuffer width].
    rewrite !(rd_fold_cells p (fun i => i) (fun _ => 0%R) (fun _ => 0%R)
                _ _ _ _ Hl).
    rewrite Nat.mul_1_r, Nat.add_0_r, half_even, half_odd, exists_index by assumption.
    replace (Nat.ltb (r * 2) (length (rawBuffer col))) with true
      by (symmetry; apply Nat.ltb_lt; rewrite W, W1; lia).
    replace (Nat.ltb (r * 2 + 1) (length (rawBuffer col))) with true
      by (symmetry; apply Nat.ltb_lt; rewrite W, W1; lia).
    unfold p, consistent, entry. rewrite W1, Nat.mul_1_r, Nat.add_0_r.
    destruct (Bool.eqb _ qubitValue); cbn [negb andb];
      destruct (Nat.even (r * 2)); destruct (Nat.even (r * 2 + 1)); reflexivity.
Qed.

(** [postselectDensity] clears the entries whose row or column disagrees
    with the outcome, then normalizes. *)
Lemma postselectDensity_keep (m : Matrix) (qubitIndex : Z) (qubitValue : bool) :
  wf m ->
  postselectDensity m qubitIndex qubitValue =
  normalizeDensity (keepDensity m qubitIndex qubitValue).
Proof.
  intros W. unfold postselectDensity, for_range. f_equal.
  set (w := width m) in *. set (h := height m) in *.
  set (q := fun i : nat =>
     negb (Bool.eqb (negb (Z.eqb (js_and (Z.of_nat i) (js_shl 1 qubitIndex)) 0))
                    qubitValue)).
  set (p := fun x : nat * nat => q (fst x) || q (snd x)).
  rewrite (fold_nested (fun (b : list R) (x : nat * nat) =>
     if p x
     then upd (upd b ((snd x * w + fst x) * 2) 0%R) ((snd x * w + fst x) * 2 + 1) 0%R
     else b)).
  assert (Hl : forall x, In x (list_prod (seq 0 w) (seq 0 h)) ->
     p x = (fun k => p (k mod w, k / w)) (snd x * w + fst x) /\
     0%R = (fun _ : nat => 0%R) (snd x * w + fst x) /\
     0%R = (fun _ : nat => 0%R) (snd x * w + fst x)).
  { intros [a b] Hin. apply in_prod_iff in Hin. destruct Hin as [Ha _].
    apply in_seq in Ha. cbn [fst snd].
    destruct (cell_decode w b a) as [-> ->]; [lia|]. auto. }
  apply matrix_ext.
  - unfold wf; cbn [rawBuffer width height].
    rewrite (length_fold_cells p (fun x : nat * nat => snd x * w + fst x)
               (fun _ => 0%R) (fun _ => 0%R)).
    exact W.
  - apply wf_make.
  - reflexivity.
  - reflexivity.
  - cbn [width height]. intros r c Hr Hc.
    unfold keepDensity. fold w h. rewrite entry_make by assumption.
    unfold entry at 1; cbn [rawBuffer width].
    rewrite !(rd_fold_cells p (fun x : nat * nat => snd x * w + fst x)
                (fun _ => 0%R) (fun _ => 0%R) _ _ _ _ Hl).
    rewrite half_even, half_odd, exists_cell_swapped by assumption.
    destruct (cell_decode w r c Hc) as [-> ->].
    replace (Nat.ltb ((r * w + c) * 2) (length (rawBuffer m))) with true
      by (symmetry; apply Nat.ltb_lt; rewrite W; fold w h; nia).
    replace (Nat.ltb ((r * w + c) * 2 + 1) (length (rawBuffer m))) with true
      by (symmetry; apply Nat.ltb_lt; rewrite W; fold w h; nia).
    unfold p, q, consistent, entry; cbn [fst snd]. fold w.
    destruct (Bool.eqb (negb (Z.eqb (js_and (Z.of_nat c) (js_shl 1 qubitIndex)) 0))
                qubitValue);
      destruct (Bool.eqb (negb (Z.eqb (js_and (Z.of_nat r) (js_shl 1 qubitIndex)) 0))
                  qubitValue);
      cbn [negb andb orb];
      destruct (Nat.even ((r * w + c) * 2)); destruct (Nat.even ((r * w + c) * 2 + 1));
      reflexivity.
Qed.

(** ** Finite sums *)

Local Open Scope R_scope.

Lemma Rsum_ext (n : nat) (f g : nat -> R) :
  (forall i, (i < n)%nat -> f i = g i) -> Rsum n f = Rsum n g.
Proof.
  induction n as [|n IH]; intros E; simpl; [reflexivity|].
  rewrite IH by (intros; apply E; lia). rewrite E by lia. reflexivity.
Qed.

Lemma Rsum_zero (n : nat) (f : nat -> R) :
  (forall i, (i < n)%nat -> f i = 0) -> Rsum n f = 0.
Proof.
  induction n as [|n IH]; intros E; simpl; [reflexivity|].
  rewrite IH by (intros; apply E; lia). rewrite E by lia. ring.
Qed.

Lemma Rsum_nonneg (n : nat) (f : nat -> R) :
  (forall i, (i < n)%nat -> 0 <= f i) -> 0 <= Rsum n f.
Proof.
  induction n as [|n IH]; intros E; simpl; [lra|].
  specialize (E n ltac:(lia)) as En.
  assert (0 <= Rsum n f) by (apply IH; intros; apply E; lia). lra.
Qed.

Lemma Rsum_zero_inv (n : nat) (f : nat -> R) :
  (forall i, (i < n)%nat -> 0 <= f i) -> Rsum n f = 0 ->
  forall i, (i < n)%nat -> f i = 0.
Proof.
  induction n as [|n IH]; intros Pos E i Hi; [lia|].
  simpl in E.
  assert (0 <= Rsum n f) by (apply Rsum_nonneg; intros; apply Pos; lia).
  specialize (Pos n ltac:(lia)) as Pn.
  destruct (Nat.eq_dec i n) as [-> | NE]; [lra|].
  apply IH; try lia; try lra. intros; apply Pos; lia.
Qed.

Lemma Rsum_scale (n : nat) (f : nat -> R) (s : R) :
  Rsum n (fun i => f i * s) = Rsum n f * s.
Proof. induction n as [|n IH]; simpl; [ring|]. rewrite IH. ring. Qed.

Lemma Rsum_plus (n : nat) (f g : nat -> R) :
  Rsum n (fun i => f i + g i) = Rsum n f + Rsum n g.
Proof. induction n as [|n IH]; simpl; [ring|]. rewrite IH. ring. Qed.

Lemma Rsum_const_one (n : nat) : Rsum n (fun _ => 1) = INR n.
Proof.
  induction n as [|n IH]; [reflexivity|].
  cbn [Rsum]. rewrite IH, S_INR. reflexivity.
Qed.

Lemma Csum_parts (n : nat) (f : nat -> C) :
  Csum n f = (Rsum n (fun i => fst (f i)), Rsum n (fun i => snd (f i))).
Proof. induction n as [|n IH]; simpl; [reflexivity|]. rewrite IH. reflexivity. Qed.

Lemma Csum_ext (n : nat) (f g : nat -> C) :
  (forall i, (i < n)%nat -> f i = g i) -> Csum n f = Csum n g.
Proof.
  induction n as [|n IH]; intros E; simpl; [reflexivity|].
  rewrite IH by (intros; apply E; lia). rewrite E by lia. reflexivity.
Qed.

Lemma Csum_zero (n : nat) (f : nat -> C) :
  (forall i, (i < n)%nat -> f i = C0) -> Csum n f = C0.
Proof.
  induction n as [|n IH]; intros E; simpl; [reflexivity|].
  rewrite IH by (intros; apply E; lia). rewrite E by lia. cpx.
Qed.

(** A sum against the indicator of one index picks that index. *)
Lemma Csum_pick (n b : nat) (f : nat -> C) :
  (b < n)%nat ->
  Csum n (fun k => Cmult (f k) (if Nat.eqb k b then C1 else C0)) = f b.
Proof.
  induction n as [|n IH]; intros Hb; [lia|]. simpl.
  destruct (Nat.eqb_spec n b) as [-> | NE].
  - rewrite Csum_zero.
    + destruct (f b). cpx.
    + intros i Hi. replace (Nat.eqb i b) with false
        by (symmetry; apply Nat.eqb_neq; lia).
      destruct (f i). cpx.
  - rewrite IH by lia. destruct (f b), (f n). cpx.
Qed.

Lemma Csum_plus (n : nat) (f g : nat -> C) :
  Csum n (fun i => Cplus (f i) (g i)) = Cplus (Csum n f) (Csum n g).
Proof. induction n as [|n IH]; simpl; [cpx|]. rewrite IH. cpx. Qed.

Lemma Csum_mult_l (n : nat) (a : C) (f : nat -> C) :
  Csum n (fun i => Cmult a (f i)) = Cmult a (Csum n f).
Proof. induction n as [|n IH]; simpl; [cpx|]. rewrite IH. cpx. Qed.

Lemma Csum_mult_r (n : nat) (a : C) (f : nat -> C) :
  Csum n (fun i => Cmult (f i) a) = Cmult (Csum n f) a.
Proof. induction n as [|n IH]; simpl; [cpx|]. rewrite IH. cpx. Qed.

Lemma Csum_swap (n m : nat) (f : nat -> nat -> C) :
  Csum n (fun i => Csum m (fun j => f i j)) =
  Csum m (fun j => Csum n (fun i => f i j)).
Proof.
  induction n as [|n IH]; simpl.
  - symmetry. apply Csum_zero. reflexivity.
  - rewrite IH, <- Csum_plus. reflexivity.
Qed.

Lemma Csum_conj (n : nat) (f : nat -> C) :
  Cconj (Csum n f) = Csum n (fun i => Cconj (f i)).
Proof. induction n as [|n IH]; simpl; [cpx|]. rewrite <- IH. cpx. Qed.

Lemma Cconj_mult (a b : C) : Cconj (Cmult a b) = Cmult (Cconj a) (Cconj b).
Proof. cpx. Qed.

Lemma Cnorm2_nonneg (a : C) : 0 <= Cnorm2 a.
Proof. unfold Cnorm2. nra. Qed.

Lemma Cnorm2_zero (a : C) : Cnorm2 a = 0 -> a = C0.
Proof.
  destruct a as [x y]; unfold Cnorm2, C0; simpl. intros H.
  assert (x = 0) by nra. assert (y = 0) by nra. subst. reflexivity.
Qed.

Lemma Cabs_real (x : R) : 0 <= x -> Cabs (x, 0) = x.
Proof.
  intros Hx. unfold Cabs, Cnorm2; simpl.
  replace (x * x + 0 * 0) with (x * x) by ring. apply sqrt_square; exact Hx.
Qed.

Lemma Cmult_conj_self (a : C) : Cmult (Cconj a) a = (Cnorm2 a, 0).
Proof. destruct a; unfold Cnorm2; cpx. Qed.

(** ** Matrix operations that do not fail *)

Lemma times_ok (a b : Matrix) :
  width a = height b ->
  times a b =
  Done (make (width b) (height a)
          (fun r c => Csum (width a) (fun k => Cmult (entry a r k) (entry b k c)))).
Proof. intros E. unfold times. rewrite E, Nat.eqb_refl. reflexivity. Qed.

Lemma trace_ok (m : Matrix) :
  width m = height m ->
  trace m = Done (Csum (height m) (fun i => entry m i i)).
Proof. intros E. unfold trace. rewrite E, Nat.eqb_refl. reflexivity. Qed.

Lemma entry_adjoint (m : Matrix) (r c : nat) :
  (r < width m)%nat -> (c < height m)%nat ->
  entry (adjoint m) r c = Cconj (entry m c r).
Proof. intros Hr Hc. unfold adjoint. apply entry_make; assumption. Qed.

Lemma norm2_nonneg (col : Matrix) : 0 <= norm2 col.
Proof. apply Rsum_nonneg. intros; apply Cnorm2_nonneg. Qed.

(** The norm of a column is the square root of the sum of its squared
    amplitudes. *)
Lemma absCol_column (col : Matrix) :
  width col = 1%nat -> absCol col = Done (sqrt (norm2 col)).
Proof.
  intros W1. unfold absCol.
  rewrite times_ok by reflexivity. cbn [bind].
  rewrite trace_ok by reflexivity.
  cbn [bind]. rewrite height_make. change (height (adjoint col)) with (width col).
  rewrite W1. cbn [Csum]. rewrite entry_make by lia.
  change (width (adjoint col)) with (height col).
  rewrite (Csum_ext _ _ (fun k => (Cnorm2 (entry col k 0), 0))).
  - rewrite Csum_parts. cbn [fst snd].
    rewrite (Rsum_zero _ (fun _ => 0)) by reflexivity.
    fold (norm2 col). unfold Cplus, C0; cbn [fst snd].
    rewrite !Rplus_0_l, Cabs_real by apply norm2_nonneg. reflexivity.
  - intros k Hk. rewrite entry_adjoint by lia. apply Cmult_conj_self.
Qed.

Lemma reciprocal_ok (x : R) : x <> 0 -> reciprocal x = Done (1 / x).
Proof. intros H. unfold reciprocal. destruct (Req_dec_T x 0); [contradiction|reflexivity]. Qed.

Lemma reciprocal_zero : reciprocal 0 = NonFinite.
Proof. unfold reciprocal. destruct (Req_dec_T 0 0); [reflexivity|contradiction]. Qed.

Lemma sqrt_zero_iff (x : R) : 0 <= x -> (sqrt x = 0 <-> x = 0).
Proof.
  intros Hx. split.
  - apply sqrt_eq_0; exact Hx.
  - intros ->. apply sqrt_0.
Qed.

Lemma normalizeCol_column (col : Matrix) :
  width col = 1%nat ->
  normalizeCol col =
  if Req_dec_T (norm2 col) 0 then NonFinite
  else Done (timesScalar col (1 / sqrt (norm2 col))).
Proof.
  intros W1. unfold normalizeCol. rewrite absCol_column by exact W1. cbn [bind].
  pose proof (norm2_nonneg col) as Pos.
  destruct (Req_dec_T (norm2 col) 0) as [Z | NZ].
  - rewrite Z, sqrt_0, reciprocal_zero. reflexivity.
  - rewrite reciprocal_ok; [reflexivity|].
    rewrite sqrt_zero_iff; assumption.
Qed.

Lemma isPowerOf2_spec (i : nat) :
  isPowerOf2 i = true <-> exists n : nat, i = (2 ^ n)%nat.
Proof.
  unfold isPowerOf2. rewrite andb_true_iff, Nat.ltb_lt, Nat.eqb_eq. split.
  - intros [_ E]. exists (Nat.log2 i). auto.
  - intros [n ->]. split.
    + apply Nat.neq_0_lt_0, Nat.pow_nonzero. lia.
    + rewrite Nat.log2_pow2 by lia. reflexivity.
Qed.

Lemma entry_identity (n r c : nat) :
  (r < n)%nat -> (c < n)%nat ->
  entry (identity n) r c = if Nat.eqb r c then C1 else C0.
Proof. intros. unfold identity. apply entry_make; assumption. Qed.

Lemma trace_identity (n : nat) : trace (identity n) = Done (INR n, 0).
Proof.
  rewrite trace_ok by reflexivity. f_equal.
  change (height (identity n)) with n.
  rewrite (Csum_ext _ _ (fun _ => C1)).
  - rewrite Csum_parts. cbn [fst snd C1].
    rewrite Rsum_const_one, Rsum_zero by reflexivity. reflexivity.
  - intros i Hi. rewrite entry_identity, Nat.eqb_refl by assumption. reflexivity.
Qed.

(** The density matrix the constructor starts from. *)
Lemma normalizeDensity_identity (n : nat) :
  (0 < n)%nat ->
  normalizeDensity (identity n) = Done (timesScalar (identity n) (1 / INR n)).
Proof.
  intros Hn. unfold normalizeDensity. rewrite trace_identity. cbn [bind].
  assert (0 < INR n) by (apply lt_0_INR; exact Hn).
  rewrite Cabs_real by lra. rewrite reciprocal_ok by lra. reflexivity.
Qed.

(** ** Construction *)

Lemma constructor_valid (v : Matrix) :
  isPowerOf2 (height v) = true -> width v = 1%nat ->
  constructor v =
  if Req_dec_T (norm2 v) 0 then NonFinite
  else Done (mkEve (timesScalar v (1 / sqrt (norm2 v)))
                   (timesScalar (identity (height v)) (1 / INR (height v)))
                   0%Z 0).
Proof.
  intros P W1. unfold constructor. rewrite P, W1. cbn [negb orb Nat.eqb].
  rewrite normalizeCol_column by exact W1.
  destruct (Req_dec_T (norm2 v) 0); [reflexivity|]. cbn [bind].
  rewrite normalizeDensity_identity; [reflexivity|].
  apply andb_true_iff in P. destruct P as [P _]. apply Nat.ltb_lt in P. exact P.
Qed.

Lemma constructor_invalid (v : Matrix) :
  isPowerOf2 (height v) = false \/ width v <> 1%nat ->
  constructor v =
  Thrown "Initial state must be a column matrix with power-of-2 height.".
Proof.
  intros H. unfold constructor.
  destruct H as [-> | NE]; [reflexivity|].
  apply Nat.eqb_neq in NE. rewrite NE, orb_true_r. reflexivity.
Qed.

(** ** applyOperation *)

Lemma applyOperation_rejected (opMatrix : Matrix) (this : EveQuantumComputer) :
  width opMatrix <> height (_actualHiddenState this) \/
  height opMatrix <> height (_actualHiddenState this) \/
  isUnitary opMatrix (1 / 1000) = false ->
  applyOperation opMatrix this =
  (Thrown "Operation must be unitary and match the size of the state.",
   set_operationCount this (_operationCount this + 1)%Z).
Proof.
  intros H. unfold applyOperation, set_operationCount.
  cbn [_actualHiddenState].
  replace (negb (Nat.eqb (width opMatrix) (height (_actualHiddenState this)))
           || negb (Nat.eqb (height opMatrix) (height (_actualHiddenState this)))
           || negb (isUnitary opMatrix (1 / 1000))) with true; [reflexivity|].
  symmetry. destruct H as [H | [H | H]].
  - apply Nat.eqb_neq in H. rewrite H. reflexivity.
  - apply Nat.eqb_neq in H. rewrite H. cbn [negb]. rewrite orb_true_r. reflexivity.
  - rewrite H. apply orb_true_r.
Qed.

Lemma applyOperation_accepted (opMatrix : Matrix) (this : EveQuantumComputer) :
  width opMatrix = height (_actualHiddenState this) ->
  height opMatrix = height (_actualHiddenState this) ->
  isUnitary opMatrix (1 / 1000) = true ->
  height (_inferredStateDensity this) = height (_actualHiddenState this) ->
  width (_inferredStateDensity this) = height (_actualHiddenState this) ->
  exists actual partial inferred,
    times opMatrix (_actualHiddenState this) = Done actual /\
    times opMatrix (_inferredStateDensity this) = Done partial /\
    times partial (adjoint opMatrix) = Done inferred /\
    applyOperation opMatrix this =
    (Done tt, mkEve actual inferred (_operationCount this + 1)%Z
                    (_expectedIgnoranceErrors this)).
Proof.
  intros W H U HD WD.
  assert (T1 := times_ok opMatrix (_actualHiddenState this) W).
  assert (T2 := times_ok opMatrix (_inferredStateDensity this) ltac:(congruence)).
  eexists _, _, _. split; [exact T1|]. split; [exact T2|].
  match type of T2 with _ = Done ?p =>
    assert (T3 := times_ok p (adjoint opMatrix))
  end.
  rewrite width_make in T3. specialize (T3 ltac:(unfold adjoint; rewrite height_make; congruence)).
  split; [exact T3|].
  unfold applyOperation, set_inferredStateDensity, set_actualHiddenState,
    set_operationCount.
  cbn [_actualHiddenState _inferredStateDensity _operationCount
       _expectedIgnoranceErrors].
  apply Nat.eqb_eq in W, H. rewrite W, H, U. cbn [negb orb].
  rewrite T1. cbn [attempt _inferredStateDensity].
  rewrite T2. cbn [bind]. rewrite T3. cbn [attempt]. reflexivity.
Qed.

(** C1. On a simulator of dimension [2^n], [applyOperation(U)] throws
    exactly when [U] is not [2^n]-by-[2^n] or fails the unitarity check at
    tolerance 0.001.  Otherwise it succeeds: the true state becomes [U]
    times the old true state, the inferred density matrix [rho] becomes
    [U rho adjoint(U)], and the operation counter grows by exactly 1. *)
Theorem applyOperation_spec (this : EveQuantumComputer) (U : Matrix) (n : nat) :
  height (_actualHiddenState this) = (2 ^ n)%nat ->
  height (_inferredStateDensity this) = (2 ^ n)%nat ->
  width (_inferredStateDensity this) = (2 ^ n)%nat ->
  ((exists msg, fst (applyOperation U this) = Thrown msg) <->
   (width U <> (2 ^ n)%nat \/ height U <> (2 ^ n)%nat \/
    isUnitary U (1 / 1000) = false)) /\
  (~ (exists msg, fst (applyOperation U this) = Thrown msg) ->
   exists actual partial inferred,
     times U (_actualHiddenState this) = Done actual /\
     times U (_inferredStateDensity this) = Done partial /\
     times partial (adjoint U) = Done inferred /\
     applyOperation U this =
     (Done tt, mkEve actual inferred (_operationCount this + 1)%Z
                     (_expectedIgnoranceErrors this))).
Proof.
  intros HS HD WD.
  destruct (Nat.eq_dec (width U) (2 ^ n)) as [W | W];
    [destruct (Nat.eq_dec (height U) (2 ^ n)) as [H | H];
     [destruct (isUnitary U (1 / 1000)) eqn:Un|]|].
  - destruct (applyOperation_accepted U this) as (a & p & i & T1 & T2 & T3 & E);
      try congruence.
    split.
    + rewrite E. cbn [fst]. split.
      * intros [msg T]. discriminate.
      * intros [N | [N | N]]; [contradiction | contradiction | discriminate].
    + intros _. exists a, p, i. auto.
  - rewrite applyOperation_rejected by auto. cbn [fst]. split.
    + split; [auto | intros _; eauto].
    + intros N. exfalso. apply N. eauto.
  - rewrite applyOperation_rejected by (right; left; congruence). cbn [fst]. split.
    + split; [auto | intros _; eauto].
    + intros N. exfalso. apply N. eauto.
  - rewrite applyOperation_rejected by (left; congruence). cbn [fst]. split.
    + split; [auto | intros _; eauto].
    + intros N. exfalso. apply N. eauto.
Qed.

(** At a concrete simulator and operator. *)
Lemma applyOperation_spec_witness :
  height (_actualHiddenState eve1) = (2 ^ 1)%nat /\
  height (_inferredStateDensity eve1) = (2 ^ 1)%nat /\
  width (_inferredStateDensity eve1) = (2 ^ 1)%nat /\
  ((exists msg, fst (applyOperation PAULI_X eve1) = Thrown msg) <->
   (width PAULI_X <> (2 ^ 1)%nat \/ height PAULI_X <> (2 ^ 1)%nat \/
    isUnitary PAULI_X (1 / 1000) = false)) /\
  (~ (exists msg, fst (applyOperation PAULI_X eve1) = Thrown msg) ->
   exists actual partial inferred,
     times PAULI_X (_actualHiddenState eve1) = Done actual /\
     times PAULI_X (_inferredStateDensity eve1) = Done partial /\
     times partial (adjoint PAULI_X) = Done inferred /\
     applyOperation PAULI_X eve1 =
     (Done tt, mkEve actual inferred (_operationCount eve1 + 1)%Z
                     (_expectedIgnoranceErrors eve1))).
Proof.
  split; [reflexivity|]. split; [reflexivity|]. split; [reflexivity|].
  apply (applyOperation_spec eve1 PAULI_X 1); reflexivity.
Defined.

Lemma constructor_ket0 : constructor ket0 = Done born.
Proof.
  rewrite constructor_valid by reflexivity.
  destruct (Req_dec_T (norm2 ket0) 0) as [Z | NZ]; [|reflexivity].
  exfalso. unfold norm2, ket0, entry, rd, Cnorm2 in Z. simpl in Z. lra.
Qed.

(** C3. A rejected [applyOperation] has already changed the simulator: on
    the simulator constructed from the column (1, 0), applying a 1-by-1
    matrix throws, and the operation count has gone from 0 to 1. *)
Theorem applyOperation_failure_counts :
  exists this0 msg this1,
    constructor ket0 = Done this0 /\
    applyOperation (mkMatrix 1 1 [1; 0]) this0 = (Thrown msg, this1) /\
    _operationCount this0 = 0%Z /\
    _operationCount this1 = 1%Z /\
    this1 <> this0.
Proof.
  eexists _, _, _. split; [apply constructor_ket0|]. split.
  - apply applyOperation_rejected. left. cbn. lia.
  - cbn. split; [reflexivity|]. split; [reflexivity|].
    intros E. apply (f_equal _operationCount) in E. cbn in E. lia.
Qed.

(** ** The 32-bit operators on small values *)

Local Open Scope Z_scope.

Lemma to_int32_small (z : Z) : - 2 ^ 31 <= z < 2 ^ 31 -> to_int32 z = z.
Proof.
  intros H. unfold to_int32. rewrite Z.mod_small by lia. lia.
Qed.

Lemma js_shl_one (k : Z) : 0 <= k < 31 -> js_shl 1 k = 2 ^ k.
Proof.
  intros H. unfold js_shl.
  rewrite (to_int32_small 1) by lia.
  rewrite Z.mod_small by lia.
  rewrite Z.shiftl_1_l.
  apply to_int32_small.
  assert (2 ^ k < 2 ^ 31) by (apply Z.pow_lt_mono_r; lia).
  assert (0 < 2 ^ k) by (apply Z.pow_pos_nonneg; lia).
  lia.
Qed.

Lemma land_pow2 (a k : Z) :
  0 <= k -> Z.land a (2 ^ k) = if Z.testbit a k then 2 ^ k else 0.
Proof.
  intros Hk. apply Z.bits_inj'. intros i Hi.
  rewrite Z.land_spec, Z.pow2_bits_eqb by lia.
  destruct (Z.eqb_spec k i) as [-> | NE].
  - destruct (Z.testbit a i) eqn:B; cbn [andb].
    + rewrite Z.pow2_bits_true; lia.
    + rewrite Z.bits_0. reflexivity.
  - rewrite andb_false_r.
    destruct (Z.testbit a k).
    + rewrite Z.pow2_bits_false; lia.
    + rewrite Z.bits_0. reflexivity.
Qed.

(** The test of the post-selection loops reads bit [k] of the index. *)
Lemma consistent_bit (k : Z) (v : bool) (i : nat) :
  0 <= k < 31 -> Z.of_nat i < 2 ^ 31 ->
  consistent k v i = Bool.eqb (bitOf k i) v.
Proof.
  intros Hk Hi. unfold consistent, bitOf, js_and.
  rewrite js_shl_one by exact Hk.
  assert (0 < 2 ^ k) by (apply Z.pow_pos_nonneg; lia).
  assert (2 ^ k < 2 ^ 31) by (apply Z.pow_lt_mono_r; lia).
  rewrite !to_int32_small by lia.
  rewrite land_pow2 by lia.
  destruct (Z.testbit (Z.of_nat i) k).
  - replace (2 ^ k =? 0) with false by (symmetry; apply Z.eqb_neq; lia).
    reflexivity.
  - reflexivity.
Qed.

(** The test of the loop of [measureQubit], which shifts the buffer offset. *)
Lemma measure_test (k : Z) (j : nat) :
  Z.of_nat j < 2 ^ 30 ->
  negb (js_and (js_shr (Z.of_nat (2 * j)) 1) (js_shl 1 k) =? 0) =
  consistent k true j.
Proof.
  intros Hj. unfold consistent, js_and at 1, js_shr.
  rewrite (to_int32_small (Z.of_nat (2 * j))) by lia.
  change (1 mod 32) with 1. rewrite Z.shiftr_div_pow2 by lia.
  replace (Z.of_nat (2 * j) / 2 ^ 1) with (Z.of_nat j)
    by (rewrite Nat2Z.inj_mul; change (Z.of_nat 2) with 2;
        rewrite Z.mul_comm, Z.div_mul; lia).
  unfold js_and.
  destruct (negb (Z.land (to_int32 (Z.of_nat j)) (to_int32 (js_shl 1 k)) =? 0));
    reflexivity.
Qed.

(** An index below [2^k] has bit [k] clear. *)
Lemma bitOf_small (k : Z) (i : nat) :
  0 <= k -> Z.of_nat i < 2 ^ k -> bitOf k i = false.
Proof.
  intros Hk Hi. unfold bitOf.
  destruct (Z.eq_dec (Z.of_nat i) 0) as [-> | NZ]; [apply Z.bits_0|].
  apply Z.bits_above_log2; [lia|].
  apply Z.log2_lt_pow2; lia.
Qed.

Local Close Scope Z_scope.

Lemma pow2_bound (n m : nat) :
  (n <= m)%nat -> forall i : nat, (i < 2 ^ n)%nat -> (Z.of_nat i < 2 ^ Z.of_nat m)%Z.
Proof.
  intros Hn i Hi.
  assert (2 ^ n <= 2 ^ m)%nat by (apply Nat.pow_le_mono_r; lia).
  replace (2 ^ Z.of_nat m)%Z with (Z.of_nat (2 ^ m))
    by (rewrite Nat2Z.inj_pow; reflexivity).
  lia.
Qed.

(** ** measureQubit *)

Lemma fold_pair_sums (t : nat -> bool) (f g : nat -> R) (n : nat) :
  fold_left (fun '(a, p) (j : nat) =>
               if t j then (a + f j, p + g j) else (a, p))
            (seq 0 n) (0, 0) =
  (Rsum n (fun j => if t j then f j else 0),
   Rsum n (fun j => if t j then g j else 0)).
Proof.
  induction n as [|n IH]; [reflexivity|].
  rewrite seq_S, fold_left_app, IH. cbn [fold_left Nat.add Rsum].
  destruct (t n); f_equal; ring.
Qed.

(** What the loop of [measureQubit] accumulates. *)
Lemma measure_loop (k : Z) (actual inferred : Matrix) (n : nat) :
  wf actual -> width actual = 1%nat -> height actual = (2 ^ n)%nat ->
  width inferred = (2 ^ n)%nat -> height inferred = (2 ^ n)%nat ->
  (n <= 30)%nat ->
  for_range ((length (rawBuffer actual) + 1) / 2)
    (fun '(actualOnNess, predictedOnNess) j =>
      let i := (2 * j)%nat in
      if negb (Z.eqb (js_and (js_shr (Z.of_nat i) 1) (js_shl 1 k)) 0)
      then
        let cr := rd (rawBuffer actual) i in
        let ci := rd (rawBuffer actual) (i + 1) in
        (actualOnNess + (cr * cr + ci * ci),
         predictedOnNess
         + rd (rawBuffer inferred) (i * (length (rawBuffer actual) / 2 + 1)))
      else (actualOnNess, predictedOnNess)) (0, 0) =
  (massWhere (consistent k true) actual, diagWhere (consistent k true) inferred).
Proof.
  intros W W1 H WI HI Hn. unfold for_range.
  rewrite W, W1, H.
  replace ((2 * (2 ^ n * 1) + 1) / 2)%nat with (2 ^ n)%nat
    by (symmetry; apply half_cell; lia).
  replace (2 * (2 ^ n * 1) / 2)%nat with (2 ^ n)%nat
    by (symmetry; apply half_cell; lia).
  cbv zeta.
  rewrite (fold_pair_sums
             (fun j => negb (Z.eqb (js_and (js_shr (Z.of_nat (2 * j)) 1) (js_shl 1 k)) 0))
             (fun j => rd (rawBuffer actual) (2 * j) * rd (rawBuffer actual) (2 * j)
                       + rd (rawBuffer actual) (2 * j + 1)
                         * rd (rawBuffer actual) (2 * j + 1))
             (fun j => rd (rawBuffer inferred) (2 * j * (2 ^ n + 1)))).
  unfold massWhere, diagWhere. rewrite H, HI. f_equal.
  - apply Rsum_ext. intros j Hj.
    rewrite measure_test by (apply (pow2_bound n 30 Hn); exact Hj).
    unfold Cnorm2, entry; cbn [fst snd]. rewrite W1.
    replace ((j * 1 + 0) * 2)%nat with (2 * j)%nat by lia. reflexivity.
  - apply Rsum_ext. intros j Hj.
    rewrite measure_test by (apply (pow2_bound n 30 Hn); exact Hj).
    unfold entry; cbn [fst]. rewrite WI.
    replace ((j * 2 ^ n + j) * 2)%nat with (2 * j * (2 ^ n + 1))%nat by lia.
    reflexivity.
Qed.

(** [measureQubit], step by step. *)
Lemma measureQubit_steps (k : Z) (random : R) (this : EveQuantumComputer) (n : nat) :
  wf (_actualHiddenState this) -> width (_actualHiddenState this) = 1%nat ->
  height (_actualHiddenState this) = (2 ^ n)%nat ->
  wf (_inferredStateDensity this) ->
  width (_inferredStateDensity this) = (2 ^ n)%nat ->
  height (_inferredStateDensity this) = (2 ^ n)%nat ->
  (n <= 30)%nat ->
  let p := massWhere (consistent k true) (_actualHiddenState this) in
  let q := diagWhere (consistent k true) (_inferredStateDensity this) in
  let result := Rltb random p in
  let count := (_operationCount this + 1)%Z in
  let score := _expectedIgnoranceErrors this + Rabs (q - p) in
  measureQubit k random this =
  attempt (normalizeCol (keepCol (_actualHiddenState this) k result))
    (mkEve (_actualHiddenState this) (_inferredStateDensity this) count score)
    (fun actual =>
  attempt (normalizeDensity (keepDensity (_inferredStateDensity this) k result))
    (mkEve actual (_inferredStateDensity this) count score)
    (fun inferred => (Done result, mkEve actual inferred count score))).
Proof.
  intros W W1 H WD WI HI Hn p q result count score.
  unfold measureQubit, set_inferredStateDensity, set_actualHiddenState,
    set_expectedIgnoranceErrors, set_operationCount.
  cbn [_actualHiddenState _inferredStateDensity _operationCount
       _expectedIgnoranceErrors].
  rewrite (measure_loop k _ _ n) by assumption.
  fold p q result count score.
  rewrite postselectCol_keep by assumption.
  rewrite postselectDensity_keep by assumption.
  reflexivity.
Qed.

(** ** Post-selection *)

Lemma norm2_keepCol (col : Matrix) (k : Z) (v : bool) :
  norm2 (keepCol col k v) = massWhere (consistent k v) col.
Proof.
  unfold norm2, massWhere, keepCol. rewrite height_make.
  apply Rsum_ext. intros i Hi. rewrite entry_make by lia.
  destruct (consistent k v i); [reflexivity|].
  unfold Cnorm2, C0; simpl. ring.
Qed.

Lemma massWhere_nonneg (sel : nat -> bool) (col : Matrix) : 0 <= massWhere sel col.
Proof.
  apply Rsum_nonneg. intros i _.
  destruct (sel i); [apply Cnorm2_nonneg | lra].
Qed.

Lemma massWhere_ext (sel sel' : nat -> bool) (col : Matrix) :
  (forall i, (i < height col)%nat -> sel i = sel' i) ->
  massWhere sel col = massWhere sel' col.
Proof. intros E. apply Rsum_ext. intros i Hi. rewrite E by exact Hi. reflexivity. Qed.

Lemma diagWhere_ext (sel sel' : nat -> bool) (m : Matrix) :
  (forall i, (i < height m)%nat -> sel i = sel' i) ->
  diagWhere sel m = diagWhere sel' m.
Proof. intros E. apply Rsum_ext. intros i Hi. rewrite E by exact Hi. reflexivity. Qed.

Lemma fst_traceWhere (sel : nat -> bool) (m : Matrix) :
  fst (traceWhere sel m) = diagWhere sel m.
Proof.
  unfold traceWhere, diagWhere. rewrite Csum_parts. cbn [fst].
  apply Rsum_ext. intros i _. destruct (sel i); reflexivity.
Qed.

(** Clearing and normalizing a column: the division is by the square root
    of the mass that is kept. *)
Lemma normalizeCol_keepCol (col : Matrix) (k : Z) (v : bool) :
  normalizeCol (keepCol col k v) =
  if Req_dec_T (massWhere (consistent k v) col) 0 then NonFinite
  else Done (timesScalar (keepCol col k v)
               (1 / sqrt (massWhere (consistent k v) col))).
Proof.
  rewrite normalizeCol_column by reflexivity. rewrite norm2_keepCol. reflexivity.
Qed.

Lemma trace_keepDensity (m : Matrix) (k : Z) (v : bool) :
  width m = height m ->
  trace (keepDensity m k v) = Done (traceWhere (consistent k v) m).
Proof.
  intros Sq. rewrite trace_ok by exact Sq. f_equal.
  unfold keepDensity, traceWhere. rewrite height_make.
  apply Csum_ext. intros i Hi. rewrite entry_make by lia.
  destruct (consistent k v i); reflexivity.
Qed.

Lemma Cabs_zero_iff (z : C) : Cabs z = 0 <-> z = C0.
Proof.
  unfold Cabs. rewrite sqrt_zero_iff by apply Cnorm2_nonneg. split.
  - apply Cnorm2_zero.
  - intros ->. unfold Cnorm2, C0; simpl. ring.
Qed.

(** Clearing and normalizing a density matrix: the division is by the
    magnitude of the trace that is kept. *)
Lemma normalizeDensity_keepDensity (m : Matrix) (k : Z) (v : bool) :
  width m = height m ->
  normalizeDensity (keepDensity m k v) =
  if Req_dec_T (Cabs (traceWhere (consistent k v) m)) 0 then NonFinite
  else Done (timesScalar (keepDensity m k v)
               (1 / Cabs (traceWhere (consistent k v) m))).
Proof.
  intros Sq. unfold normalizeDensity. rewrite trace_keepDensity by exact Sq.
  cbn [bind]. unfold reciprocal.
  destruct (Req_dec_T (Cabs (traceWhere (consistent k v) m)) 0); reflexivity.
Qed.

(** C8 (as the code has it). The renormalization divides without a guard:
    post-selecting a column ends in a division by zero exactly when the
    amplitudes kept have zero total mass, post-selecting a density matrix
    exactly when the diagonal entries kept sum to zero; in every other case
    the cleared matrix is scaled by the reciprocal of its norm, respectively
    of the magnitude of its trace. *)
Theorem postselect_division (col rho : Matrix) (k : Z) (v : bool) :
  wf col -> width col = 1%nat -> wf rho -> width rho = height rho ->
  (postselectCol col k v = NonFinite <-> massWhere (consistent k v) col = 0) /\
  (massWhere (consistent k v) col <> 0 ->
   postselectCol col k v =
   Done (timesScalar (keepCol col k v) (1 / sqrt (massWhere (consistent k v) col)))) /\
  (postselectDensity rho k v = NonFinite <-> traceWhere (consistent k v) rho = C0) /\
  (traceWhere (consistent k v) rho <> C0 ->
   postselectDensity rho k v =
   Done (timesScalar (keepDensity rho k v)
           (1 / Cabs (traceWhere (consistent k v) rho)))).
Proof.
  intros W W1 WR Sq.
  rewrite postselectCol_keep, normalizeCol_keepCol by assumption.
  rewrite postselectDensity_keep, normalizeDensity_keepDensity by assumption.
  rewrite <- Cabs_zero_iff.
  destruct (Req_dec_T (massWhere (consistent k v) col) 0) as [Z | NZ];
    destruct (Req_dec_T (Cabs (traceWhere (consistent k v) rho)) 0) as [Z' | NZ'];
    repeat split; intros; try tauto; try discriminate; try contradiction.
Qed.

Lemma wf_ket0 : wf ket0.
Proof. reflexivity. Qed.

Lemma postselect_division_witness :
  wf ket0 /\ width ket0 = 1%nat /\ wf mixed1 /\ width mixed1 = height mixed1 /\
  (postselectCol ket0 0 true = NonFinite <-> massWhere (consistent 0 true) ket0 = 0) /\
  (massWhere (consistent 0 true) ket0 <> 0 ->
   postselectCol ket0 0 true =
   Done (timesScalar (keepCol ket0 0 true)
           (1 / sqrt (massWhere (consistent 0 true) ket0)))) /\
  (postselectDensity mixed1 0 true = NonFinite <->
   traceWhere (consistent 0 true) mixed1 = C0) /\
  (traceWhere (consistent 0 true) mixed1 <> C0 ->
   postselectDensity mixed1 0 true =
   Done (timesScalar (keepDensity mixed1 0 true)
           (1 / Cabs (traceWhere (consistent 0 true) mixed1)))).
Proof.
  split; [reflexivity|]. split; [reflexivity|]. split; [reflexivity|].
  split; [reflexivity|].
  apply (postselect_division ket0 mixed1 0 true); reflexivity.
Defined.

(** C8 (as claimed) fails: post-selecting the state (1, 0) onto "qubit 0
    is on" keeps no mass, and the normalization divides by zero. *)
Lemma postselectCol_divides_by_zero : postselectCol ket0 0 true = NonFinite.
Proof.
  rewrite postselectCol_keep, normalizeCol_keepCol by reflexivity.
  destruct (Req_dec_T (massWhere (consistent 0 true) ket0) 0) as [Z | NZ];
    [reflexivity|].
  exfalso. apply NZ. unfold massWhere, ket0, entry, rd, Cnorm2; simpl.
  unfold consistent, js_and, js_shl; simpl. ring.
Qed.

Lemma consistent_false (k : Z) (i : nat) :
  consistent k false i = negb (consistent k true i).
Proof. unfold consistent. destruct (negb _); reflexivity. Qed.

Lemma massWhere_split (sel : nat -> bool) (col : Matrix) :
  massWhere sel col + massWhere (fun i => negb (sel i)) col = norm2 col.
Proof.
  unfold massWhere, norm2. rewrite <- Rsum_plus. apply Rsum_ext. intros i _.
  destruct (sel i); cbn [negb]; ring.
Qed.

Lemma massWhere_true_false (k : Z) (col : Matrix) :
  massWhere (consistent k true) col + massWhere (consistent k false) col = norm2 col.
Proof.
  rewrite <- (massWhere_split (consistent k true)). f_equal.
  apply massWhere_ext. intros i _. apply consistent_false.
Qed.

Lemma Rltb_true (x y : R) : Rltb x y = true <-> x < y.
Proof. unfold Rltb. destruct (Rlt_dec x y); split; auto; discriminate. Qed.

Lemma Rltb_false (x y : R) : Rltb x y = false <-> y <= x.
Proof.
  unfold Rltb. destruct (Rlt_dec x y); split; intros; try discriminate; try lra; auto.
Qed.

Lemma keepCol_all (col : Matrix) (k : Z) (v : bool) :
  wf col -> width col = 1%nat ->
  (forall i, (i < height col)%nat -> consistent k v i = true) ->
  keepCol col k v = col.
Proof.
  intros W W1 All. rewrite <- (make_entry col W) at 2. rewrite W1.
  unfold keepCol. apply make_ext. intros r c Hr Hc.
  rewrite All by exact Hr. replace c with 0%nat by lia. reflexivity.
Qed.

Lemma keepDensity_all (m : Matrix) (k : Z) (v : bool) :
  wf m -> width m = height m ->
  (forall i, (i < height m)%nat -> consistent k v i = true) ->
  keepDensity m k v = m.
Proof.
  intros W Sq All. rewrite <- (make_entry m W) at 2.
  unfold keepDensity. apply make_ext. intros r c Hr Hc.
  rewrite !All by lia. reflexivity.
Qed.

(** On a simulator of [n] qubits in a normalized state (unit norm,
    trace 1), [measureQubit(k)] with [n <= k < 31] is not rejected: it
    returns [false], adds 0 to the misprediction score, raises the
    operation count by 1 and leaves the true state vector and the inferred
    density matrix as they were. *)
Lemma measureQubit_beyond_normalized (this : EveQuantumComputer) (n : nat)
    (k : Z) (random : R) :
  shaped n this ->
  norm2 (_actualHiddenState this) = 1 ->
  trace (_inferredStateDensity this) = Done C1 ->
  (Z.of_nat n <= k < 31)%Z ->
  0 <= random ->
  measureQubit k random this =
  (Done false,
   mkEve (_actualHiddenState this) (_inferredStateDensity this)
         (_operationCount this + 1)%Z (_expectedIgnoranceErrors this + 0)).
Proof.
  intros [W W1 H WD WI HI] N T Hk Hr.
  assert (Hn : (n <= 30)%nat) by lia.
  assert (Off : forall i, (i < 2 ^ n)%nat -> consistent k true i = false).
  { intros i Hi. rewrite consistent_bit; try lia.
    - rewrite bitOf_small; [reflexivity | lia |].
      pose proof (pow2_bound n n (le_n n) i Hi).
      assert (2 ^ Z.of_nat n <= 2 ^ k)%Z by (apply Z.pow_le_mono_r; lia). lia.
    - pose proof (pow2_bound n 31 ltac:(lia) i Hi). exact H0. }
  assert (On : forall i, (i < 2 ^ n)%nat -> consistent k false i = true)
    by (intros i Hi; rewrite consistent_false, Off by exact Hi; reflexivity).
  rewrite (measureQubit_steps k random this n) by assumption.
  assert (P0 : massWhere (consistent k true) (_actualHiddenState this) = 0).
  { apply Rsum_zero. intros i Hi. rewrite Off by lia. reflexivity. }
  assert (Q0 : diagWhere (consistent k true) (_inferredStateDensity this) = 0).
  { apply Rsum_zero. intros i Hi. rewrite Off by lia. reflexivity. }
  rewrite P0, Q0.
  replace (Rltb random 0) with false by (symmetry; apply Rltb_false; exact Hr).
  rewrite keepCol_all by (rewrite ?H; auto).
  rewrite keepDensity_all by (rewrite ?HI; auto; congruence).
  rewrite normalizeCol_column by exact W1.
  destruct (Req_dec_T (norm2 (_actualHiddenState this)) 0) as [Z | _]; [lra|].
  rewrite N, sqrt_1, timesScalar_one. cbn [attempt].
  unfold normalizeDensity. rewrite T. cbn [bind].
  replace (Cabs C1) with 1
    by (unfold C1; rewrite Cabs_real; lra).
  rewrite reciprocal_ok by lra. cbn [bind attempt]. rewrite timesScalar_one.
  replace (0 - 0) with 0 by ring. rewrite Rabs_R0. reflexivity.
Qed.

(** ** Measuring a plausible state *)

Lemma traceWhere_real (sel : nat -> bool) (m : Matrix) :
  (forall i, (i < height m)%nat -> snd (entry m i i) = 0) ->
  traceWhere sel m = (diagWhere sel m, 0).
Proof.
  intros Re. apply injective_projections; cbn [fst snd].
  - apply fst_traceWhere.
  - unfold traceWhere. rewrite Csum_parts. cbn [snd].
    apply Rsum_zero. intros i Hi. destruct (sel i); [apply Re; exact Hi | reflexivity].
Qed.

Lemma diagWhere_nonneg (sel : nat -> bool) (m : Matrix) :
  (forall i, (i < height m)%nat -> 0 <= fst (entry m i i)) ->
  0 <= diagWhere sel m.
Proof.
  intros Pos. apply Rsum_nonneg. intros i Hi.
  destruct (sel i); [apply Pos; exact Hi | lra].
Qed.

(** If the observer gives zero probability to a set of basis states that
    covers the support of the true state, the true state has no mass there. *)
Lemma mass_zero_of_diag_zero (sel : nat -> bool) (col m : Matrix) :
  height col = height m ->
  (forall i, (i < height m)%nat ->
     0 <= fst (entry m i i) /\ (fst (entry m i i) = 0 -> entry col i 0 = C0)) ->
  diagWhere sel m = 0 -> massWhere sel col = 0.
Proof.
  intros H Ok Z. unfold massWhere. rewrite H. apply Rsum_zero. intros i Hi.
  destruct (sel i) eqn:S; [|reflexivity].
  assert (E : (if sel i then fst (entry m i i) else 0) = 0).
  { apply (Rsum_zero_inv (height m)
             (fun j => if sel j then fst (entry m j j) else 0)); auto.
    intros j Hj. destruct (sel j); [apply Ok; exact Hj | lra]. }
  rewrite S in E. destruct (Ok i Hi) as [_ Sup]. rewrite (Sup E).
  unfold Cnorm2, C0; simpl. ring.
Qed.

(** The outcome sampled from a unit-norm state keeps positive mass. *)
Lemma sampled_mass_positive (k : Z) (random : R) (col : Matrix) :
  norm2 col = 1 -> 0 <= random < 1 ->
  0 < massWhere (consistent k (Rltb random (massWhere (consistent k true) col))) col.
Proof.
  intros N Hr.
  destruct (Rltb random (massWhere (consistent k true) col)) eqn:B.
  - apply Rltb_true in B. lra.
  - apply Rltb_false in B. pose proof (massWhere_true_false k col). lra.
Qed.

(** On a plausible state [measureQubit] runs to completion: neither
    normalization divides by zero. *)
Lemma measureQubit_ok (k : Z) (random : R) (this : EveQuantumComputer) (n : nat) :
  state_ok n this -> (n <= 30)%nat -> 0 <= random < 1 ->
  let p := massWhere (consistent k true) (_actualHiddenState this) in
  let q := diagWhere (consistent k true) (_inferredStateDensity this) in
  let result := Rltb random p in
  let kept := massWhere (consistent k result) (_actualHiddenState this) in
  let believed := diagWhere (consistent k result) (_inferredStateDensity this) in
  0 < kept /\ 0 < believed /\
  measureQubit k random this =
  (Done result,
   mkEve (timesScalar (keepCol (_actualHiddenState this) k result) (1 / sqrt kept))
         (timesScalar (keepDensity (_inferredStateDensity this) k result)
                      (1 / believed))
         (_operationCount this + 1)%Z
         (_expectedIgnoranceErrors this + Rabs (q - p))).
Proof.
  intros [[W W1 H WD WI HI] N D] Hn Hr p q result kept believed.
  assert (Kp : 0 < kept) by (apply sampled_mass_positive; assumption).
  assert (Bp : 0 < believed).
  { assert (0 <= believed)
      by (apply diagWhere_nonneg; intros i Hi; apply D; lia).
    destruct (Req_dec_T believed 0) as [Z | NZ]; [|lra].
    exfalso. apply (mass_zero_of_diag_zero _ (_actualHiddenState this)) in Z.
    - fold kept in Z. lra.
    - congruence.
    - intros i Hi. split; apply D; lia. }
  split; [exact Kp|]. split; [exact Bp|].
  rewrite (measureQubit_steps k random this n) by assumption.
  fold p q result.
  rewrite normalizeCol_keepCol. fold kept.
  destruct (Req_dec_T kept 0) as [Z | _]; [lra|]. cbn [attempt].
  rewrite normalizeDensity_keepDensity by congruence.
  rewrite traceWhere_real by (intros i Hi; apply D; lia).
  fold believed. rewrite Cabs_real by lra.
  destruct (Req_dec_T believed 0) as [Z | _]; [lra|]. reflexivity.
Qed.

Lemma Cscale_C0 (s : R) : Cscale s C0 = C0.
Proof. unfold Cscale, C0; simpl. f_equal; ring. Qed.

Lemma Cnorm2_Cscale (s : R) (z : C) : Cnorm2 (Cscale s z) = Cnorm2 z * (s * s).
Proof. unfold Cnorm2, Cscale; simpl. ring. Qed.

Lemma entry_scaled (m : Matrix) (s : R) (r c : nat) :
  entry (timesScalar m s) r c = Cscale s (entry m r c).
Proof. apply entry_timesScalar. Qed.

Lemma inv_sqrt_square (m : R) : 0 < m -> 1 / sqrt m * (1 / sqrt m) = 1 / m.
Proof.
  intros Hm. assert (0 < sqrt m) by (apply sqrt_lt_R0; exact Hm).
  pose proof (sqrt_sqrt m ltac:(lra)) as S.
  transitivity (1 / (sqrt m * sqrt m)).
  - field. lra.
  - rewrite S. reflexivity.
Qed.

Lemma entry_collapsed_col (col : Matrix) (k : Z) (b : bool) (s : R) (i : nat) :
  (i < height col)%nat ->
  entry (timesScalar (keepCol col k b) s) i 0 =
  if consistent k b i then Cscale s (entry col i 0) else C0.
Proof.
  intros Hi. rewrite entry_scaled. unfold keepCol. rewrite entry_make by lia.
  destruct (consistent k b i); [reflexivity | apply Cscale_C0].
Qed.

Lemma entry_collapsed_density (m : Matrix) (k : Z) (b : bool) (s : R) (r c : nat) :
  (r < height m)%nat -> (c < width m)%nat ->
  entry (timesScalar (keepDensity m k b) s) r c =
  if consistent k b c && consistent k b r then Cscale s (entry m r c) else C0.
Proof.
  intros Hr Hc. rewrite entry_scaled. unfold keepDensity.
  rewrite entry_make by lia.
  destruct (consistent k b c && consistent k b r); [reflexivity | apply Cscale_C0].
Qed.

(** Mass of the collapsed column on any set of basis states. *)
Lemma massWhere_collapsed (sel : nat -> bool) (col : Matrix) (k : Z) (b : bool) (s : R) :
  massWhere sel (timesScalar (keepCol col k b) s) =
  massWhere (fun i => sel i && consistent k b i) col * (s * s).
Proof.
  unfold massWhere. cbn [timesScalar keepCol height make].
  rewrite <- Rsum_scale. apply Rsum_ext. intros i Hi.
  rewrite entry_collapsed_col by exact Hi.
  destruct (sel i); cbn [andb]; [|ring].
  destruct (consistent k b i).
  - apply Cnorm2_Cscale.
  - unfold Cnorm2, C0; simpl. ring.
Qed.

(** Diagonal weight of the collapsed density matrix on any set of basis
    states. *)
Lemma diagWhere_collapsed (sel : nat -> bool) (m : Matrix) (k : Z) (b : bool) (s : R) :
  width m = height m ->
  diagWhere sel (timesScalar (keepDensity m k b) s) =
  diagWhere (fun i => sel i && consistent k b i) m * s.
Proof.
  intros Sq. unfold diagWhere. cbn [timesScalar keepDensity height make].
  rewrite <- Rsum_scale. apply Rsum_ext. intros i Hi.
  rewrite entry_collapsed_density by lia.
  destruct (sel i); cbn [andb]; [|ring].
  destruct (consistent k b i); cbn [andb]; unfold Cscale, C0; simpl; ring.
Qed.

Lemma norm2_massWhere (col : Matrix) : norm2 col = massWhere (fun _ => true) col.
Proof. reflexivity. Qed.

Lemma norm2_collapsed (col : Matrix) (k : Z) (b : bool) :
  0 < massWhere (consistent k b) col ->
  norm2 (timesScalar (keepCol col k b) (1 / sqrt (massWhere (consistent k b) col))) = 1.
Proof.
  intros Pos. rewrite norm2_massWhere, massWhere_collapsed.
  cbn [andb]. rewrite inv_sqrt_square by exact Pos.
  change (fun i => consistent k b i) with (consistent k b). field. lra.
Qed.

Lemma trace_collapsed (m : Matrix) (k : Z) (b : bool) :
  width m = height m ->
  (forall i, (i < height m)%nat -> snd (entry m i i) = 0) ->
  0 < diagWhere (consistent k b) m ->
  trace (timesScalar (keepDensity m k b) (1 / diagWhere (consistent k b) m)) = Done C1.
Proof.
  intros Sq Re Pos. rewrite trace_ok by exact Sq. f_equal.
  cbn [timesScalar keepDensity height make].
  rewrite (Csum_ext _ _
             (fun i => Cscale (1 / diagWhere (consistent k b) m)
                         (if consistent k b i then entry m i i else C0))).
  - rewrite Csum_parts. unfold Cscale; cbn [fst snd].
    rewrite !Rsum_scale. apply injective_projections; cbn [fst snd C1].
    + rewrite (Rsum_ext _ _ (fun i => if consistent k b i then fst (entry m i i) else 0))
        by (intros i _; destruct (consistent k b i); reflexivity).
      fold (diagWhere (consistent k b) m). field. lra.
    + rewrite (Rsum_zero _ (fun i => snd (if consistent k b i then entry m i i else C0))).
      * ring.
      * intros i Hi. destruct (consistent k b i); [apply Re; exact Hi | reflexivity].
  - intros i Hi. rewrite entry_collapsed_density by lia.
    destruct (consistent k b i); cbn [andb]; [reflexivity|].
    symmetry; apply Cscale_C0.
Qed.

(** The state a measurement leaves behind is plausible again. *)
Lemma collapsed_state_ok (this : EveQuantumComputer) (n : nat) (k : Z) (b : bool)
    (count : Z) (score : R) :
  state_ok n this ->
  0 < massWhere (consistent k b) (_actualHiddenState this) ->
  0 < diagWhere (consistent k b) (_inferredStateDensity this) ->
  state_ok n
    (mkEve (timesScalar (keepCol (_actualHiddenState this) k b)
              (1 / sqrt (massWhere (consistent k b) (_actualHiddenState this))))
           (timesScalar (keepDensity (_inferredStateDensity this) k b)
              (1 / diagWhere (consistent k b) (_inferredStateDensity this)))
           count score).
Proof.
  intros [[W W1 H WD WI HI] N D] Kp Bp.
  constructor; [constructor|..]; cbn [_actualHiddenState _inferredStateDensity].
  - apply wf_timesScalar, wf_make.
  - reflexivity.
  - exact H.
  - apply wf_timesScalar, wf_make.
  - exact WI.
  - exact HI.
  - apply norm2_collapsed. exact Kp.
  - intros i Hi.
    rewrite entry_collapsed_density, entry_collapsed_col by lia.
    destruct (D i Hi) as (Re & Pos & Sup).
    assert (0 < 1 / diagWhere (consistent k b) (_inferredStateDensity this))
      by (apply Rdiv_lt_0_compat; lra).
    destruct (consistent k b i); cbn [andb].
    + unfold Cscale; cbn [fst snd]. rewrite Re. repeat split.
      * ring.
      * apply Rmult_le_pos; lra.
      * intros Z. apply Rmult_integral in Z. destruct Z as [Z | Z]; [|lra].
        rewrite (Sup Z). unfold C0; simpl. f_equal; ring.
    + unfold C0; cbn [fst snd]. repeat split; lra.
Qed.

(** On a plausible simulator state of [n] qubits and for a qubit index
    [k] in range, [measureQubit(k)] computes the actual on-probability [p],
    the sum of the squared amplitude magnitudes of the true state over the
    basis indices with bit [k] set, and the predicted on-probability [q],
    the sum of the corresponding diagonal entries of the inferred density
    matrix.  With the one value it draws from the random source it returns
    the boolean [random < p], adds [|q - p|] to the misprediction score, and
    replaces both representations by their post-selection onto the returned
    outcome: the true state has the amplitudes that disagree with it cleared
    and is rescaled to unit norm, the density matrix has every entry with a
    disagreeing row or column cleared and is rescaled to trace 1. *)
Lemma measureQubit_plausible (this : EveQuantumComputer) (n : nat) (k : Z) (random : R) :
  state_ok n this -> (n <= 30)%nat -> (0 <= k < Z.of_nat n)%Z -> 0 <= random < 1 ->
  let p := massWhere (bitOf k) (_actualHiddenState this) in
  let q := diagWhere (bitOf k) (_inferredStateDensity this) in
  let result := Rltb random p in
  let agrees := fun i => Bool.eqb (bitOf k i) result in
  let kept := massWhere agrees (_actualHiddenState this) in
  let believed := diagWhere agrees (_inferredStateDensity this) in
  exists this',
    measureQubit k random this = (Done result, this') /\
    _expectedIgnoranceErrors this' = _expectedIgnoranceErrors this + Rabs (q - p) /\
    _operationCount this' = (_operationCount this + 1)%Z /\
    shaped n this' /\
    0 < kept /\ 0 < believed /\
    (forall i, (i < 2 ^ n)%nat ->
       entry (_actualHiddenState this') i 0 =
       if agrees i then Cscale (1 / sqrt kept) (entry (_actualHiddenState this) i 0)
       else C0) /\
    norm2 (_actualHiddenState this') = 1 /\
    (forall r c, (r < 2 ^ n)%nat -> (c < 2 ^ n)%nat ->
       entry (_inferredStateDensity this') r c =
       if agrees c && agrees r
       then Cscale (1 / believed) (entry (_inferredStateDensity this) r c)
       else C0) /\
    trace (_inferredStateDensity this') = Done C1.
Proof.
  intros Ok Hn Hk Hr p q result agrees kept believed.
  pose proof Ok as [[W W1 H WD WI HI] N D].
  assert (Bit : forall v i, (i < 2 ^ n)%nat ->
                consistent k v i = Bool.eqb (bitOf k i) v).
  { intros v i Hi. apply consistent_bit; [lia|].
    pose proof (pow2_bound n 31 ltac:(lia) i Hi). assumption. }
  assert (Ep : massWhere (consistent k true) (_actualHiddenState this) = p).
  { apply massWhere_ext. intros i Hi. rewrite Bit by lia.
    destruct (bitOf k i); reflexivity. }
  assert (Eq : diagWhere (consistent k true) (_inferredStateDensity this) = q).
  { apply diagWhere_ext. intros i Hi. rewrite Bit by lia.
    destruct (bitOf k i); reflexivity. }
  assert (Ek : massWhere (consistent k result) (_actualHiddenState this) = kept).
  { apply massWhere_ext. intros i Hi. apply Bit. lia. }
  assert (Eb : diagWhere (consistent k result) (_inferredStateDensity this) = believed).
  { apply diagWhere_ext. intros i Hi. apply Bit. lia. }
  pose proof (measureQubit_ok k random this n Ok Hn Hr) as M.
  cbv zeta in M. rewrite Ep, Eq in M. fold result in M. rewrite Ek, Eb in M.
  destruct M as (Kp & Bp & E).
  eexists. split; [exact E|]. cbn [_expectedIgnoranceErrors _operationCount
    _actualHiddenState _inferredStateDensity].
  split; [reflexivity|]. split; [reflexivity|].
  pose proof (collapsed_state_ok this n k result (_operationCount this + 1)%Z
                (_expectedIgnoranceErrors this + Rabs (q - p)) Ok) as Ok'.
  rewrite Ek, Eb in Ok'. specialize (Ok' Kp Bp).
  destruct Ok' as [Sh' N' D'].
  cbn [_actualHiddenState _inferredStateDensity] in N'.
  split; [exact Sh'|]. split; [exact Kp|]. split; [exact Bp|].
  split; [|split; [exact N'|split]].
  - intros i Hi. rewrite entry_collapsed_col by lia. rewrite Bit by exact Hi.
    reflexivity.
  - intros r c Hr' Hc. rewrite entry_collapsed_density by lia.
    rewrite !Bit by assumption. reflexivity.
  - rewrite <- Eb. apply trace_collapsed.
    + congruence.
    + intros i Hi. apply D. lia.
    + rewrite Eb. exact Bp.
Qed.

(** After the collapse onto outcome [b], the true state puts all of its
    mass, or none of it, on "qubit [k] is on". *)
Lemma collapsed_on_mass (col : Matrix) (k : Z) (b : bool) :
  0 < massWhere (consistent k b) col ->
  massWhere (consistent k true)
    (timesScalar (keepCol col k b) (1 / sqrt (massWhere (consistent k b) col))) =
  if b then 1 else 0.
Proof.
  intros Pos. rewrite massWhere_collapsed, inv_sqrt_square by exact Pos.
  destruct b.
  - rewrite (massWhere_ext _ (consistent k true))
      by (intros i _; destruct (consistent k true i); reflexivity).
    field. lra.
  - rewrite (massWhere_ext _ (fun _ => false))
      by (intros i _; rewrite consistent_false; destruct (consistent k true i);
          reflexivity).
    unfold massWhere. rewrite Rsum_zero by reflexivity. ring.
Qed.

(** So does the observer's density matrix. *)
Lemma collapsed_on_diag (m : Matrix) (k : Z) (b : bool) :
  width m = height m ->
  0 < diagWhere (consistent k b) m ->
  diagWhere (consistent k true)
    (timesScalar (keepDensity m k b) (1 / diagWhere (consistent k b) m)) =
  if b then 1 else 0.
Proof.
  intros Sq Pos. rewrite diagWhere_collapsed by exact Sq.
  destruct b.
  - rewrite (diagWhere_ext _ (consistent k true))
      by (intros i _; destruct (consistent k true i); reflexivity).
    field. lra.
  - rewrite (diagWhere_ext _ (fun _ => false))
      by (intros i _; rewrite consistent_false; destruct (consistent k true i);
          reflexivity).
    unfold diagWhere. rewrite Rsum_zero by reflexivity. ring.
Qed.

(** On a plausible simulator state, measuring qubit [k] (whatever the
    index) twice in succession returns the same boolean both times, and the second call
    adds exactly 0 to the misprediction score: after the first call the true
    state and the inferred density matrix are both collapsed onto that
    outcome. *)
Lemma measureQubit_twice_plausible (this : EveQuantumComputer) (n : nat) (k : Z)
    (random1 random2 : R) :
  state_ok n this -> (n <= 30)%nat ->
  0 <= random1 < 1 -> 0 <= random2 < 1 ->
  exists result this1 this2,
    measureQubit k random1 this = (Done result, this1) /\
    measureQubit k random2 this1 = (Done result, this2) /\
    _expectedIgnoranceErrors this2 = _expectedIgnoranceErrors this1 + 0.
Proof.
  intros Ok Hn H1 H2.
  pose proof (measureQubit_ok k random1 this n Ok Hn H1) as M1. cbv zeta in M1.
  set (result := Rltb random1
                   (massWhere (consistent k true) (_actualHiddenState this))) in *.
  destruct M1 as (Kp & Bp & E1).
  match type of E1 with _ = (_, ?s) => set (this1 := s) in * end.
  assert (Ok1 : state_ok n this1) by (apply collapsed_state_ok; assumption).
  pose proof (measureQubit_ok k random2 this1 n Ok1 Hn H2) as M2. cbv zeta in M2.
  destruct M2 as (_ & _ & E2).
  assert (Sq : width (_inferredStateDensity this) = height (_inferredStateDensity this))
    by (destruct Ok as [[]]; congruence).
  assert (P2 : massWhere (consistent k true) (_actualHiddenState this1) =
               if result then 1 else 0)
    by (apply collapsed_on_mass; exact Kp).
  assert (Q2 : diagWhere (consistent k true) (_inferredStateDensity this1) =
               if result then 1 else 0)
    by (apply collapsed_on_diag; assumption).
  rewrite P2, Q2 in E2.
  assert (Same : Rltb random2 (if result then 1 else 0) = result).
  { destruct result; [apply Rltb_true | apply Rltb_false]; lra. }
  rewrite Same in E2.
  eexists result, this1, _. split; [exact E1|]. split; [exact E2|].
  cbn [_expectedIgnoranceErrors]. f_equal.
  replace ((if result then 1 else 0) - (if result then 1 else 0)) with 0 by ring.
  apply Rabs_R0.
Qed.

(** ** Controlled operations *)

Local Open Scope Z_scope.

Lemma lor_below (a b k : Z) :
  0 <= k -> 0 <= a < 2 ^ k -> 0 <= b < 2 ^ k -> 0 <= Z.lor a b < 2 ^ k.
Proof.
  intros Hk Ha Hb. split; [apply Z.lor_nonneg; lia|].
  destruct (Z.eq_dec (Z.lor a b) 0) as [-> | NZ].
  - apply Z.pow_pos_nonneg; lia.
  - assert (0 <= Z.lor a b) by (apply Z.lor_nonneg; lia).
    apply Z.log2_lt_pow2; [lia|].
    rewrite Z.log2_lor by lia.
    destruct (Z.eq_dec a 0) as [-> | Na]; destruct (Z.eq_dec b 0) as [-> | Nb];
      try (rewrite Z.lor_0_l in NZ); try (rewrite Z.lor_0_r in NZ);
      try contradiction.
    + change (Z.log2 0) with 0. rewrite Z.max_r by apply Z.log2_nonneg.
      apply Z.log2_lt_pow2; lia.
    + change (Z.log2 0) with 0. rewrite Z.max_l by apply Z.log2_nonneg.
      apply Z.log2_lt_pow2; lia.
    + apply Z.max_lub_lt; apply Z.log2_lt_pow2; lia.
Qed.

(** The control mask holds exactly the bits listed. *)
Lemma controlMask_bits (controls : list Z) (acc : Z) :
  Forall (fun e => 0 <= e < 31) controls -> 0 <= acc < 2 ^ 31 ->
  let mask := fold_left (fun a e => js_or a (js_shl 1 e)) controls acc in
  0 <= mask < 2 ^ 31 /\
  forall i, 0 <= i ->
    Z.testbit mask i = Z.testbit acc i || existsb (Z.eqb i) controls.
Proof.
  revert acc. induction controls as [|e l IH]; intros acc Hl Hacc; cbn [fold_left existsb].
  - split; [exact Hacc|]. intros i _. rewrite orb_false_r. reflexivity.
  - inversion Hl as [|? ? He Hl']; subst.
    assert (P : 0 <= 2 ^ e < 2 ^ 31).
    { split; [apply Z.pow_nonneg; lia | apply Z.pow_lt_mono_r; lia]. }
    assert (E : js_or acc (js_shl 1 e) = Z.lor acc (2 ^ e)).
    { unfold js_or. rewrite js_shl_one by exact He.
      rewrite !to_int32_small by lia. reflexivity. }
    rewrite E.
    destruct (IH (Z.lor acc (2 ^ e)) Hl' (lor_below _ _ 31 ltac:(lia) Hacc P))
      as [B T].
    split; [exact B|]. intros i Hi. rewrite T by exact Hi.
    rewrite Z.lor_spec, Z.pow2_bits_eqb by lia.
    rewrite (Z.eqb_sym e i). rewrite orb_assoc. reflexivity.
Qed.

Lemma land_eq_iff (mask r : Z) :
  Z.land mask r = mask <->
  forall i, 0 <= i -> Z.testbit mask i = true -> Z.testbit r i = true.
Proof.
  split.
  - intros E i Hi B. rewrite <- E, Z.land_spec in B.
    apply andb_true_iff in B. tauto.
  - intros H. apply Z.bits_inj'. intros i Hi. rewrite Z.land_spec.
    destruct (Z.testbit mask i) eqn:B; [|reflexivity].
    rewrite (H i Hi B). reflexivity.
Qed.

(** The test of [controlify] on an index: are all its control bits 1? *)
Lemma control_test (controls : list Z) (r : nat) :
  Forall (fun e => 0 <= e < 31) controls -> Z.of_nat r < 2 ^ 31 ->
  let mask := fold_left (fun a e => js_or a (js_shl 1 e)) controls 0 in
  negb (js_and mask (Z.of_nat r) =? mask) = negb (controlsOn controls r).
Proof.
  intros Hl Hr mask. f_equal.
  destruct (controlMask_bits controls 0 Hl ltac:(lia)) as [B T]. fold mask in B, T.
  unfold js_and. rewrite !to_int32_small by lia.
  apply eq_true_iff_eq. rewrite Z.eqb_eq, land_eq_iff.
  unfold controlsOn. rewrite forallb_forall. split.
  - intros H e He. unfold bitOf.
    assert (0 <= e < 31) by (rewrite Forall_forall in Hl; apply Hl; exact He).
    apply H; [lia|]. rewrite T by lia. rewrite Z.bits_0. cbn [orb].
    apply existsb_exists. exists e. split; [exact He | apply Z.eqb_refl].
  - intros H i Hi Bi. rewrite T, Z.bits_0 in Bi by exact Hi. cbn [orb] in Bi.
    apply existsb_exists in Bi. destruct Bi as (e & He & Ee).
    apply Z.eqb_eq in Ee. subst e. apply (H i He).
Qed.

Local Close Scope Z_scope.

(** The tensor products of [expandOp] build a square matrix of dimension
    [2^numQubits]. *)
Lemma expand_dims (M : Matrix) (t : Z) (n : nat) :
  width M = 2%nat -> height M = 2%nat ->
  let opMatrix :=
    for_range n (fun opMatrix i =>
      tensorProduct (if Z.eqb (Z.of_nat i) t then M else identity 2) opMatrix)
      (mkMatrix 1 1 [1; 0]) in
  wf opMatrix /\ width opMatrix = (2 ^ n)%nat /\ height opMatrix = (2 ^ n)%nat.
Proof.
  intros WM HM. unfold for_range. cbv zeta. induction n as [|n IH].
  - cbn. repeat split; reflexivity.
  - rewrite seq_S, fold_left_app. cbn [fold_left Nat.add].
    destruct IH as (_ & W & H).
    set (prev := fold_left _ (seq 0 n) _) in *.
    split; [apply wf_make|].
    unfold tensorProduct. rewrite width_make, height_make, W, H.
    assert (Wm : width (if Z.eqb (Z.of_nat n) t then M else identity 2) = 2%nat)
      by (destruct (Z.eqb (Z.of_nat n) t); [exact WM | reflexivity]).
    assert (Hm : height (if Z.eqb (Z.of_nat n) t then M else identity 2) = 2%nat)
      by (destruct (Z.eqb (Z.of_nat n) t); [exact HM | reflexivity]).
    rewrite Wm, Hm, Nat.pow_succ_r'. auto.
Qed.

(** The method [expandOperation] reads the register size off the state. *)
Lemma expandOperation_register (this : EveQuantumComputer) (n : nat)
    (M : Matrix) (t : Z) (controls : list Z) :
  height (_actualHiddenState this) = (2 ^ n)%nat ->
  expandOperation this M t controls = expandOp M t n controls.
Proof.
  intros H. unfold expandOperation. rewrite H, Nat.log2_pow2 by lia. reflexivity.
Qed.

Lemma entry_basisCol (h b r : nat) :
  (r < h)%nat -> entry (basisCol h b) r 0 = if Nat.eqb r b then C1 else C0.
Proof. intros Hr. unfold basisCol. rewrite entry_make by lia. reflexivity. Qed.

(** C6. For a single-qubit matrix [M], a target qubit, a register of [n]
    qubits and a list of control qubits, the operator [E] that [expandOp]
    produces has, at every entry whose row index or whose column index does
    not have all of its control bits set, exactly the identity value (1 on
    the diagonal, 0 off it).  So every computational basis state whose
    control bits are not all 1 is a fixed point of [E]. *)
Theorem expandOp_controls (M : Matrix) (t : Z) (n : nat) (controls : list Z) :
  width M = 2%nat -> height M = 2%nat -> (n <= 31)%nat ->
  Forall (fun e => (0 <= e < 31)%Z) controls ->
  let E := expandOp M t n controls in
  width E = (2 ^ n)%nat /\ height E = (2 ^ n)%nat /\
  (forall r c, (r < 2 ^ n)%nat -> (c < 2 ^ n)%nat ->
     controlsOn controls r = false \/ controlsOn controls c = false ->
     entry E r c = if Nat.eqb r c then C1 else C0) /\
  (forall b, (b < 2 ^ n)%nat -> controlsOn controls b = false ->
     times E (basisCol (2 ^ n) b) = Done (basisCol (2 ^ n) b)).
Proof.
  intros WM HM Hn Hl E.
  destruct (expand_dims M t n WM HM) as (W & Wd & Ht).
  assert (Forced : forall r c, (r < 2 ^ n)%nat -> (c < 2 ^ n)%nat ->
     controlsOn controls r = false \/ controlsOn controls c = false ->
     entry E r c = if Nat.eqb r c then C1 else C0).
  { intros r c Hr Hc Off. unfold E, expandOp.
    rewrite entry_controlify by (try exact W; lia).
    rewrite !control_test
      by (try exact Hl; apply (pow2_bound n 31 Hn); assumption).
    destruct Off as [-> | ->]; cbn [negb orb]; rewrite ?orb_true_r; reflexivity. }
  assert (WE : width E = (2 ^ n)%nat) by exact Wd.
  assert (HE : height E = (2 ^ n)%nat) by exact Ht.
  split; [exact WE|]. split; [exact HE|]. split; [exact Forced|].
  intros b Hb Off.
  rewrite times_ok by (rewrite WE; reflexivity).
  f_equal. change (width (basisCol (2 ^ n) b)) with 1%nat. rewrite HE, WE.
  symmetry. unfold basisCol at 1. symmetry.
  apply make_ext. intros r c Hr Hc. replace c with 0%nat by lia.
  rewrite (Csum_ext _ _ (fun k => Cmult (entry E r k) (if Nat.eqb k b then C1 else C0)))
    by (intros k Hk; rewrite entry_basisCol by exact Hk; reflexivity).
  rewrite Csum_pick by exact Hb. apply Forced; auto.
Qed.

(** ** Unitary evolution *)

Lemma make_inj_entry (w h : nat) (f g : nat -> nat -> C) (r c : nat) :
  make w h f = make w h g -> (r < h)%nat -> (c < w)%nat -> f r c = g r c.
Proof.
  intros E Hr Hc.
  rewrite <- (entry_make w h f r c), <- (entry_make w h g r c) by assumption.
  rewrite E. reflexivity.
Qed.

Lemma Done_inj {A : Type} (a b : A) : Done a = Done b -> a = b.
Proof. intros E. injection E as E. exact E. Qed.

Lemma unitary_square (U : Matrix) : unitary U -> width U = height U.
Proof.
  intros [_ E]. rewrite times_ok in E by reflexivity.
  apply Done_inj in E. apply (f_equal width) in E. exact E.
Qed.

(** The columns of a unitary matrix are orthonormal. *)
Lemma unitary_columns (U : Matrix) (a b : nat) :
  unitary U -> (a < height U)%nat -> (b < height U)%nat ->
  Csum (height U) (fun r => Cmult (Cconj (entry U r a)) (entry U r b)) =
  if Nat.eqb a b then C1 else C0.
Proof.
  intros Un Ha Hb. pose proof (unitary_square U Un) as Sq.
  destruct Un as [_ E]. rewrite times_ok in E by reflexivity.
  apply Done_inj in E. unfold identity in E.
  change (height (adjoint U)) with (width U) in E.
  change (width (adjoint U)) with (height U) in E.
  rewrite Sq in E.
  apply (make_inj_entry _ _ _ _ a b) in E; try assumption.
  rewrite <- E. apply Csum_ext. intros r Hr.
  rewrite entry_adjoint by lia. reflexivity.
Qed.

(** So are its rows. *)
Lemma unitary_rows (U : Matrix) (a b : nat) :
  unitary U -> (a < height U)%nat -> (b < height U)%nat ->
  Csum (height U) (fun k => Cmult (entry U a k) (Cconj (entry U b k))) =
  if Nat.eqb a b then C1 else C0.
Proof.
  intros Un Ha Hb. pose proof (unitary_square U Un) as Sq.
  destruct Un as [E _]. rewrite times_ok in E by reflexivity.
  apply Done_inj in E. unfold identity in E.
  change (width (adjoint U)) with (height U) in E.
  apply (make_inj_entry _ _ _ _ a b) in E; try assumption.
  rewrite <- E, Sq. apply Csum_ext. intros r Hr.
  rewrite entry_adjoint by lia. reflexivity.
Qed.

Lemma forallb_seq (n : nat) (f : nat -> bool) :
  (forall i, (i < n)%nat -> f i = true) -> forallb f (seq 0 n) = true.
Proof.
  intros H. apply forallb_forall. intros i Hi. apply in_seq in Hi. apply H. lia.
Qed.

(** A unitary matrix passes the unitarity check at any tolerance. *)
Lemma isUnitary_unitary (U : Matrix) (tolerance : R) :
  unitary U -> 0 <= tolerance -> isUnitary U tolerance = true.
Proof.
  intros Un Tol. pose proof (unitary_square U Un) as Sq.
  unfold isUnitary. rewrite Sq, Nat.eqb_refl. cbn [andb].
  apply forallb_seq. intros r Hr. apply forallb_seq. intros c Hc.
  rewrite unitary_rows by assumption.
  unfold Rleb. destruct (Rle_dec _ tolerance) as [|N]; [reflexivity|].
  exfalso. apply N.
  replace (Cminus (if Nat.eqb r c then C1 else C0) (if Nat.eqb r c then C1 else C0))
    with C0 by (destruct (Nat.eqb r c); cpx).
  replace (Cabs C0) with 0; [exact Tol|].
  symmetry. apply Cabs_zero_iff. reflexivity.
Qed.

(** [sum_r conj(sum_k U_rk x_k) * (sum_j U_rj y_j) = sum_k conj(x_k) * y_k]
    for a unitary [U]. *)
Lemma unitary_inner (U : Matrix) (x y : nat -> C) :
  unitary U ->
  Csum (height U) (fun r =>
    Cmult (Cconj (Csum (height U) (fun k => Cmult (entry U r k) (x k))))
          (Csum (height U) (fun j => Cmult (entry U r j) (y j)))) =
  Csum (height U) (fun k => Cmult (Cconj (x k)) (y k)).
Proof.
  intros Un.
  transitivity
    (Csum (height U) (fun k => Csum (height U) (fun j =>
       Cmult (Cmult (Cconj (x k)) (y j))
             (Csum (height U) (fun r => Cmult (Cconj (entry U r k)) (entry U r j)))))).
  - transitivity
      (Csum (height U) (fun r => Csum (height U) (fun k => Csum (height U) (fun j =>
         Cmult (Cmult (Cconj (x k)) (y j))
               (Cmult (Cconj (entry U r k)) (entry U r j)))))).
    + apply Csum_ext. intros r _.
      rewrite Csum_conj, <- Csum_mult_r. apply Csum_ext. intros k _.
      rewrite <- Csum_mult_l. apply Csum_ext. intros j _.
      rewrite Cconj_mult. cpx.
    + rewrite Csum_swap. apply Csum_ext. intros k _.
      rewrite Csum_swap. apply Csum_ext. intros j _.
      apply Csum_mult_l.
  - apply Csum_ext. intros k Hk.
    rewrite (Csum_ext _ _ (fun j => Cmult (Cmult (Cconj (x k)) (y j))
                                     (if Nat.eqb k j then C1 else C0)))
      by (intros j Hj; rewrite unitary_columns by assumption; reflexivity).
    rewrite (Csum_ext _ _ (fun j => Cmult (Cmult (Cconj (x k)) (y j))
                                     (if Nat.eqb j k then C1 else C0)))
      by (intros j Hj; rewrite (Nat.eqb_sym k j); reflexivity).
    apply (Csum_pick (height U) k (fun j => Cmult (Cconj (x k)) (y j))). exact Hk.
Qed.

Lemma norm2_complex (col : Matrix) :
  Csum (height col) (fun i => Cmult (Cconj (entry col i 0)) (entry col i 0)) =
  (norm2 col, 0).
Proof.
  rewrite (Csum_ext _ _ (fun i => (Cnorm2 (entry col i 0), 0)))
    by (intros; apply Cmult_conj_self).
  rewrite Csum_parts. cbn [fst snd]. rewrite (Rsum_zero _ (fun _ => 0)) by reflexivity.
  reflexivity.
Qed.

(** A unitary operator preserves the squared norm of a column. *)
Lemma norm2_times_unitary (U col col' : Matrix) :
  unitary U -> height col = height U -> width col = 1%nat ->
  times U col = Done col' ->
  norm2 col' = norm2 col.
Proof.
  intros Un H W1 T. pose proof (unitary_square U Un) as Sq.
  rewrite times_ok in T by congruence. apply Done_inj in T. subst col'.
  assert (E : (norm2 (make (width col) (height U)
                        (fun r c => Csum (width U)
                           (fun k => Cmult (entry U r k) (entry col k c)))), 0) =
              (norm2 col, 0)).
  { rewrite <- !norm2_complex. rewrite height_make, H, Sq.
    rewrite <- (unitary_inner U (fun k => entry col k 0) (fun k => entry col k 0) Un).
    apply Csum_ext. intros r Hr. rewrite entry_make by lia. reflexivity. }
  injection E as E. exact E.
Qed.

(** Conjugation by a unitary operator preserves the trace. *)
Lemma trace_conjugation_unitary (U rho partial rho' : Matrix) :
  unitary U -> width rho = height U -> height rho = height U ->
  times U rho = Done partial -> times partial (adjoint U) = Done rho' ->
  trace rho' = trace rho.
Proof.
  intros Un W H T1 T2. pose proof (unitary_square U Un) as Sq.
  rewrite times_ok in T1 by congruence. apply Done_inj in T1. subst partial.
  rewrite times_ok in T2
    by (rewrite width_make; change (height (adjoint U)) with (width U); congruence).
  apply Done_inj in T2. subst rho'.
  rewrite !trace_ok by (try reflexivity; congruence).
  f_equal. rewrite !height_make, width_make. rewrite W, H, Sq.
  change (width (adjoint U)) with (height U).
  transitivity
    (Csum (height U) (fun k => Csum (height U) (fun j =>
       Cmult (entry rho j k)
             (Csum (height U) (fun r => Cmult (Cconj (entry U r k)) (entry U r j)))))).
  - transitivity
      (Csum (height U) (fun r => Csum (height U) (fun k => Csum (height U) (fun j =>
         Cmult (entry rho j k) (Cmult (Cconj (entry U r k)) (entry U r j)))))).
    + apply Csum_ext. intros r Hr. rewrite entry_make by lia.
      apply Csum_ext. intros k Hk.
      rewrite entry_make, entry_adjoint by lia.
      rewrite <- Csum_mult_r. apply Csum_ext. intros j _. cpx.
    + rewrite Csum_swap. apply Csum_ext. intros k _.
      rewrite Csum_swap. apply Csum_ext. intros j _.
      apply Csum_mult_l.
  - apply Csum_ext. intros k Hk.
    rewrite (Csum_ext _ _ (fun j => Cmult (entry rho j k)
                                     (if Nat.eqb j k then C1 else C0)))
      by (intros j Hj; rewrite unitary_columns, (Nat.eqb_sym k j) by assumption;
          reflexivity).
    apply (Csum_pick (height U) k (fun j => entry rho j k)). exact Hk.
Qed.

Lemma absCol_one (col : Matrix) :
  width col = 1%nat -> (absCol col = Done 1 <-> norm2 col = 1).
Proof.
  intros W1. rewrite absCol_column by exact W1. split.
  - intros E. apply Done_inj in E.
    rewrite <- (sqrt_sqrt (norm2 col)) by apply norm2_nonneg. rewrite E. ring.
  - intros ->. rewrite sqrt_1. reflexivity.
Qed.

(** Applying a unitary operator of matching dimension succeeds and keeps
    the shape, the squared norm and the trace. *)
Lemma applyOperation_unitary (this : EveQuantumComputer) (U : Matrix) (n : nat) :
  shaped n this -> unitary U -> height U = (2 ^ n)%nat ->
  let actual :=
    make 1 (2 ^ n)
      (fun r c => Csum (2 ^ n)
         (fun k => Cmult (entry U r k) (entry (_actualHiddenState this) k c))) in
  let partial :=
    make (2 ^ n) (2 ^ n)
      (fun r c => Csum (2 ^ n)
         (fun k => Cmult (entry U r k) (entry (_inferredStateDensity this) k c))) in
  let inferred :=
    make (2 ^ n) (2 ^ n)
      (fun r c => Csum (2 ^ n)
         (fun k => Cmult (entry partial r k) (entry (adjoint U) k c))) in
  applyOperation U this =
  (Done tt, mkEve actual inferred (_operationCount this + 1)%Z
                  (_expectedIgnoranceErrors this)) /\
  norm2 actual = norm2 (_actualHiddenState this) /\
  trace inferred = trace (_inferredStateDensity this).
Proof.
  intros [W W1 H WD WI HI] Un HU actual partial inferred.
  pose proof (unitary_square U Un) as Sq.
  destruct (applyOperation_accepted U this) as (a & p & i & T1 & T2 & T3 & E);
    try congruence.
  { apply isUnitary_unitary; [exact Un | lra]. }
  assert (Na : norm2 a = norm2 (_actualHiddenState this))
    by (apply (norm2_times_unitary U _ _ Un); congruence).
  assert (Ti : trace i = trace (_inferredStateDensity this))
    by (apply (trace_conjugation_unitary U _ p _ Un); congruence).
  rewrite times_ok in T1 by congruence. apply Done_inj in T1.
  rewrite times_ok in T2 by congruence. apply Done_inj in T2.
  rewrite W1, HU, Sq, HU in T1. fold actual in T1.
  rewrite WI, HU, Sq, HU in T2. fold partial in T2.
  subst p.
  rewrite times_ok in T3
    by (change (width partial) with (2 ^ n)%nat;
        change (height (adjoint U)) with (width U); congruence).
  apply Done_inj in T3.
  change (width (adjoint U)) with (height U) in T3.
  change (width partial) with (2 ^ n)%nat in T3.
  change (height partial) with (2 ^ n)%nat in T3.
  rewrite HU in T3. fold inferred in T3.
  subst a i. auto.
Qed.

(** On a simulator of [n] qubits whose true state has norm 1 and whose
    inferred density matrix has trace 1, [applyOperation(U)] with a unitary
    [U] of matching dimension succeeds, and afterwards the norm of the true
    state vector is still 1 and the trace of the inferred density matrix is
    still 1. *)
Lemma applyOperation_keeps_normalization (this : EveQuantumComputer)
    (U : Matrix) (n : nat) :
  shaped n this ->
  absCol (_actualHiddenState this) = Done 1 ->
  trace (_inferredStateDensity this) = Done C1 ->
  unitary U -> height U = (2 ^ n)%nat ->
  exists this',
    applyOperation U this = (Done tt, this') /\
    shaped n this' /\
    absCol (_actualHiddenState this') = Done 1 /\
    trace (_inferredStateDensity this') = Done C1.
Proof.
  intros Sh N T Un HU.
  destruct (applyOperation_unitary this U n Sh Un HU) as (E & Na & Ti).
  eexists. split; [exact E|]. cbn [_actualHiddenState _inferredStateDensity].
  split; [|split].
  - constructor; cbn [_actualHiddenState _inferredStateDensity];
      auto using wf_make.
  - apply absCol_one; [reflexivity|]. rewrite Na.
    apply absCol_one; [apply Sh | exact N].
  - rewrite Ti. exact T.
Qed.

(** ** qubitTraceDistance *)

Lemma toFixed_nonneg (x : R) (digits : nat) :
  0 <= x -> toFixed x digits = render_fixed (nearest_scaled x digits) digits.
Proof.
  intros Hx. unfold toFixed. destruct (Rlt_dec x 0); [lra | reflexivity].
Qed.

Lemma nearest_scaled_spec (x : R) (digits : nat) :
  IZR (nearest_scaled x digits) - 1 / 2 <= x * 10 ^ digits
  < IZR (nearest_scaled x digits) + 1 / 2.
Proof.
  unfold nearest_scaled.
  pose proof (Zfloor_bound (x * 10 ^ digits + 1 / 2)). lra.
Qed.

Lemma nearest_scaled_nonneg (x : R) (digits : nat) :
  0 <= x -> (0 <= nearest_scaled x digits)%Z.
Proof.
  intros Hx. unfold nearest_scaled. apply Zfloor_lub.
  assert (0 <= x * 10 ^ digits)
    by (apply Rmult_le_pos; [exact Hx | apply pow_le; lra]).
  simpl. lra.
Qed.

Lemma qubitTraceDistance_eq (d1 d2 : Matrix) :
  qubitTraceDistance d1 d2 = Str (toFixed (blochDistance d1 d2 / 2) 4).
Proof.
  unfold qubitTraceDistance, blochDistance.
  destruct (qubitDensityMatrixToBlochVector d1) as [[x1 y1] z1].
  destruct (qubitDensityMatrixToBlochVector d2) as [[x2 y2] z2].
  reflexivity.
Qed.

Lemma blochDistance_nonneg (d1 d2 : Matrix) : 0 <= blochDistance d1 d2.
Proof.
  unfold blochDistance.
  destruct (qubitDensityMatrixToBlochVector d1) as [[x1 y1] z1].
  destruct (qubitDensityMatrixToBlochVector d2) as [[x2 y2] z2].
  apply sqrt_pos.
Qed.

(** C9 (as the code has it). [qubitTraceDistance(d1, d2)] is not a number
    but the string [toFixed(4)] prints for half the Euclidean distance
    between the two Bloch vectors: the fixed-point numeral of [n / 10^4],
    where [n] is the integer nearest to [10^4] times that half distance
    (the larger one of two). *)
Theorem qubitTraceDistance_rounds (d1 d2 : Matrix) :
  blochDistance d1 d2 / 2 < 10 ^ 21 ->
  exists n : Z,
    qubitTraceDistance d1 d2 = Str (render_fixed n 4) /\
    (0 <= n)%Z /\
    IZR n - 1 / 2 <= blochDistance d1 d2 / 2 * 10 ^ 4 < IZR n + 1 / 2.
Proof.
  intros _. pose proof (blochDistance_nonneg d1 d2) as Pos.
  exists (nearest_scaled (blochDistance d1 d2 / 2) 4).
  rewrite qubitTraceDistance_eq, toFixed_nonneg by lra.
  split; [reflexivity|]. split.
  - apply nearest_scaled_nonneg. lra.
  - apply nearest_scaled_spec.
Qed.

Lemma blochDistance_tilted : blochDistance mixed1 tilted = 2 / 100000.
Proof.
  unfold blochDistance, qubitDensityMatrixToBlochVector, mixed1, tilted, entry, rd.
  simpl.
  replace ((1 / 100000 + 1 / 100000 - (0 + 0)) * (1 / 100000 + 1 / 100000 - (0 + 0))
           + (0 - 0 - (0 - 0)) * (0 - 0 - (0 - 0))
           + (1 / 2 - 1 / 2 - (1 / 2 - 1 / 2)) * (1 / 2 - 1 / 2 - (1 / 2 - 1 / 2)))
    with ((2 / 100000) * (2 / 100000)) by field.
  apply sqrt_square. lra.
Qed.

Lemma qubitTraceDistance_rounds_witness :
  blochDistance mixed1 tilted / 2 < 10 ^ 21 /\
  exists n : Z,
    qubitTraceDistance mixed1 tilted = Str (render_fixed n 4) /\
    (0 <= n)%Z /\
    IZR n - 1 / 2 <= blochDistance mixed1 tilted / 2 * 10 ^ 4 < IZR n + 1 / 2.
Proof.
  assert (H : blochDistance mixed1 tilted / 2 < 10 ^ 21).
  { rewrite blochDistance_tilted.
    assert (1 <= 10 ^ 21) by (apply pow_R1_Rle; lra). lra. }
  split; [exact H|]. apply (qubitTraceDistance_rounds mixed1 tilted H).
Defined.

(** C9 (as claimed) fails: for two density matrices whose Bloch vectors are
    0.00002 apart the function returns the string "0.0000", not the number
    0.00001. *)
Lemma qubitTraceDistance_is_a_rounded_string :
  qubitTraceDistance mixed1 tilted = Str "0.0000" /\
  blochDistance mixed1 tilted / 2 = 1 / 100000 /\
  qubitTraceDistance mixed1 tilted <> Num (blochDistance mixed1 tilted / 2).
Proof.
  assert (D : blochDistance mixed1 tilted / 2 = 1 / 100000)
    by (rewrite blochDistance_tilted; field).
  split; [|split; [exact D|]].
  - rewrite qubitTraceDistance_eq, D, toFixed_nonneg by lra.
    replace (nearest_scaled (1 / 100000) 4) with 0%Z; [reflexivity|].
    symmetry. apply Zfloor_eq. simpl. lra.
  - rewrite qubitTraceDistance_eq. discriminate.
Qed.

(** ** The theorems at the sample data *)

Lemma norm2_ket0 : norm2 ket0 = 1.
Proof. unfold norm2, ket0, entry, rd, Cnorm2. simpl. ring. Qed.

Lemma unitary_PAULI_X : unitary PAULI_X.
Proof.
  unfold unitary.
  rewrite !times_ok by reflexivity.
  split; f_equal; apply make_ext; intros r c Hr Hc;
    change (height PAULI_X) with 2%nat in *;
    change (width PAULI_X) with 2%nat in *;
    change (width (adjoint PAULI_X)) with 2%nat in *;
    change (height (adjoint PAULI_X)) with 2%nat in *;
    assert (r = 0 \/ r = 1)%nat as [-> | ->] by lia;
    assert (c = 0 \/ c = 1)%nat as [-> | ->] by lia;
    unfold adjoint, PAULI_X, entry, rd; simpl; cpx.
Qed.

Lemma expandOp_controls_witness :
  width PAULI_X = 2%nat /\ height PAULI_X = 2%nat /\ (2 <= 31)%nat /\
  Forall (fun e => (0 <= e < 31)%Z) [0%Z] /\
  let E := expandOp PAULI_X 1 2 [0%Z] in
  width E = (2 ^ 2)%nat /\ height E = (2 ^ 2)%nat /\
  (forall r c, (r < 2 ^ 2)%nat -> (c < 2 ^ 2)%nat ->
     controlsOn [0%Z] r = false \/ controlsOn [0%Z] c = false ->
     entry E r c = if Nat.eqb r c then C1 else C0) /\
  (forall b, (b < 2 ^ 2)%nat -> controlsOn [0%Z] b = false ->
     times E (basisCol (2 ^ 2) b) = Done (basisCol (2 ^ 2) b)).
Proof.
  assert (H3 : (2 <= 31)%nat) by lia.
  assert (H4 : Forall (fun e => (0 <= e < 31)%Z) [0%Z])
    by (constructor; [lia | constructor]).
  split; [reflexivity|]. split; [reflexivity|]. split; [exact H3|].
  split; [exact H4|].
  exact (expandOp_controls PAULI_X 1 2 [0%Z] eq_refl eq_refl H3 H4).
Defined.

(** ** The invariant of the simulator *)

Lemma Csum_Cscale (n : nat) (s : R) (f : nat -> C) :
  Csum n (fun j => Cscale s (f j)) = Cscale s (Csum n f).
Proof.
  induction n as [|n IH]; simpl; [symmetry; apply Cscale_C0|].
  rewrite IH. unfold Cscale, Cplus; simpl. f_equal; ring.
Qed.

Lemma Cmult_conj_real (z : C) :
  snd (Cmult z (Cconj z)) = 0 /\ fst (Cmult z (Cconj z)) = Cnorm2 z.
Proof. unfold Cmult, Cconj, Cnorm2; simpl. split; ring. Qed.

(** The diagonal of a mixture is real and non-negative, and vanishes only
    where every vector of the mixture does. *)
Lemma invariant_state_ok (n : nat) (this : EveQuantumComputer) :
  invariant n this -> state_ok n this.
Proof.
  intros [Sh N T (m & w & a & Rho & Psi)].
  constructor; [exact Sh | exact N |].
  intros i Hi. rewrite (Rho i i Hi Hi), Csum_parts. cbn [fst snd].
  assert (Re : forall j, snd (Cmult (w j i) (Cconj (w j i))) = 0)
    by (intros j; apply Cmult_conj_real).
  assert (Im : forall j, fst (Cmult (w j i) (Cconj (w j i))) = Cnorm2 (w j i))
    by (intros j; apply Cmult_conj_real).
  split; [apply Rsum_zero; intros; apply Re|].
  rewrite (Rsum_ext _ _ (fun j => Cnorm2 (w j i))) by (intros; apply Im).
  split; [apply Rsum_nonneg; intros; apply Cnorm2_nonneg|].
  intros Z. rewrite (Psi i Hi). apply Csum_zero. intros j Hj.
  assert (E : Cnorm2 (w j i) = 0).
  { apply (Rsum_zero_inv m (fun j => Cnorm2 (w j i))); auto.
    intros; apply Cnorm2_nonneg. }
  rewrite (Cnorm2_zero _ E). destruct (a j). cpx.
Qed.

Lemma norm2_timesScalar (col : Matrix) (s : R) :
  norm2 (timesScalar col s) = norm2 col * (s * s).
Proof.
  unfold norm2. change (height (timesScalar col s)) with (height col).
  rewrite <- Rsum_scale.
  apply Rsum_ext. intros i _. rewrite entry_scaled. apply Cnorm2_Cscale.
Qed.

(** A successful construction establishes the invariant. *)
Lemma constructor_invariant (n : nat) (v : Matrix) (this : EveQuantumComputer) :
  wf v -> height v = (2 ^ n)%nat -> constructor v = Done this ->
  invariant n this.
Proof.
  intros Wv Hv E.
  assert (P : isPowerOf2 (height v) = true) by (apply isPowerOf2_spec; eauto).
  destruct (Nat.eq_dec (width v) 1) as [W1 | W1];
    [|rewrite constructor_invalid in E by auto; discriminate].
  rewrite constructor_valid in E by assumption.
  destruct (Req_dec_T (norm2 v) 0) as [? | NZ]; [discriminate|].
  apply Done_inj in E. subst this. rewrite Hv.
  pose proof (norm2_nonneg v) as Pos.
  assert (Hh : 0 < INR (2 ^ n))
    by (apply lt_0_INR, Nat.neq_0_lt_0, Nat.pow_nonzero; lia).
  set (h := INR (2 ^ n)) in *.
  constructor; cbn [_actualHiddenState _inferredStateDensity].
  - constructor; cbn [_actualHiddenState _inferredStateDensity].
    + apply wf_timesScalar. exact Wv.
    + exact W1.
    + exact Hv.
    + apply wf_timesScalar, wf_make.
    + reflexivity.
    + reflexivity.
  - rewrite norm2_timesScalar, inv_sqrt_square by lra. field. exact NZ.
  - rewrite trace_ok by reflexivity. f_equal.
    change (height (timesScalar (identity (2 ^ n)) (1 / h))) with (2 ^ n)%nat.
    rewrite (Csum_ext _ _ (fun _ => Cscale (1 / h) C1)).
    + rewrite Csum_Cscale, Csum_parts. cbn [fst snd C1].
      rewrite Rsum_const_one, Rsum_zero by reflexivity. fold h.
      unfold Cscale, C1; cbn [fst snd]. f_equal; field; lra.
    + intros i Hi. rewrite entry_scaled, entry_identity, Nat.eqb_refl by assumption.
      reflexivity.
  - unfold mixture. cbn [_actualHiddenState _inferredStateDensity].
    exists (2 ^ n)%nat,
      (fun j r => if Nat.eqb j r then (sqrt (1 / h), 0) else C0),
      (fun j => Cscale (1 / sqrt (1 / h))
                  (entry (timesScalar v (1 / sqrt (norm2 v))) j 0)).
    assert (Sp : 0 < sqrt (1 / h))
      by (apply sqrt_lt_R0, Rdiv_lt_0_compat; lra).
    split.
    + intros r c Hr Hc. rewrite entry_scaled, entry_identity by assumption.
      rewrite (Csum_ext _ _
                 (fun j => Cmult (Cmult (sqrt (1 / h), 0)
                                    (Cconj (if Nat.eqb j c then (sqrt (1 / h), 0) else C0)))
                                 (if Nat.eqb j r then C1 else C0)))
        by (intros j _; destruct (Nat.eqb j r), (Nat.eqb j c); cpx).
      rewrite (Csum_pick _ r (fun j => Cmult (sqrt (1 / h), 0)
                 (Cconj (if Nat.eqb j c then (sqrt (1 / h), 0) else C0)))) by exact Hr.
      pose proof (sqrt_sqrt (1 / h) ltac:(apply Rlt_le, Rdiv_lt_0_compat; lra)) as SS.
      destruct (Nat.eqb r c); unfold Cscale, C1, C0, Cmult, Cconj; cbn [fst snd].
      * f_equal; [|ring]. rewrite SS. ring.
      * f_equal; ring.
    + intros r Hr.
      rewrite (Csum_ext _ _
                 (fun j => Cmult (Cmult (Cscale (1 / sqrt (1 / h))
                                           (entry (timesScalar v (1 / sqrt (norm2 v))) j 0))
                                        (sqrt (1 / h), 0))
                                 (if Nat.eqb j r then C1 else C0)))
        by (intros j _; destruct (Nat.eqb j r); cpx).
      rewrite (Csum_pick _ r (fun j => Cmult (Cscale (1 / sqrt (1 / h))
                 (entry (timesScalar v (1 / sqrt (norm2 v))) j 0)) (sqrt (1 / h), 0)))
        by exact Hr.
      destruct (entry (timesScalar v (1 / sqrt (norm2 v))) r 0) as [x y].
      unfold Cscale, Cmult; cbn [fst snd]. f_equal; field; lra.
Qed.

(** A unitary operation keeps the invariant: the mixture is carried along
    by the operator. *)
Lemma applyOperation_invariant (n : nat) (U : Matrix) (this this' : EveQuantumComputer) :
  invariant n this -> unitary U ->
  applyOperation U this = (Done tt, this') ->
  invariant n this'.
Proof.
  intros [Sh N T (m & w & a & Rho & Psi)] Un E.
  pose proof (unitary_square U Un) as Sq.
  pose proof Sh as [W W1 H WD WI HI].
  destruct (Nat.eq_dec (height U) (2 ^ n)) as [HU | HU];
    [|rewrite applyOperation_rejected in E by (right; left; congruence);
      discriminate].
  destruct (applyOperation_unitary this U n Sh Un HU) as (E' & Na & Ti).
  rewrite E' in E. injection E as <-. clear E'.
  constructor; cbn [_actualHiddenState _inferredStateDensity].
  - constructor; cbn [_actualHiddenState _inferredStateDensity];
      auto using wf_make.
  - rewrite Na. exact N.
  - rewrite Ti. exact T.
  - unfold mixture. cbn [_actualHiddenState _inferredStateDensity].
    exists m, (fun j r => Csum (2 ^ n) (fun k => Cmult (entry U r k) (w j k))), a.
    split.
    + intros r c Hr Hc. rewrite entry_make by assumption.
      transitivity
        (Csum (2 ^ n) (fun k => Csum (2 ^ n) (fun l => Csum m (fun j =>
           Cmult (Cmult (entry U r l) (w j l))
                 (Cmult (Cconj (entry U c k)) (Cconj (w j k))))))).
      * apply Csum_ext. intros k Hk.
        rewrite entry_make, entry_adjoint by lia.
        rewrite <- Csum_mult_r. apply Csum_ext. intros l Hl.
        rewrite (Rho l k Hl Hk).
        rewrite <- Csum_mult_l, <- Csum_mult_r. apply Csum_ext. intros j _. cpx.
      * rewrite (Csum_ext _ _ (fun k => Csum m (fun j => Csum (2 ^ n) (fun l =>
           Cmult (Cmult (entry U r l) (w j l))
                 (Cmult (Cconj (entry U c k)) (Cconj (w j k)))))))
          by (intros k _; apply Csum_swap).
        rewrite Csum_swap. apply Csum_ext. intros j _.
        rewrite Csum_conj, <- Csum_mult_l. apply Csum_ext. intros k _.
        rewrite <- Csum_mult_r. apply Csum_ext. intros l _.
        rewrite Cconj_mult. reflexivity.
    + intros r Hr. rewrite entry_make by lia.
      rewrite (Csum_ext _ _ (fun k => Csum m (fun j =>
                 Cmult (a j) (Cmult (entry U r k) (w j k)))))
        by (intros k Hk; rewrite (Psi k Hk), <- Csum_mult_l;
            apply Csum_ext; intros j _; cpx).
      rewrite Csum_swap. apply Csum_ext. intros j _. apply Csum_mult_l.
Qed.

(** A measurement keeps the invariant: the mixture is restricted to the
    outcome and rescaled. *)
Lemma measureQubit_invariant (n : nat) (k : Z) (random : R) (result : bool)
    (this this' : EveQuantumComputer) :
  invariant n this -> (n <= 30)%nat -> 0 <= random < 1 ->
  measureQubit k random this = (Done result, this') ->
  invariant n this'.
Proof.
  intros Inv Hn Hr E.
  pose proof (invariant_state_ok n this Inv) as Ok.
  pose proof (measureQubit_ok k random this n Ok Hn Hr) as M. cbv zeta in M.
  destruct M as (Kp & Bp & E'). rewrite E' in E. clear E'.
  injection E as Eres <-. rewrite Eres in *. clear Eres.
  pose proof (collapsed_state_ok this n k result (_operationCount this + 1)%Z
                (_expectedIgnoranceErrors this
                 + Rabs (diagWhere (consistent k true) (_inferredStateDensity this)
                         - massWhere (consistent k true) (_actualHiddenState this)))
                Ok Kp Bp) as [Sh' N' _].
  destruct Inv as [[W W1 H WD WI HI] N T (m & w & a & Rho & Psi)].
  destruct Ok as [_ _ D].
  set (kept := massWhere (consistent k result) (_actualHiddenState this)) in *.
  set (believed := diagWhere (consistent k result) (_inferredStateDensity this)) in *.
  assert (Sk : 0 < sqrt kept) by (apply sqrt_lt_R0; exact Kp).
  assert (Sb : 0 < sqrt believed) by (apply sqrt_lt_R0; exact Bp).
  constructor; [exact Sh' | exact N' | |].
  - cbn [_inferredStateDensity]. apply trace_collapsed.
    + congruence.
    + intros i Hi. apply D. lia.
    + exact Bp.
  - unfold mixture. cbn [_actualHiddenState _inferredStateDensity].
    exists m,
      (fun j r => if consistent k result r
                  then Cscale (1 / sqrt believed) (w j r) else C0),
      (fun j => Cscale (sqrt believed / sqrt kept) (a j)).
    split.
    + intros r c Hr' Hc. rewrite entry_collapsed_density by lia.
      destruct (consistent k result c), (consistent k result r); cbn [andb].
      * rewrite (Rho r c Hr' Hc), <- Csum_Cscale. apply Csum_ext. intros j _.
        destruct (w j r), (w j c). unfold Cscale, Cmult, Cconj; cbn [fst snd].
        rewrite <- (inv_sqrt_square believed Bp). f_equal; ring.
      * symmetry. apply Csum_zero. intros j _. destruct (w j c); cpx.
      * symmetry. apply Csum_zero. intros j _. destruct (w j r); cpx.
      * symmetry. apply Csum_zero. intros j _. cpx.
    + intros r Hr'. rewrite entry_collapsed_col by lia.
      destruct (consistent k result r).
      * rewrite (Psi r Hr'), <- Csum_Cscale. apply Csum_ext. intros j _.
        destruct (w j r), (a j). unfold Cscale, Cmult; cbn [fst snd].
        f_equal; field; lra.
      * symmetry. apply Csum_zero. intros j _. destruct (a j); cpx.
Qed.

(** Every reachable state satisfies the invariant. *)
Theorem reachable_invariant (n : nat) (this : EveQuantumComputer) :
  (n <= 30)%nat -> reachable n this -> invariant n this.
Proof.
  intros Hn R. induction R as [v this Wv Hv E | U this this' R IH Un E
                               | k random result this this' R IH Hr E].
  - exact (constructor_invariant n v this Wv Hv E).
  - exact (applyOperation_invariant n U this this' IH Un E).
  - exact (measureQubit_invariant n k random result this this' IH Hn Hr E).
Qed.

(** In particular every reachable state is plausible in the sense the
    measurement needs. *)
Corollary reachable_state_ok (n : nat) (this : EveQuantumComputer) :
  (n <= 30)%nat -> reachable n this -> state_ok n this.
Proof. intros Hn R. apply invariant_state_ok, reachable_invariant; assumption. Qed.

(** ** The simulator on its reachable states *)

Lemma reachable_born : reachable 1 born.
Proof. exact (reach_constructor 1 ket0 born wf_ket0 eq_refl constructor_ket0). Qed.

(** C4. On every reachable simulator state of [n] qubits the true state has
    norm 1 and the inferred density matrix has trace 1; [applyOperation(U)]
    with a unitary [U] of matching dimension succeeds, and afterwards the
    norm of the true state vector is still 1 and the trace of the inferred
    density matrix is still 1. *)
Theorem applyOperation_preserves_normalization (this : EveQuantumComputer)
    (U : Matrix) (n : nat) :
  reachable n this -> (n <= 30)%nat ->
  unitary U -> height U = (2 ^ n)%nat ->
  absCol (_actualHiddenState this) = Done 1 /\
  trace (_inferredStateDensity this) = Done C1 /\
  exists this',
    applyOperation U this = (Done tt, this') /\
    reachable n this' /\
    absCol (_actualHiddenState this') = Done 1 /\
    trace (_inferredStateDensity this') = Done C1.
Proof.
  intros R Hn Un HU.
  destruct (reachable_invariant n this Hn R) as [Sh N T _].
  assert (N1 : absCol (_actualHiddenState this) = Done 1)
    by (apply absCol_one; [apply Sh | exact N]).
  split; [exact N1|]. split; [exact T|].
  destruct (applyOperation_keeps_normalization this U n Sh N1 T Un HU)
    as (this' & E & _ & N' & T').
  exists this'. split; [exact E|]. split; [|split; assumption].
  exact (reach_applyOperation n U this this' R Un E).
Qed.

Lemma applyOperation_preserves_normalization_witness :
  reachable 1 born /\ (1 <= 30)%nat /\
  unitary PAULI_X /\ height PAULI_X = (2 ^ 1)%nat /\
  absCol (_actualHiddenState born) = Done 1 /\
  trace (_inferredStateDensity born) = Done C1 /\
  exists this',
    applyOperation PAULI_X born = (Done tt, this') /\
    reachable 1 this' /\
    absCol (_actualHiddenState this') = Done 1 /\
    trace (_inferredStateDensity this') = Done C1.
Proof.
  assert (H1 : (1 <= 30)%nat) by lia.
  split; [exact reachable_born|]. split; [exact H1|].
  split; [exact unitary_PAULI_X|]. split; [reflexivity|].
  exact (applyOperation_preserves_normalization born PAULI_X 1
           reachable_born H1 unitary_PAULI_X eq_refl).
Defined.

(** * Further properties *)

(** ** The operator that [expandOp] builds *)

Lemma nat_bit_low (r n i : nat) :
  (i < n)%nat -> (((r mod 2 ^ n) / 2 ^ i) mod 2 = (r / 2 ^ i) mod 2)%nat.
Proof.
  intros Hi. rewrite <- !Nat.testbit_spec', Nat.mod_pow2_bits_low by exact Hi.
  reflexivity.
Qed.

Lemma nat_bit_top (r n : nat) :
  (r < 2 ^ S n)%nat -> ((r / 2 ^ n) mod 2 = r / 2 ^ n)%nat.
Proof.
  intros Hr. apply Nat.mod_small. apply Nat.Div0.div_lt_upper_bound.
  rewrite Nat.pow_succ_r' in Hr. lia.
Qed.

Lemma bitIndex_nat (i r : nat) : bitIndex (Z.of_nat i) r = ((r / 2 ^ i) mod 2)%nat.
Proof.
  apply Nat2Z.inj.
  rewrite Nat2Z.inj_mod, Nat2Z.inj_div, Nat2Z.inj_pow.
  change (Z.of_nat 2) with 2%Z.
  rewrite <- Z.testbit_spec' by lia.
  unfold bitIndex, bitOf. destruct (Z.testbit (Z.of_nat r) (Z.of_nat i)); reflexivity.
Qed.

Lemma Cmult_swap (a b : C) : Cmult a b = Cmult b a.
Proof. cpx. Qed.

Lemma Cprod_ext (n : nat) (f g : nat -> C) :
  (forall i, (i < n)%nat -> f i = g i) -> Cprod n f = Cprod n g.
Proof.
  induction n as [|n IH]; intros E; simpl; [reflexivity|].
  rewrite IH by (intros; apply E; lia). rewrite E by lia. reflexivity.
Qed.

(** The loop of tensor products: each entry is the product of the entries
    the factors have at the bits of the row and of the column. *)
Lemma tensor_loop_entry (M : Matrix) (t : Z) (n : nat) (r c : nat) :
  width M = 2%nat -> height M = 2%nat ->
  (r < 2 ^ n)%nat -> (c < 2 ^ n)%nat ->
  entry (for_range n (fun opMatrix i =>
           tensorProduct (if Z.eqb (Z.of_nat i) t then M else identity 2) opMatrix)
           (mkMatrix 1 1 [1; 0])) r c =
  Cprod n (fun i =>
    entry (if Z.eqb (Z.of_nat i) t then M else identity 2)
          (bitIndex (Z.of_nat i) r) (bitIndex (Z.of_nat i) c)).
Proof.
  intros WM HM. revert r c. induction n as [|n IH]; intros r c Hr Hc.
  - simpl in Hr, Hc. assert (r = 0%nat) by lia. assert (c = 0%nat) by lia.
    subst. reflexivity.
  - destruct (expand_dims M t n WM HM) as (_ & W & H).
    unfold for_range in *. rewrite seq_S, fold_left_app.
    cbn [fold_left Nat.add Cprod].
    set (prev := fold_left _ (seq 0 n) _) in *.
    assert (Wm : width (if Z.eqb (Z.of_nat n) t then M else identity 2) = 2%nat)
      by (destruct (Z.eqb (Z.of_nat n) t); [exact WM | reflexivity]).
    assert (Hm : height (if Z.eqb (Z.of_nat n) t then M else identity 2) = 2%nat)
      by (destruct (Z.eqb (Z.of_nat n) t); [exact HM | reflexivity]).
    unfold tensorProduct.
    rewrite entry_make by (rewrite ?Wm, ?Hm, ?W, ?H, <- Nat.pow_succ_r'; assumption).
    rewrite W, H.
    assert (P : (0 < 2 ^ n)%nat) by (apply Nat.neq_0_lt_0, Nat.pow_nonzero; lia).
    rewrite IH by (apply Nat.mod_upper_bound; lia).
    rewrite Cmult_swap. f_equal.
    + apply Cprod_ext. intros i Hi.
      rewrite !bitIndex_nat, !nat_bit_low by exact Hi. reflexivity.
    + rewrite !bitIndex_nat, !nat_bit_top by assumption. reflexivity.
Qed.

Lemma agreeOff_step (t : Z) (n : nat) (r c : nat) :
  agreeOff t (S n) r c =
  agreeOff t n r c
  && (Z.eqb (Z.of_nat n) t
      || Bool.eqb (bitOf (Z.of_nat n) r) (bitOf (Z.of_nat n) c)).
Proof.
  unfold agreeOff. rewrite seq_S, forallb_app. cbn [forallb Nat.add].
  rewrite andb_true_r. reflexivity.
Qed.

Lemma bitIndex_lt (k : Z) (i : nat) : (bitIndex k i < 2)%nat.
Proof. unfold bitIndex. destruct (bitOf k i); lia. Qed.

Lemma bitIndex_eqb (k : Z) (r c : nat) :
  Nat.eqb (bitIndex k r) (bitIndex k c) = Bool.eqb (bitOf k r) (bitOf k c).
Proof. unfold bitIndex. destruct (bitOf k r), (bitOf k c); reflexivity. Qed.

Lemma Cmult_C1_r (z : C) : Cmult z C1 = z.
Proof. destruct z. cpx. Qed.

Lemma Cmult_C1_l (z : C) : Cmult C1 z = z.
Proof. destruct z. cpx. Qed.

Lemma Cmult_C0_r (z : C) : Cmult z C0 = C0.
Proof. cpx. Qed.

Lemma Cmult_C0_l (z : C) : Cmult C0 z = C0.
Proof. cpx. Qed.

Lemma Cprod_onQubit (M : Matrix) (t : Z) (n : nat) (r c : nat) :
  Cprod n (fun i =>
    entry (if Z.eqb (Z.of_nat i) t then M else identity 2)
          (bitIndex (Z.of_nat i) r) (bitIndex (Z.of_nat i) c)) =
  onQubit M t n r c.
Proof.
  induction n as [|n IH].
  - unfold onQubit. cbn [Cprod agreeOff seq forallb].
    destruct (Z.leb_spec 0 t); destruct (Z.ltb_spec t (Z.of_nat 0));
      cbn [andb]; try reflexivity. simpl in *. lia.
  - cbn [Cprod]. rewrite IH. unfold onQubit. rewrite agreeOff_step.
    destruct (Z.eqb_spec (Z.of_nat n) t) as [E | NE].
    + subst t. cbn [orb]. rewrite andb_true_r.
      replace (Z.ltb (Z.of_nat n) (Z.of_nat n)) with false
        by (symmetry; apply Z.ltb_ge; lia).
      replace (Z.ltb (Z.of_nat n) (Z.of_nat (S n))) with true
        by (symmetry; apply Z.ltb_lt; lia).
      replace (Z.leb 0 (Z.of_nat n)) with true by (symmetry; apply Z.leb_le; lia).
      cbn [andb]. destruct (agreeOff (Z.of_nat n) n r c).
      * apply Cmult_C1_l.
      * apply Cmult_C0_l.
    + cbn [orb]. rewrite entry_identity, bitIndex_eqb by apply bitIndex_lt.
      replace (Z.ltb t (Z.of_nat (S n))) with (Z.ltb t (Z.of_nat n))
        by (destruct (Z.ltb_spec t (Z.of_nat n)); symmetry;
            [apply Z.ltb_lt | apply Z.ltb_ge]; lia).
      destruct (agreeOff t n r c); cbn [andb];
        destruct (Bool.eqb (bitOf (Z.of_nat n) r) (bitOf (Z.of_nat n) c));
        auto using Cmult_C1_r, Cmult_C0_r, Cmult_C0_l.
Qed.

Lemma js_and_zero_l (z : Z) : js_and 0 z = 0%Z.
Proof. unfold js_and. rewrite (to_int32_small 0) by lia. apply Z.land_0_l. Qed.

Lemma entry_expandOp (M : Matrix) (t : Z) (n : nat) (controls : list Z)
    (r c : nat) :
  width M = 2%nat -> height M = 2%nat -> (n <= 31)%nat ->
  Forall (fun e => (0 <= e < 31)%Z) controls ->
  (r < 2 ^ n)%nat -> (c < 2 ^ n)%nat ->
  entry (expandOp M t n controls) r c =
  if controlsOn controls r && controlsOn controls c
  then onQubit M t n r c
  else if Nat.eqb r c then C1 else C0.
Proof.
  intros WM HM Hn Hl Hr Hc.
  destruct (expand_dims M t n WM HM) as (W & Wd & Ht).
  unfold expandOp.
  rewrite entry_controlify by (try exact W; lia).
  rewrite !control_test by (try exact Hl; apply (pow2_bound n 31 Hn); assumption).
  rewrite <- negb_andb.
  destruct (controlsOn controls r && controlsOn controls c); cbn [negb];
    [|reflexivity].
  rewrite tensor_loop_entry by assumption. apply Cprod_onQubit.
Qed.

(** Every entry of the operator [expandOp] returns.  Where the row and the
    column both have all their control bits set, it acts as [M] on the
    target qubit and as the identity on the other qubits; everywhere else it
    is the identity. *)
Theorem expandOp_entry (M : Matrix) (t : Z) (n : nat) (controls : list Z)
    (r c : nat) :
  width M = 2%nat -> height M = 2%nat -> (n <= 31)%nat ->
  Forall (fun e => (0 <= e < 31)%Z) controls ->
  (r < 2 ^ n)%nat -> (c < 2 ^ n)%nat ->
  entry (expandOp M t n controls) r c =
  if controlsOn controls r && controlsOn controls c
  then onQubit M t n r c
  else if Nat.eqb r c then C1 else C0.
Proof. exact (entry_expandOp M t n controls r c). Qed.

Lemma expandOp_entry_witness :
  width PAULI_X = 2%nat /\ height PAULI_X = 2%nat /\ (2 <= 31)%nat /\
  Forall (fun e => (0 <= e < 31)%Z) [0%Z] /\
  (3 < 2 ^ 2)%nat /\ (1 < 2 ^ 2)%nat /\
  entry (expandOp PAULI_X 1 2 [0%Z]) 3 1 =
  if controlsOn [0%Z] 3 && controlsOn [0%Z] 1
  then onQubit PAULI_X 1 2 3 1
  else if Nat.eqb 3 1 then C1 else C0.
Proof.
  assert (H3 : (2 <= 31)%nat) by lia.
  assert (H4 : Forall (fun e => (0 <= e < 31)%Z) [0%Z])
    by (constructor; [lia | constructor]).
  assert (H5 : (3 < 2 ^ 2)%nat) by (simpl; lia).
  assert (H6 : (1 < 2 ^ 2)%nat) by (simpl; lia).
  split; [reflexivity|]. split; [reflexivity|]. split; [exact H3|].
  split; [exact H4|]. split; [exact H5|]. split; [exact H6|].
  exact (expandOp_entry PAULI_X 1 2 [0%Z] 3 1 eq_refl eq_refl H3 H4 H5 H6).
Defined.

(** With one qubit, target 0 and no controls, [expandOp] returns the
    single-qubit matrix it was given. *)
Theorem expandOp_single (M : Matrix) :
  wf M -> width M = 2%nat -> height M = 2%nat ->
  expandOp M 0 1 [] = M.
Proof.
  intros W WM HM.
  destruct (expand_dims M 0 1 WM HM) as (Wt & Wd & Ht).
  apply matrix_ext.
  - unfold expandOp. apply wf_controlify. exact Wt.
  - exact W.
  - unfold expandOp, controlify; cbn [width]. rewrite WM. exact Wd.
  - unfold expandOp, controlify; cbn [height]. rewrite HM. exact Ht.
  - intros r c Hr Hc.
    assert (Hr' : (r < 2 ^ 1)%nat)
      by (unfold expandOp, controlify in Hr; cbn [height] in Hr; rewrite Ht in Hr; exact Hr).
    assert (Hc' : (c < 2 ^ 1)%nat)
      by (unfold expandOp, controlify in Hc; cbn [width] in Hc; rewrite Wd in Hc; exact Hc).
    rewrite entry_expandOp by (try assumption; try lia; constructor).
    cbn [controlsOn forallb andb]. unfold onQubit.
    cbn [agreeOff seq forallb Z.of_nat Z.eqb orb andb Z.leb Z.ltb Z.compare].
    simpl in Hr', Hc'.
    assert (r = 0 \/ r = 1)%nat as [-> | ->] by lia;
      assert (c = 0 \/ c = 1)%nat as [-> | ->] by lia; reflexivity.
Qed.

Lemma expandOp_single_witness :
  wf PAULI_X /\ width PAULI_X = 2%nat /\ height PAULI_X = 2%nat /\
  expandOp PAULI_X 0 1 [] = PAULI_X.
Proof.
  split; [reflexivity|]. split; [reflexivity|]. split; [reflexivity|].
  exact (expandOp_single PAULI_X eq_refl eq_refl eq_refl).
Defined.

(** ** Unitary operators from [expandOp] *)

Lemma unitary_intro (U : Matrix) :
  width U = height U ->
  (forall a b, (a < height U)%nat -> (b < height U)%nat ->
     Csum (height U) (fun k => Cmult (entry U a k) (Cconj (entry U b k))) =
     if Nat.eqb a b then C1 else C0) ->
  (forall a b, (a < height U)%nat -> (b < height U)%nat ->
     Csum (height U) (fun r => Cmult (Cconj (entry U r a)) (entry U r b)) =
     if Nat.eqb a b then C1 else C0) ->
  unitary U.
Proof.
  intros Sq Rows Cols. unfold unitary. rewrite !times_ok by reflexivity.
  change (width (adjoint U)) with (height U).
  change (height (adjoint U)) with (width U).
  rewrite Sq. split; f_equal; apply make_ext; intros r c Hr Hc.
  - rewrite <- Rows by assumption. apply Csum_ext. intros k Hk.
    rewrite entry_adjoint by lia. reflexivity.
  - rewrite <- Cols by assumption. apply Csum_ext. intros k Hk.
    rewrite entry_adjoint by lia. reflexivity.
Qed.

Lemma Csum_add (a b : nat) (f : nat -> C) :
  Csum (a + b) f = Cplus (Csum a f) (Csum b (fun j => f (a + j)%nat)).
Proof.
  induction b as [|b IH].
  - rewrite Nat.add_0_r. cbn [Csum]. destruct (Csum a f). cpx.
  - rewrite Nat.add_succ_r. cbn [Csum]. rewrite IH.
    destruct (Csum a f), (Csum b (fun j => f (a + j)%nat)), (f (a + b)%nat). cpx.
Qed.

(** A sum over a product range is a double sum. *)
Lemma Csum_mul (n m : nat) (f : nat -> C) :
  Csum (n * m) f = Csum n (fun i => Csum m (fun j => f (i * m + j)%nat)).
Proof.
  induction n as [|n IH]; [reflexivity|].
  rewrite Nat.mul_succ_l, Csum_add, IH. reflexivity.
Qed.

Lemma tensor_gram (a b : nat) (f f' g g' : nat -> C) :
  Csum (a * b) (fun k => Cmult (Cmult (f (k / b)%nat) (g (k mod b)%nat))
                               (Cmult (f' (k / b)%nat) (g' (k mod b)%nat))) =
  Cmult (Csum a (fun i => Cmult (f i) (f' i)))
        (Csum b (fun j => Cmult (g j) (g' j))).
Proof.
  rewrite Csum_mul, <- Csum_mult_r. apply Csum_ext. intros i Hi.
  rewrite <- Csum_mult_l. apply Csum_ext. intros j Hj.
  destruct (cell_decode b i j Hj) as [-> ->]. cpx.
Qed.

Lemma delta_cell (b r c : nat) :
  (0 < b)%nat ->
  Cmult (if Nat.eqb (r / b) (c / b) then C1 else C0)
        (if Nat.eqb (r mod b) (c mod b) then C1 else C0) =
  if Nat.eqb r c then C1 else C0.
Proof.
  intros Hb.
  pose proof (Nat.div_mod_eq r b). pose proof (Nat.div_mod_eq c b).
  destruct (Nat.eqb_spec r c) as [-> | NE].
  - rewrite !Nat.eqb_refl. cpx.
  - destruct (Nat.eqb_spec (r / b) (c / b)) as [E1 | N1];
      destruct (Nat.eqb_spec (r mod b) (c mod b)) as [E2 | N2]; try cpx.
    exfalso. apply NE. rewrite H, H0, E1, E2. reflexivity.
Qed.

(** The tensor product of two unitary matrices is unitary. *)
Lemma tensorProduct_unitary (A B : Matrix) :
  unitary A -> unitary B -> unitary (tensorProduct A B).
Proof.
  intros UA UB.
  pose proof (unitary_square A UA) as SA. pose proof (unitary_square B UB) as SB.
  destruct (Nat.eq_dec (height B) 0) as [Z | NZ].
  { apply unitary_intro.
    - unfold tensorProduct. rewrite width_make, height_make, SA, SB. reflexivity.
    - change (height (tensorProduct A B)) with (height A * height B)%nat.
      rewrite Z, Nat.mul_0_r. intros; lia.
    - change (height (tensorProduct A B)) with (height A * height B)%nat.
      rewrite Z, Nat.mul_0_r. intros; lia. }
  assert (Pb : (0 < height B)%nat) by lia.
  assert (Hdiv : forall x, (x < height A * height B)%nat ->
            (x / height B < height A)%nat /\ (x mod height B < height B)%nat).
  { intros x Hx. split; [apply Nat.Div0.div_lt_upper_bound; lia
                        | apply Nat.mod_upper_bound; lia]. }
  apply unitary_intro.
  - unfold tensorProduct. rewrite width_make, height_make, SA, SB. reflexivity.
  - change (height (tensorProduct A B)) with (height A * height B)%nat.
    intros r c Hr Hc.
    destruct (Hdiv r Hr) as [Hr1 Hr2]. destruct (Hdiv c Hc) as [Hc1 Hc2].
    rewrite (Csum_ext _ _ (fun k =>
       Cmult (Cmult (entry A (r / height B) (k / height B))
                    (entry B (r mod height B) (k mod height B)))
             (Cmult (Cconj (entry A (c / height B) (k / height B)))
                    (Cconj (entry B (c mod height B) (k mod height B)))))).
    + rewrite (tensor_gram (height A) (height B)
                 (fun i => entry A (r / height B) i)
                 (fun i => Cconj (entry A (c / height B) i))
                 (fun j => entry B (r mod height B) j)
                 (fun j => Cconj (entry B (c mod height B) j))).
      rewrite !unitary_rows by assumption. apply delta_cell. exact Pb.
    + intros k Hk. unfold tensorProduct.
      rewrite !entry_make by (rewrite ?SA, ?SB; assumption).
      rewrite SB, Cconj_mult. reflexivity.
  - change (height (tensorProduct A B)) with (height A * height B)%nat.
    intros r c Hr Hc.
    destruct (Hdiv r Hr) as [Hr1 Hr2]. destruct (Hdiv c Hc) as [Hc1 Hc2].
    rewrite (Csum_ext _ _ (fun k =>
       Cmult (Cmult (Cconj (entry A (k / height B) (r / height B)))
                    (Cconj (entry B (k mod height B) (r mod height B))))
             (Cmult (entry A (k / height B) (c / height B))
                    (entry B (k mod height B) (c mod height B))))).
    + rewrite (tensor_gram (height A) (height B)
                 (fun i => Cconj (entry A i (r / height B)))
                 (fun i => entry A i (c / height B))
                 (fun j => Cconj (entry B j (r mod height B)))
                 (fun j => entry B j (c mod height B))).
      rewrite !unitary_columns by assumption. apply delta_cell. exact Pb.
    + intros k Hk. unfold tensorProduct.
      rewrite !entry_make by (rewrite ?SA, ?SB; assumption).
      rewrite SB, Cconj_mult. reflexivity.
Qed.

Lemma Cconj_delta (a b : nat) :
  Cconj (if Nat.eqb a b then C1 else C0) = if Nat.eqb a b then C1 else C0.
Proof. destruct (Nat.eqb a b); cpx. Qed.

Lemma Csum_delta_delta (n a b : nat) :
  (a < n)%nat ->
  Csum n (fun k => Cmult (if Nat.eqb a k then C1 else C0)
                         (if Nat.eqb b k then C1 else C0)) =
  if Nat.eqb a b then C1 else C0.
Proof.
  intros Ha.
  rewrite (Csum_ext _ _ (fun k => Cmult (if Nat.eqb b k then C1 else C0)
                                        (if Nat.eqb k a then C1 else C0)))
    by (intros k _; rewrite (Nat.eqb_sym a k); apply Cmult_swap).
  rewrite (Csum_pick n a (fun k => if Nat.eqb b k then C1 else C0) Ha).
  rewrite Nat.eqb_sym. reflexivity.
Qed.

Lemma unitary_identity (n : nat) : unitary (identity n).
Proof.
  apply unitary_intro; [reflexivity|..];
    change (height (identity n)) with n; intros a b Ha Hb.
  - rewrite (Csum_ext _ _ (fun k => Cmult (if Nat.eqb a k then C1 else C0)
                                          (if Nat.eqb b k then C1 else C0)))
      by (intros k Hk; rewrite !entry_identity, Cconj_delta by assumption;
          reflexivity).
    apply Csum_delta_delta. exact Ha.
  - rewrite (Csum_ext _ _ (fun k => Cmult (if Nat.eqb a k then C1 else C0)
                                          (if Nat.eqb b k then C1 else C0)))
      by (intros k Hk; rewrite !entry_identity, Cconj_delta by assumption;
          rewrite (Nat.eqb_sym k a), (Nat.eqb_sym k b); reflexivity).
    apply Csum_delta_delta. exact Ha.
Qed.

Lemma unitary_scalar_one : unitary (mkMatrix 1 1 [1; 0]).
Proof.
  apply unitary_intro; [reflexivity|..]; cbn [height]; intros a b Ha Hb;
    assert (a = 0%nat) by lia; assert (b = 0%nat) by lia; subst;
    unfold entry, rd; simpl; cpx.
Qed.

(** The tensor products of [expandOp] build a unitary matrix when the
    single-qubit matrix is unitary. *)
Lemma expand_unitary (M : Matrix) (t : Z) (n : nat) :
  unitary M ->
  unitary (for_range n (fun opMatrix i =>
             tensorProduct (if Z.eqb (Z.of_nat i) t then M else identity 2) opMatrix)
             (mkMatrix 1 1 [1; 0])).
Proof.
  intros UM. unfold for_range. induction n as [|n IH].
  - exact unitary_scalar_one.
  - rewrite seq_S, fold_left_app. cbn [fold_left Nat.add].
    apply tensorProduct_unitary; [|exact IH].
    destruct (Z.eqb (Z.of_nat n) t); [exact UM | apply unitary_identity].
Qed.

(** Forcing the identity outside a set of basis states that the operator
    does not leave keeps the operator unitary. *)
Lemma controlled_unitary (T E : Matrix) (on : nat -> bool) :
  unitary T -> width E = height T -> height E = height T ->
  (forall r c, (r < height T)%nat -> (c < height T)%nat ->
     entry E r c = if on r && on c then entry T r c
                   else if Nat.eqb r c then C1 else C0) ->
  (forall r c, (r < height T)%nat -> (c < height T)%nat ->
     on r <> on c -> entry T r c = C0) ->
  unitary E.
Proof.
  intros UT WE HE Ent Stay.
  assert (Row : forall r c, (r < height T)%nat -> (c < height T)%nat ->
            entry E r c = if on r then entry T r c
                          else if Nat.eqb r c then C1 else C0).
  { intros r c Hr Hc. rewrite Ent by assumption.
    destruct (on r) eqn:Or; cbn [andb]; [|reflexivity].
    destruct (on c) eqn:Oc; [reflexivity|].
    rewrite Stay by (try assumption; congruence).
    destruct (Nat.eqb_spec r c); [congruence | reflexivity]. }
  assert (Col : forall r c, (r < height T)%nat -> (c < height T)%nat ->
            entry E r c = if on c then entry T r c
                          else if Nat.eqb r c then C1 else C0).
  { intros r c Hr Hc. rewrite Ent by assumption.
    destruct (on c) eqn:Oc; rewrite ?andb_true_r, ?andb_false_r; [|reflexivity].
    destruct (on r) eqn:Or; [reflexivity|].
    rewrite Stay by (try assumption; congruence).
    destruct (Nat.eqb_spec r c); [congruence | reflexivity]. }
  apply unitary_intro; [congruence|..]; rewrite HE; intros a b Ha Hb.
  - rewrite (Csum_ext _ _ (fun k =>
       Cmult (if on a then entry T a k else if Nat.eqb a k then C1 else C0)
             (Cconj (if on b then entry T b k else if Nat.eqb b k then C1 else C0))))
      by (intros k Hk; rewrite !Row by assumption; reflexivity).
    destruct (on a) eqn:Oa, (on b) eqn:Ob.
    + apply unitary_rows; assumption.
    + rewrite (Csum_ext _ _ (fun k => Cmult (entry T a k)
                                        (if Nat.eqb k b then C1 else C0)))
        by (intros k _; rewrite Cconj_delta, (Nat.eqb_sym b k); reflexivity).
      rewrite (Csum_pick _ b (fun k => entry T a k)) by exact Hb.
      rewrite Stay by (try assumption; congruence).
      destruct (Nat.eqb_spec a b); [congruence | reflexivity].
    + rewrite (Csum_ext _ _ (fun k => Cmult (Cconj (entry T b k))
                                        (if Nat.eqb k a then C1 else C0)))
        by (intros k _; rewrite (Nat.eqb_sym a k); apply Cmult_swap).
      rewrite (Csum_pick _ a (fun k => Cconj (entry T b k))) by exact Ha.
      rewrite Stay by (try assumption; congruence).
      destruct (Nat.eqb_spec a b); [congruence | cpx].
    + rewrite (Csum_ext _ _ (fun k => Cmult (if Nat.eqb a k then C1 else C0)
                                        (if Nat.eqb b k then C1 else C0)))
        by (intros k _; rewrite Cconj_delta; reflexivity).
      apply Csum_delta_delta. exact Ha.
  - rewrite (Csum_ext _ _ (fun k =>
       Cmult (Cconj (if on a then entry T k a else if Nat.eqb k a then C1 else C0))
             (if on b then entry T k b else if Nat.eqb k b then C1 else C0)))
      by (intros k Hk; rewrite !Col by assumption; reflexivity).
    destruct (on a) eqn:Oa, (on b) eqn:Ob.
    + apply unitary_columns; assumption.
    + rewrite (Csum_pick _ b (fun k => Cconj (entry T k a))) by exact Hb.
      rewrite Stay by (try assumption; congruence).
      destruct (Nat.eqb_spec a b); [congruence | cpx].
    + rewrite (Csum_ext _ _ (fun k => Cmult (entry T k b)
                                        (if Nat.eqb k a then C1 else C0)))
        by (intros k _; rewrite Cconj_delta; apply Cmult_swap).
      rewrite (Csum_pick _ a (fun k => entry T k b)) by exact Ha.
      rewrite Stay by (try assumption; congruence).
      destruct (Nat.eqb_spec a b); [congruence | reflexivity].
    + rewrite (Csum_ext _ _ (fun k => Cmult (if Nat.eqb a k then C1 else C0)
                                        (if Nat.eqb b k then C1 else C0)))
        by (intros k _; rewrite Cconj_delta, (Nat.eqb_sym k a), (Nat.eqb_sym k b);
            reflexivity).
      apply Csum_delta_delta. exact Ha.
Qed.

(** Two indices that agree off the target qubit have the same control bits,
    when the target is not a control. *)
Lemma agreeOff_controls (t : Z) (n : nat) (controls : list Z) (r c : nat) :
  Forall (fun e => (0 <= e < 31)%Z) controls -> ~ In t controls ->
  (r < 2 ^ n)%nat -> (c < 2 ^ n)%nat ->
  agreeOff t n r c = true -> controlsOn controls r = controlsOn controls c.
Proof.
  intros Hl Nt Hr Hc Ag. unfold controlsOn.
  assert (Same : forall e, In e controls -> bitOf e r = bitOf e c).
  { intros e He.
    assert (Re : (0 <= e < 31)%Z) by (rewrite Forall_forall in Hl; apply Hl; exact He).
    destruct (Z.lt_ge_cases e (Z.of_nat n)) as [Lt | Ge].
    - unfold agreeOff in Ag. rewrite forallb_forall in Ag.
      specialize (Ag (Z.to_nat e) ltac:(apply in_seq; lia)).
      rewrite Z2Nat.id in Ag by lia.
      apply orb_true_iff in Ag. destruct Ag as [Ag | Ag].
      + apply Z.eqb_eq in Ag. subst t. contradiction.
      + apply eqb_prop in Ag. exact Ag.
    - assert (2 ^ Z.of_nat n <= 2 ^ e)%Z by (apply Z.pow_le_mono_r; lia).
      pose proof (pow2_bound n n (le_n n) r Hr).
      pose proof (pow2_bound n n (le_n n) c Hc).
      rewrite !bitOf_small by lia. reflexivity. }
  apply eq_true_iff_eq. rewrite !forallb_forall.
  split; intros H e He; [rewrite <- Same | rewrite Same]; auto.
Qed.

(** The operator [expandOp] builds from a unitary single-qubit matrix is
    unitary, whatever the controls, as long as the target qubit is not one
    of them. *)
Lemma expandOp_unitary (M : Matrix) (t : Z) (n : nat) (controls : list Z) :
  unitary M -> width M = 2%nat -> (n <= 31)%nat ->
  Forall (fun e => (0 <= e < 31)%Z) controls -> ~ In t controls ->
  unitary (expandOp M t n controls).
Proof.
  intros UM WM Hn Hl Nt.
  assert (HM : height M = 2%nat) by (rewrite <- (unitary_square M UM); exact WM).
  destruct (expand_dims M t n WM HM) as (W & Wd & Ht).
  pose proof (expand_unitary M t n UM) as UT.
  unfold expandOp.
  set (T := for_range n _ _) in *.
  apply (controlled_unitary T _ (controlsOn controls) UT).
  - unfold controlify; cbn [width]. congruence.
  - reflexivity.
  - rewrite Ht. intros r c Hr Hc.
    rewrite entry_controlify by (try exact W; lia).
    rewrite !control_test by (try exact Hl; apply (pow2_bound n 31 Hn); assumption).
    rewrite <- negb_andb.
    destruct (controlsOn controls r && controlsOn controls c); reflexivity.
  - rewrite Ht. intros r c Hr Hc Diff. unfold T.
    rewrite tensor_loop_entry, Cprod_onQubit by assumption.
    unfold onQubit. destruct (agreeOff t n r c) eqn:Ag; [|reflexivity].
    exfalso. apply Diff. apply (agreeOff_controls t n); assumption.
Qed.

(** An operator that [expandOperation] builds from a unitary single-qubit
    matrix, with a target that is not among the controls, is unitary, and
    [applyOperation] accepts it on the simulator that built it. *)
Theorem expandOperation_accepted (this : EveQuantumComputer) (n : nat)
    (M : Matrix) (t : Z) (controls : list Z) :
  shaped n this -> (n <= 31)%nat ->
  unitary M -> width M = 2%nat ->
  Forall (fun e => (0 <= e < 31)%Z) controls -> ~ In t controls ->
  unitary (expandOperation this M t controls) /\
  exists this',
    applyOperation (expandOperation this M t controls) this = (Done tt, this') /\
    shaped n this' /\
    _operationCount this' = (_operationCount this + 1)%Z /\
    _expectedIgnoranceErrors this' = _expectedIgnoranceErrors this.
Proof.
  intros Sh Hn UM WM Hl Nt.
  rewrite (expandOperation_register this n) by apply Sh.
  pose proof (expandOp_unitary M t n controls UM WM Hn Hl Nt) as UE.
  split; [exact UE|].
  assert (HM : height M = 2%nat) by (rewrite <- (unitary_square M UM); exact WM).
  assert (HE : height (expandOp M t n controls) = (2 ^ n)%nat).
  { destruct (expand_dims M t n WM HM) as (_ & _ & Ht). exact Ht. }
  destruct (applyOperation_unitary this _ n Sh UE HE) as (E & _ & _).
  eexists. split; [exact E|].
  split; [constructor; cbn [_actualHiddenState _inferredStateDensity];
          auto using wf_make|].
  split; reflexivity.
Qed.

Lemma expandOperation_accepted_witness :
  shaped 1 born /\ (1 <= 31)%nat /\ unitary PAULI_X /\ width PAULI_X = 2%nat /\
  Forall (fun e => (0 <= e < 31)%Z) [] /\ ~ In 0%Z [] /\
  unitary (expandOperation born PAULI_X 0 []) /\
  exists this',
    applyOperation (expandOperation born PAULI_X 0 []) born = (Done tt, this') /\
    shaped 1 this' /\
    _operationCount this' = (_operationCount born + 1)%Z /\
    _expectedIgnoranceErrors this' = _expectedIgnoranceErrors born.
Proof.
  assert (H1 : shaped 1 born)
    by (apply (inv_shaped 1 born), reachable_invariant; [lia | exact reachable_born]).
  assert (H2 : (1 <= 31)%nat) by lia.
  assert (H5 : Forall (fun e => (0 <= e < 31)%Z) []) by constructor.
  assert (H6 : ~ In 0%Z []) by (intros []).
  split; [exact H1|]. split; [exact H2|]. split; [exact unitary_PAULI_X|].
  split; [reflexivity|]. split; [exact H5|]. split; [exact H6|].
  exact (expandOperation_accepted born 1 PAULI_X 0 [] H1 H2 unitary_PAULI_X
           eq_refl H5 H6).
Defined.

(** ** How operations compose *)

Lemma mm_ext (n : nat) (f f' g g' : nat -> nat -> C) (r c : nat) :
  (forall k, (k < n)%nat -> f r k = f' r k) ->
  (forall k, (k < n)%nat -> g k c = g' k c) ->
  mm n f g r c = mm n f' g' r c.
Proof.
  intros Ef Eg. apply Csum_ext. intros k Hk. rewrite Ef, Eg by exact Hk. reflexivity.
Qed.

Lemma mm_assoc (n : nat) (f g h : nat -> nat -> C) (r c : nat) :
  mm n (mm n f g) h r c = mm n f (mm n g h) r c.
Proof.
  unfold mm.
  rewrite (Csum_ext _ _ (fun k => Csum n (fun j =>
             Cmult (f r j) (Cmult (g j k) (h k c)))))
    by (intros k _; rewrite <- Csum_mult_r; apply Csum_ext; intros j _; cpx).
  rewrite Csum_swap. apply Csum_ext. intros j _. apply Csum_mult_l.
Qed.

(** The entries of a product of square matrices of dimension [n]. *)
Lemma entry_times (a b p : Matrix) (n r c : nat) :
  width a = n -> height a = n -> height b = n ->
  times a b = Done p -> (r < n)%nat -> (c < width b)%nat ->
  entry p r c = mm n (entry a) (entry b) r c.
Proof.
  intros Wa Ha Hb T Hr Hc. rewrite times_ok in T by congruence.
  apply Done_inj in T. subst p. rewrite entry_make by lia.
  rewrite Wa. reflexivity.
Qed.

(** Sums that collapse through an orthonormality relation. *)
Lemma inner_collapse (h : nat) (P Q : nat -> nat -> C) (x y : nat -> C) :
  (forall k j, (k < h)%nat -> (j < h)%nat ->
     Csum h (fun r => Cmult (P r k) (Q r j)) = if Nat.eqb k j then C1 else C0) ->
  Csum h (fun r =>
    Cmult (Csum h (fun k => Cmult (P r k) (x k)))
          (Csum h (fun j => Cmult (Q r j) (y j)))) =
  Csum h (fun k => Cmult (x k) (y k)).
Proof.
  intros Orth.
  transitivity
    (Csum h (fun k => Csum h (fun j =>
       Cmult (Cmult (x k) (y j)) (Csum h (fun r => Cmult (P r k) (Q r j)))))).
  - transitivity
      (Csum h (fun r => Csum h (fun k => Csum h (fun j =>
         Cmult (Cmult (x k) (y j)) (Cmult (P r k) (Q r j)))))).
    + apply Csum_ext. intros r _.
      rewrite <- Csum_mult_r. apply Csum_ext. intros k _.
      rewrite <- Csum_mult_l. apply Csum_ext. intros j _. cpx.
    + rewrite Csum_swap. apply Csum_ext. intros k _.
      rewrite Csum_swap. apply Csum_ext. intros j _.
      apply Csum_mult_l.
  - apply Csum_ext. intros k Hk.
    rewrite (Csum_ext _ _ (fun j => Cmult (Cmult (x k) (y j))
                                     (if Nat.eqb j k then C1 else C0)))
      by (intros j Hj; rewrite Orth, (Nat.eqb_sym k j) by assumption; reflexivity).
    apply (Csum_pick h k (fun j => Cmult (x k) (y j))). exact Hk.
Qed.

(** The product of two unitary matrices of the same dimension is unitary. *)
Lemma times_unitary (V U W : Matrix) :
  unitary V -> unitary U -> height V = height U ->
  times V U = Done W -> unitary W.
Proof.
  intros UV UU HVU T.
  pose proof (unitary_square V UV) as SV. pose proof (unitary_square U UU) as SU.
  rewrite times_ok in T by congruence. apply Done_inj in T. subst W.
  rewrite SU, SV, HVU.
  apply unitary_intro; [reflexivity|..]; rewrite height_make; intros a b Ha Hb.
  - rewrite (Csum_ext _ _ (fun k =>
       Cmult (Csum (height U) (fun i => Cmult (entry U i k) (entry V a i)))
             (Csum (height U) (fun j => Cmult (Cconj (entry U j k))
                                              (Cconj (entry V b j)))))).
    + rewrite (inner_collapse (height U) (fun k i => entry U i k)
                 (fun k j => Cconj (entry U j k))
                 (fun i => entry V a i) (fun j => Cconj (entry V b j))).
      * rewrite <- HVU. apply unitary_rows; congruence.
      * intros k j Hk Hj. apply unitary_rows; assumption.
    + intros k Hk. rewrite !entry_make by lia. rewrite Csum_conj.
      f_equal; apply Csum_ext; intros i _; [apply Cmult_swap|].
      rewrite Cconj_mult. apply Cmult_swap.
  - rewrite (Csum_ext _ _ (fun r =>
       Cmult (Csum (height U) (fun k => Cmult (Cconj (entry V r k))
                                              (Cconj (entry U k a))))
             (Csum (height U) (fun j => Cmult (entry V r j) (entry U j b))))).
    + rewrite (inner_collapse (height U) (fun r k => Cconj (entry V r k))
                 (fun r j => entry V r j)
                 (fun k => Cconj (entry U k a)) (fun j => entry U j b)).
      * apply unitary_columns; assumption.
      * intros k j Hk Hj. rewrite <- HVU. apply unitary_columns; congruence.
    + intros r Hr. rewrite !entry_make by lia. rewrite Csum_conj.
      f_equal. apply Csum_ext. intros i _. apply Cconj_mult.
Qed.

Lemma applyOperation_shaped (this : EveQuantumComputer) (U : Matrix) (n : nat) :
  shaped n this -> unitary U -> height U = (2 ^ n)%nat ->
  exists this',
    applyOperation U this = (Done tt, this') /\ shaped n this' /\
    _operationCount this' = (_operationCount this + 1)%Z /\
    _expectedIgnoranceErrors this' = _expectedIgnoranceErrors this /\
    (forall r c, (r < 2 ^ n)%nat -> (c < 1)%nat ->
       entry (_actualHiddenState this') r c =
       mm (2 ^ n) (entry U) (entry (_actualHiddenState this)) r c) /\
    (forall r c, (r < 2 ^ n)%nat -> (c < 2 ^ n)%nat ->
       entry (_inferredStateDensity this') r c =
       mm (2 ^ n) (mm (2 ^ n) (entry U) (entry (_inferredStateDensity this)))
          (fun k j => Cconj (entry U j k)) r c).
Proof.
  intros Sh Un HU.
  pose proof (unitary_square U Un) as Sq.
  destruct (applyOperation_unitary this U n Sh Un HU) as (E & _ & _).
  cbv zeta in E. eexists. split; [exact E|].
  split; [|split; [reflexivity|split; [reflexivity|split]]].
  - constructor; cbn [_actualHiddenState _inferredStateDensity];
      auto using wf_make, width_make, height_make.
  - intros r c Hr Hc. cbn [_actualHiddenState]. rewrite entry_make by assumption.
    reflexivity.
  - intros r c Hr Hc. cbn [_inferredStateDensity]. rewrite entry_make by assumption.
    apply mm_ext; intros k Hk.
    + rewrite entry_make by assumption. reflexivity.
    + apply entry_adjoint; lia.
Qed.

Lemma shaped_born : shaped 1 born.
Proof. apply (inv_shaped 1 born), reachable_invariant; [lia | exact reachable_born]. Qed.

(** Applying [U] and then [V] leaves the simulator with the states that
    applying the product [V * U] leaves; only the operation count tells the
    two apart. *)
Theorem applyOperation_composes (this : EveQuantumComputer) (n : nat) (U V : Matrix) :
  shaped n this -> unitary U -> unitary V ->
  height U = (2 ^ n)%nat -> height V = (2 ^ n)%nat ->
  exists W this1 this2 this12,
    times V U = Done W /\ unitary W /\
    applyOperation U this = (Done tt, this1) /\
    applyOperation V this1 = (Done tt, this2) /\
    applyOperation W this = (Done tt, this12) /\
    _actualHiddenState this2 = _actualHiddenState this12 /\
    _inferredStateDensity this2 = _inferredStateDensity this12 /\
    _operationCount this2 = (_operationCount this12 + 1)%Z /\
    _expectedIgnoranceErrors this2 = _expectedIgnoranceErrors this12.
Proof.
  intros Sh UU UV HU HV.
  pose proof (unitary_square U UU) as SU. pose proof (unitary_square V UV) as SV.
  assert (T : times V U =
              Done (make (2 ^ n) (2 ^ n) (mm (2 ^ n) (entry V) (entry U)))).
  { rewrite times_ok by congruence. rewrite SU, SV, HU, HV. reflexivity. }
  set (W := make (2 ^ n) (2 ^ n) (mm (2 ^ n) (entry V) (entry U))) in *.
  assert (UW : unitary W) by (apply (times_unitary V U W); congruence).
  assert (HW : height W = (2 ^ n)%nat) by apply height_make.
  assert (EW : forall r c, (r < 2 ^ n)%nat -> (c < 2 ^ n)%nat ->
                 entry W r c = mm (2 ^ n) (entry V) (entry U) r c)
    by (intros; apply entry_make; assumption).
  destruct (applyOperation_shaped this U n Sh UU HU)
    as (this1 & E1 & Sh1 & C1' & G1 & A1 & D1).
  destruct (applyOperation_shaped this1 V n Sh1 UV HV)
    as (this2 & E2 & Sh2 & C2' & G2 & A2 & D2).
  destruct (applyOperation_shaped this W n Sh UW HW)
    as (this12 & E12 & Sh12 & C12' & G12 & A12 & D12).
  exists W, this1, this2, this12.
  split; [exact T|]. split; [exact UW|].
  split; [exact E1|]. split; [exact E2|]. split; [exact E12|].
  split; [|split; [|split; [lia|congruence]]].
  - destruct Sh2 as [W2 Wd2 H2 _ _ _], Sh12 as [W12 Wd12 H12 _ _ _].
    apply matrix_ext; try assumption; try congruence.
    intros r c Hr Hc. rewrite H2 in Hr. rewrite Wd2 in Hc.
    rewrite A2, A12 by assumption.
    rewrite (mm_ext _ _ (entry V) _
               (mm (2 ^ n) (entry U) (entry (_actualHiddenState this))) r c)
      by (intros; first [reflexivity | apply A1; assumption]).
    rewrite <- mm_assoc. apply mm_ext; intros k Hk; [|reflexivity].
    symmetry. apply EW; assumption.
  - destruct Sh2 as [_ _ _ W2 Wd2 H2], Sh12 as [_ _ _ W12 Wd12 H12].
    apply matrix_ext; try assumption; try congruence.
    intros r c Hr Hc. rewrite H2 in Hr. rewrite Wd2 in Hc.
    rewrite D2, D12 by assumption.
    set (rho := entry (_inferredStateDensity this)).
    set (u := entry U). set (v := entry V).
    set (u' := fun k j : nat => Cconj (entry U j k)).
    set (v' := fun k j : nat => Cconj (entry V j k)).
    set (N := (2 ^ n)%nat) in *.
    transitivity (mm N (mm N v (mm N (mm N u rho) u')) v' r c).
    { apply mm_ext; intros k Hk; [|reflexivity].
      apply mm_ext; intros j Hj; [reflexivity|]. apply D1; assumption. }
    transitivity (mm N (mm N (mm N v u) rho) (mm N u' v') r c).
    { rewrite mm_assoc.
      rewrite (mm_ext N v v (mm N (mm N (mm N u rho) u') v')
                 (mm N (mm N u rho) (mm N u' v')) r c)
        by (intros; first [reflexivity | apply mm_assoc]).
      rewrite <- mm_assoc.
      apply mm_ext; intros k Hk; [|reflexivity].
      rewrite <- mm_assoc. reflexivity. }
    apply mm_ext; intros k Hk.
    + apply mm_ext; intros j Hj; [|reflexivity]. symmetry. apply EW; assumption.
    + rewrite EW by assumption. unfold mm, u', v'. rewrite Csum_conj.
      apply Csum_ext. intros j _. rewrite Cconj_mult. apply Cmult_swap.
Qed.

Lemma applyOperation_composes_witness :
  shaped 1 born /\ unitary PAULI_X /\ height PAULI_X = (2 ^ 1)%nat /\
  exists W this1 this2 this12,
    times PAULI_X PAULI_X = Done W /\ unitary W /\
    applyOperation PAULI_X born = (Done tt, this1) /\
    applyOperation PAULI_X this1 = (Done tt, this2) /\
    applyOperation W born = (Done tt, this12) /\
    _actualHiddenState this2 = _actualHiddenState this12 /\
    _inferredStateDensity this2 = _inferredStateDensity this12 /\
    _operationCount this2 = (_operationCount this12 + 1)%Z /\
    _expectedIgnoranceErrors this2 = _expectedIgnoranceErrors this12.
Proof.
  split; [exact shaped_born|]. split; [exact unitary_PAULI_X|].
  split; [reflexivity|].
  exact (applyOperation_composes born 1 PAULI_X PAULI_X shaped_born
           unitary_PAULI_X unitary_PAULI_X eq_refl eq_refl).
Defined.

Lemma mm_delta_l (n : nat) (f : nat -> nat -> C) (r c : nat) :
  (r < n)%nat ->
  mm n (fun a b => if Nat.eqb a b then C1 else C0) f r c = f r c.
Proof.
  intros Hr. unfold mm.
  rewrite (Csum_ext _ _ (fun k => Cmult (f k c) (if Nat.eqb k r then C1 else C0)))
    by (intros k _; rewrite (Nat.eqb_sym r k); apply Cmult_swap).
  apply (Csum_pick n r (fun k => f k c)). exact Hr.
Qed.

Lemma mm_delta_r (n : nat) (f : nat -> nat -> C) (r c : nat) :
  (c < n)%nat ->
  mm n f (fun a b => if Nat.eqb a b then C1 else C0) r c = f r c.
Proof. intros Hc. unfold mm. apply (Csum_pick n c (fun k => f r k)). exact Hc. Qed.

Lemma Cconj_invol (a : C) : Cconj (Cconj a) = a.
Proof. cpx. Qed.

(** The adjoint of a unitary matrix is unitary. *)
Lemma unitary_adjoint (U : Matrix) : unitary U -> unitary (adjoint U).
Proof.
  intros Un. pose proof (unitary_square U Un) as Sq.
  apply unitary_intro.
  - change (width (adjoint U)) with (height U).
    change (height (adjoint U)) with (width U). congruence.
  - change (height (adjoint U)) with (width U). rewrite Sq.
    intros a b Ha Hb.
    rewrite (Csum_ext _ _ (fun k => Cmult (Cconj (entry U k a)) (entry U k b))).
    + apply unitary_columns; assumption.
    + intros k Hk. rewrite !entry_adjoint by lia. rewrite Cconj_invol. reflexivity.
  - change (height (adjoint U)) with (width U). rewrite Sq.
    intros a b Ha Hb.
    rewrite (Csum_ext _ _ (fun k => Cmult (entry U a k) (Cconj (entry U b k)))).
    + apply unitary_rows; assumption.
    + intros k Hk. rewrite !entry_adjoint by lia. rewrite Cconj_invol. reflexivity.
Qed.

(** An operation followed by its adjoint gives back both states the
    simulator held; the two applications are counted. *)
Theorem applyOperation_undone (this : EveQuantumComputer) (n : nat) (U : Matrix) :
  shaped n this -> unitary U -> height U = (2 ^ n)%nat ->
  exists this1 this2,
    applyOperation U this = (Done tt, this1) /\
    applyOperation (adjoint U) this1 = (Done tt, this2) /\
    _actualHiddenState this2 = _actualHiddenState this /\
    _inferredStateDensity this2 = _inferredStateDensity this /\
    _operationCount this2 = (_operationCount this + 2)%Z /\
    _expectedIgnoranceErrors this2 = _expectedIgnoranceErrors this.
Proof.
  intros Sh UU HU.
  pose proof (unitary_square U UU) as SU.
  pose proof (unitary_adjoint U UU) as UA.
  assert (HA : height (adjoint U) = (2 ^ n)%nat)
    by (change (height (adjoint U)) with (width U); congruence).
  destruct (applyOperation_shaped this U n Sh UU HU)
    as (this1 & E1 & Sh1 & C1' & G1 & A1 & D1).
  destruct (applyOperation_shaped this1 (adjoint U) n Sh1 UA HA)
    as (this2 & E2 & Sh2 & C2' & G2 & A2 & D2).
  exists this1, this2.
  split; [exact E1|]. split; [exact E2|].
  split; [|split; [|split; [lia|congruence]]].
  - destruct Sh2 as [W2 Wd2 H2 _ _ _], Sh as [W0 Wd0 H0 _ _ _].
    apply matrix_ext; try assumption; try congruence.
    intros r c Hr Hc. rewrite H2 in Hr. rewrite Wd2 in Hc.
    rewrite A2 by assumption.
    set (N := (2 ^ n)%nat) in *.
    transitivity (mm N (mm N (fun k j => Cconj (entry U j k)) (entry U))
                    (entry (_actualHiddenState this)) r c).
    { rewrite mm_assoc. apply mm_ext; intros k Hk.
      - apply entry_adjoint; lia.
      - apply A1; assumption. }
    rewrite (mm_ext N _ (fun a b => if Nat.eqb a b then C1 else C0) _
               (entry (_actualHiddenState this)) r c).
    + apply mm_delta_l; assumption.
    + intros k Hk. unfold mm. rewrite <- HU.
      apply unitary_columns; congruence.
    + reflexivity.
  - destruct Sh2 as [_ _ _ W2 Wd2 H2], Sh as [_ _ _ W0 Wd0 H0].
    apply matrix_ext; try assumption; try congruence.
    intros r c Hr Hc. rewrite H2 in Hr. rewrite Wd2 in Hc.
    rewrite D2 by assumption.
    set (rho := entry (_inferredStateDensity this)).
    set (u := entry U).
    set (u' := fun k j : nat => Cconj (entry U j k)).
    set (N := (2 ^ n)%nat) in *.
    set (delta := fun a b : nat => if Nat.eqb a b then C1 else C0).
    assert (Dl : forall a b, (a < N)%nat -> (b < N)%nat -> mm N u' u a b = delta a b).
    { intros a b Ha Hb. unfold mm, u', u, delta. rewrite <- HU.
      apply unitary_columns; congruence. }
    transitivity (mm N (mm N u' (mm N (mm N u rho) u')) u r c).
    { apply mm_ext; intros k Hk.
      - apply mm_ext; intros j Hj.
        + apply entry_adjoint; lia.
        + apply D1; assumption.
      - rewrite entry_adjoint by lia. apply Cconj_invol. }
    transitivity (mm N (mm N (mm N u' u) rho) (mm N u' u) r c).
    { rewrite mm_assoc.
      rewrite (mm_ext N u' u' (mm N (mm N (mm N u rho) u') u)
                 (mm N (mm N u rho) (mm N u' u)) r c)
        by (intros; first [reflexivity | apply mm_assoc]).
      rewrite <- mm_assoc.
      apply mm_ext; intros k Hk; [|reflexivity].
      rewrite <- mm_assoc. reflexivity. }
    transitivity (mm N (mm N delta rho) delta r c).
    { apply mm_ext; intros k Hk.
      - apply mm_ext; intros j Hj; [apply Dl; assumption | reflexivity].
      - apply Dl; assumption. }
    unfold delta. rewrite mm_delta_r by assumption. apply mm_delta_l; assumption.
Qed.

Lemma applyOperation_undone_witness :
  shaped 1 born /\ unitary PAULI_X /\ height PAULI_X = (2 ^ 1)%nat /\
  exists this1 this2,
    applyOperation PAULI_X born = (Done tt, this1) /\
    applyOperation (adjoint PAULI_X) this1 = (Done tt, this2) /\
    _actualHiddenState this2 = _actualHiddenState born /\
    _inferredStateDensity this2 = _inferredStateDensity born /\
    _operationCount this2 = (_operationCount born + 2)%Z /\
    _expectedIgnoranceErrors this2 = _expectedIgnoranceErrors born.
Proof.
  split; [exact shaped_born|]. split; [exact unitary_PAULI_X|].
  split; [reflexivity|].
  exact (applyOperation_undone born 1 PAULI_X shaped_born unitary_PAULI_X eq_refl).
Defined.

(** ** The marginal of one qubit *)

Lemma for_range_S {S : Type} (n : nat) (body : S -> nat -> S) (init : S) :
  for_range (Datatypes.S n) body init = body (for_range n body init) n.
Proof.
  unfold for_range. rewrite seq_S, fold_left_app. reflexivity.
Qed.

(** Adding a complex number to one cell of a 2x2 buffer. *)
Lemma cell_add (buf : list R) (a0 b0 : nat) (x y : R) :
  length buf = 8%nat -> (a0 < 2)%nat -> (b0 < 2)%nat ->
  let k0 := ((a0 * 2 + b0) * 2)%nat in
  let nb := upd buf k0 (rd buf k0 + x) in
  let nb' := upd nb (k0 + 1) (rd nb (k0 + 1) + y) in
  length nb' = 8%nat /\
  forall a b, (a < 2)%nat -> (b < 2)%nat ->
    entry (mkMatrix 2 2 nb') a b =
    if Nat.eqb a a0 && Nat.eqb b b0
    then Cplus (entry (mkMatrix 2 2 buf) a b) (x, y)
    else entry (mkMatrix 2 2 buf) a b.
Proof.
  intros L Ha0 Hb0.
  destruct buf as [|x0 [|x1 [|x2 [|x3 [|x4 [|x5 [|x6 [|x7 [|]]]]]]]]];
    try discriminate L.
  assert (Ca : a0 = 0%nat \/ a0 = 1%nat) by lia.
  assert (Cb : b0 = 0%nat \/ b0 = 1%nat) by lia.
  destruct Ca as [-> | ->], Cb as [-> | ->]; (split; [reflexivity|]);
    intros a b Ha Hb;
    assert (Da : a = 0%nat \/ a = 1%nat) by lia;
    assert (Db : b = 0%nat \/ b = 1%nat) by lia;
    destruct Da as [-> | ->], Db as [-> | ->];
    unfold entry, Cplus, rd; simpl; reflexivity.
Qed.

(** A loop that adds to the cells of a 2x2 buffer adds, to each cell, the
    sum of what its rounds add. *)
Lemma cell_loop (n : nat) (step : list R -> nat -> list R)
    (f : nat -> nat -> nat -> C) (buf : list R) :
  (forall buf i, length buf = 8%nat ->
     length (step buf i) = 8%nat /\
     forall a b, (a < 2)%nat -> (b < 2)%nat ->
       entry (mkMatrix 2 2 (step buf i)) a b =
       Cplus (entry (mkMatrix 2 2 buf) a b) (f i a b)) ->
  length buf = 8%nat ->
  length (for_range n step buf) = 8%nat /\
  forall a b, (a < 2)%nat -> (b < 2)%nat ->
    entry (mkMatrix 2 2 (for_range n step buf)) a b =
    Cplus (entry (mkMatrix 2 2 buf) a b) (Csum n (fun i => f i a b)).
Proof.
  intros Step L. induction n as [|n [IL IE]].
  - split; [exact L|]. intros a b _ _. unfold for_range. simpl. cpx.
  - rewrite for_range_S. destruct (Step (for_range n step buf) n IL) as [SL SE].
    split; [exact SL|]. intros a b Ha Hb.
    rewrite SE, IE by assumption. simpl. cpx.
Qed.

Local Open Scope Z_scope.

Lemma js_and_one (x : Z) : js_and x 1 = 0 \/ js_and x 1 = 1.
Proof.
  unfold js_and. rewrite (to_int32_small 1) by lia.
  assert (E : Z.land (to_int32 x) 1 = to_int32 x mod 2)
    by exact (Z.land_ones (to_int32 x) 1 ltac:(lia)).
  rewrite E. pose proof (Z.mod_pos_bound (to_int32 x) 2). lia.
Qed.

Lemma cellBit_lt (k : Z) (i : nat) : (cellBit k i < 2)%nat.
Proof. unfold cellBit. destruct (js_and_one (js_shr (Z.of_nat i) k)); lia. Qed.

Lemma cellBit_bitIndex (k : Z) (i : nat) :
  0 <= k < 31 -> Z.of_nat i < 2 ^ 31 -> cellBit k i = bitIndex k i.
Proof.
  intros Hk Hi. unfold cellBit, bitIndex, bitOf, js_and, js_shr.
  rewrite (to_int32_small 1) by lia.
  rewrite (to_int32_small (Z.of_nat i)) by lia.
  rewrite (Z.mod_small k 32) by lia.
  assert (Hs : 0 <= Z.shiftr (Z.of_nat i) k < 2 ^ 31).
  { rewrite Z.shiftr_div_pow2 by lia. split.
    - apply Z.div_pos; lia.
    - apply Z.div_lt_upper_bound; [lia|]. nia. }
  rewrite (to_int32_small (Z.shiftr (Z.of_nat i) k)) by lia.
  assert (E : Z.land (Z.shiftr (Z.of_nat i) k) 1 = Z.shiftr (Z.of_nat i) k mod 2)
    by exact (Z.land_ones (Z.shiftr (Z.of_nat i) k) 1 ltac:(lia)).
  rewrite E, <- Z.bit0_mod, Z.shiftr_spec by lia. rewrite Z.add_0_l.
  destruct (Z.testbit (Z.of_nat i) k); reflexivity.
Qed.

(** Two indices that pass the test of [traceQubitOutOfDensityMatrix] and
    agree on the traced qubit are the same index. *)
Lemma sameOff_same_bit (k : Z) (r c : nat) :
  0 <= k < 31 -> Z.of_nat r < 2 ^ 31 -> Z.of_nat c < 2 ^ 31 ->
  sameOff k r c && Bool.eqb (bitOf k r) (bitOf k c) = Nat.eqb r c.
Proof.
  intros Hk Hr Hc. unfold sameOff, js_and, js_not.
  rewrite js_shl_one by exact Hk.
  rewrite !(to_int32_small (Z.of_nat _)) by lia.
  rewrite (to_int32_small (2 ^ k))
    by (split; [lia | apply Z.pow_lt_mono_r; lia]).
  assert (Hn : - 2 ^ 31 <= Z.lnot (2 ^ k) < 2 ^ 31).
  { unfold Z.lnot. assert (0 < 2 ^ k < 2 ^ 31)
      by (split; [lia | apply Z.pow_lt_mono_r; lia]). lia. }
  rewrite (to_int32_small _ Hn).
  destruct (Nat.eqb_spec r c) as [-> | NE].
  - rewrite Z.eqb_refl, eqb_reflx. reflexivity.
  - apply andb_false_iff.
    destruct (Z.eqb_spec (Z.land (Z.of_nat r) (Z.lnot (2 ^ k)))
                (Z.land (Z.of_nat c) (Z.lnot (2 ^ k)))) as [E | _]; [|left; reflexivity].
    right. apply eqb_false_iff. intros B. apply NE, Nat2Z.inj.
    apply Z.bits_inj'. intros i Hi.
    destruct (Z.eq_dec i k) as [-> | D]; [exact B|].
    apply (f_equal (fun z => Z.testbit z i)) in E.
    rewrite !Z.land_spec, Z.lnot_spec, Z.pow2_bits_false in E by lia.
    rewrite !andb_true_r in E. exact E.
Qed.

Local Close Scope Z_scope.

(** Each cell of the marginal is the sum of the entries the loop adds to
    it. *)
Lemma traceQubitOut_cells (density : Matrix) (k : Z) :
  wf (traceQubitOutOfDensityMatrix density k) /\
  forall a b, (a < 2)%nat -> (b < 2)%nat ->
    entry (traceQubitOutOfDensityMatrix density k) a b =
    Csum (height density) (fun r => Csum (width density) (fun c =>
      if sameOff k r c && (Nat.eqb a (cellBit k r) && Nat.eqb b (cellBit k c))
      then entry density r c else C0)).
Proof.
  unfold wf, traceQubitOutOfDensityMatrix. cbv zeta. cbn [rawBuffer height width].
  destruct (cell_loop (height density)
    (fun newBuf r =>
      for_range (width density) (fun newBuf c =>
        if negb (Z.eqb (js_and (Z.of_nat r) (js_not (js_shl 1 k)))
                       (js_and (Z.of_nat c) (js_not (js_shl 1 k))))
        then newBuf
        else
          upd (upd newBuf
                 (Z.to_nat ((js_and (js_shr (Z.of_nat r) k) 1 * 2 +
                             js_and (js_shr (Z.of_nat c) k) 1) * 2))
                 (rd newBuf
                    (Z.to_nat ((js_and (js_shr (Z.of_nat r) k) 1 * 2 +
                                js_and (js_shr (Z.of_nat c) k) 1) * 2)) +
                  rd (rawBuffer density) ((r * width density + c) * 2)))
            (Z.to_nat ((js_and (js_shr (Z.of_nat r) k) 1 * 2 +
                        js_and (js_shr (Z.of_nat c) k) 1) * 2) + 1)
            (rd (upd newBuf
                   (Z.to_nat ((js_and (js_shr (Z.of_nat r) k) 1 * 2 +
                               js_and (js_shr (Z.of_nat c) k) 1) * 2))
                   (rd newBuf
                      (Z.to_nat ((js_and (js_shr (Z.of_nat r) k) 1 * 2 +
                                  js_and (js_shr (Z.of_nat c) k) 1) * 2)) +
                    rd (rawBuffer density) ((r * width density + c) * 2)))
                (Z.to_nat ((js_and (js_shr (Z.of_nat r) k) 1 * 2 +
                            js_and (js_shr (Z.of_nat c) k) 1) * 2) + 1) +
             rd (rawBuffer density) ((r * width density + c) * 2 + 1))) newBuf)
    (fun r a b => Csum (width density) (fun c =>
       if sameOff k r c && (Nat.eqb a (cellBit k r) && Nat.eqb b (cellBit k c))
       then entry density r c else C0))
    (repeat 0 8)) as [L E].
  - intros buf r L.
    apply (cell_loop (width density) _
             (fun c a b =>
                if sameOff k r c && (Nat.eqb a (cellBit k r) && Nat.eqb b (cellBit k c))
                then entry density r c else C0) buf); [|exact L].
    clear L buf. intros buf c L. fold (sameOff k r c).
    destruct (sameOff k r c); cbn [negb andb].
    + assert (K : Z.to_nat ((js_and (js_shr (Z.of_nat r) k) 1 * 2 +
                             js_and (js_shr (Z.of_nat c) k) 1) * 2) =
                  ((cellBit k r * 2 + cellBit k c) * 2)%nat).
      { unfold cellBit.
        destruct (js_and_one (js_shr (Z.of_nat r) k)) as [-> | ->],
                 (js_and_one (js_shr (Z.of_nat c) k)) as [-> | ->]; reflexivity. }
      rewrite K.
      destruct (cell_add buf (cellBit k r) (cellBit k c)
                  (rd (rawBuffer density) ((r * width density + c) * 2))
                  (rd (rawBuffer density) ((r * width density + c) * 2 + 1)) L
                  (cellBit_lt k r) (cellBit_lt k c)) as [L' E'].
      cbv zeta in L', E'.
      split; [exact L'|]. intros a' b' Ha' Hb'.
      rewrite (E' a' b' Ha' Hb').
      destruct (Nat.eqb a' (cellBit k r) && Nat.eqb b' (cellBit k c));
        [reflexivity | cpx].
    + split; [exact L|]. intros a' b' _ _. cpx.
  - reflexivity.
  - split; [exact L|]. intros a b Ha Hb. rewrite (E a b Ha Hb).
    assert (Z0 : entry (mkMatrix 2 2 (repeat 0 8)) a b = C0).
    { assert (Da : a = 0%nat \/ a = 1%nat) by lia.
      assert (Db : b = 0%nat \/ b = 1%nat) by lia.
      destruct Da as [-> | ->], Db as [-> | ->]; reflexivity. }
    rewrite Z0. cpx.
Qed.

Lemma entry_traceQubitOut (density : Matrix) (k : Z) (a b : nat) :
  (a < 2)%nat -> (b < 2)%nat ->
  entry (traceQubitOutOfDensityMatrix density k) a b =
  Csum (height density) (fun r => Csum (width density) (fun c =>
    if sameOff k r c && (Nat.eqb a (cellBit k r) && Nat.eqb b (cellBit k c))
    then entry density r c else C0)).
Proof. apply traceQubitOut_cells. Qed.

Lemma wf_traceQubitOut (density : Matrix) (k : Z) :
  wf (traceQubitOutOfDensityMatrix density k).
Proof. apply traceQubitOut_cells. Qed.

Lemma Csum_pick_if (n b : nat) (f : nat -> C) :
  (b < n)%nat ->
  Csum n (fun k => if Nat.eqb b k then f k else C0) = f b.
Proof.
  intros Hb. rewrite <- (Csum_pick n b f Hb). apply Csum_ext. intros k _.
  rewrite (Nat.eqb_sym b k). destruct (Nat.eqb k b); cpx.
Qed.

(** A diagonal cell of the marginal is the sum of the diagonal entries whose
    index has the cell's value at the traced qubit. *)
Lemma traceQubitOut_diag (density : Matrix) (n : nat) (k : Z) (a : nat) :
  width density = (2 ^ n)%nat -> height density = (2 ^ n)%nat ->
  (n <= 31)%nat -> (0 <= k < 31)%Z -> (a < 2)%nat ->
  entry (traceQubitOutOfDensityMatrix density k) a a =
  traceWhere (fun i => Nat.eqb a (bitIndex k i)) density.
Proof.
  intros W H Hn Hk Ha. rewrite entry_traceQubitOut by assumption.
  unfold traceWhere. rewrite W, H. apply Csum_ext. intros r Hr.
  pose proof (pow2_bound n 31 Hn r Hr) as Br.
  rewrite (cellBit_bitIndex k r Hk Br).
  destruct (Nat.eqb_spec a (bitIndex k r)) as [-> | NE].
  - rewrite <- (Csum_pick_if (2 ^ n) r (fun c => entry density r c) Hr).
    apply Csum_ext. intros c Hc.
    pose proof (pow2_bound n 31 Hn c Hc) as Bc.
    rewrite (cellBit_bitIndex k c Hk Bc), bitIndex_eqb.
    cbn [andb]. rewrite (sameOff_same_bit k r c Hk Br Bc). reflexivity.
  - apply Csum_zero. intros c _. rewrite andb_false_r. reflexivity.
Qed.

Lemma Csum_split (n : nat) (p : nat -> bool) (f : nat -> C) :
  Cplus (Csum n (fun i => if p i then f i else C0))
        (Csum n (fun i => if p i then C0 else f i)) = Csum n f.
Proof.
  rewrite <- Csum_plus. apply Csum_ext. intros i _. destruct (p i); cpx.
Qed.

Lemma traceQubitOut_keeps_trace (density : Matrix) (n : nat) (k : Z) :
  width density = (2 ^ n)%nat -> height density = (2 ^ n)%nat ->
  (n <= 31)%nat -> (0 <= k < 31)%Z ->
  trace (traceQubitOutOfDensityMatrix density k) = trace density.
Proof.
  intros W H Hn Hk. rewrite (trace_ok density) by congruence.
  rewrite trace_ok by reflexivity.
  change (height (traceQubitOutOfDensityMatrix density k)) with 2%nat.
  cbn [Csum].
  rewrite !(traceQubitOut_diag density n k) by (assumption || lia).
  f_equal. unfold traceWhere.
  rewrite <- (Csum_split (height density) (fun i => Nat.eqb 0 (bitIndex k i))
                (fun i => entry density i i)).
  replace (Cplus C0 (Csum (height density)
             (fun i => if Nat.eqb 0 (bitIndex k i) then entry density i i else C0)))
    with (Csum (height density)
             (fun i => if Nat.eqb 0 (bitIndex k i) then entry density i i else C0))
    by cpx.
  f_equal. apply Csum_ext. intros i _. unfold bitIndex.
  destruct (bitOf k i); reflexivity.
Qed.

(** The marginal of a qubit has the trace of the matrix it is taken from:
    [traceQubitOutOfDensityMatrix] drops no weight and adds none. *)
Theorem traceQubitOut_trace (density : Matrix) (n : nat) (k : Z) :
  wf density -> width density = (2 ^ n)%nat -> height density = (2 ^ n)%nat ->
  (n <= 31)%nat -> (0 <= k < 31)%Z ->
  wf (traceQubitOutOfDensityMatrix density k) /\
  trace (traceQubitOutOfDensityMatrix density k) = trace density.
Proof.
  intros _ W H Hn Hk. split.
  - apply wf_traceQubitOut.
  - exact (traceQubitOut_keeps_trace density n k W H Hn Hk).
Qed.

Lemma traceQubitOut_trace_witness :
  wf mixed1 /\ width mixed1 = (2 ^ 1)%nat /\ height mixed1 = (2 ^ 1)%nat /\
  (1 <= 31)%nat /\ (0 <= 0 < 31)%Z /\
  wf (traceQubitOutOfDensityMatrix mixed1 0) /\
  trace (traceQubitOutOfDensityMatrix mixed1 0) = trace mixed1.
Proof.
  split; [reflexivity|].
  split; [reflexivity|]. split; [reflexivity|]. split; [lia|]. split; [lia|].
  apply (traceQubitOut_trace mixed1 1 0);
    [reflexivity | reflexivity | reflexivity | lia | lia].
Defined.

(** ** The marginals around a measurement *)

Lemma actualDensity_ok (this : EveQuantumComputer) (n : nat) :
  shaped n this ->
  exists d,
    actualDensity this = Done d /\ wf d /\
    width d = (2 ^ n)%nat /\ height d = (2 ^ n)%nat /\
    forall r c, (r < 2 ^ n)%nat -> (c < 2 ^ n)%nat ->
      entry d r c =
      Cmult (entry (_actualHiddenState this) r 0)
            (Cconj (entry (_actualHiddenState this) c 0)).
Proof.
  intros [W Wd H _ _ _]. unfold actualDensity.
  rewrite times_ok by (change (height (adjoint (_actualHiddenState this)))
                         with (width (_actualHiddenState this)); reflexivity).
  change (width (adjoint (_actualHiddenState this)))
    with (height (_actualHiddenState this)).
  rewrite Wd, H. eexists. split; [reflexivity|].
  split; [apply wf_make|]. split; [apply width_make|]. split; [apply height_make|].
  intros r c Hr Hc. rewrite entry_make by assumption. cbn [Csum].
  rewrite entry_adjoint by lia. cpx.
Qed.

Lemma traceQubitOut_on (density : Matrix) (n : nat) (k : Z) :
  width density = (2 ^ n)%nat -> height density = (2 ^ n)%nat ->
  (n <= 31)%nat -> (0 <= k < 31)%Z ->
  fst (entry (traceQubitOutOfDensityMatrix density k) 1 1) =
  diagWhere (bitOf k) density.
Proof.
  intros W H Hn Hk.
  rewrite (traceQubitOut_diag density n k 1) by (assumption || lia).
  rewrite fst_traceWhere. apply diagWhere_ext. intros i _.
  unfold bitIndex. destruct (bitOf k i); reflexivity.
Qed.

(** [measureQubit(k)] answers "on" when its sample falls below the "on"
    entry of the marginal of qubit [k] of the true state, and the penalty it
    adds is the gap between the "on" entries of the two marginals
    [traceQubitOutOfDensityMatrix] computes from the inferred matrix and
    from the true state. *)
Theorem measureQubit_marginals (this : EveQuantumComputer) (n : nat) (k : Z)
    (random : R) :
  reachable n this -> (n <= 30)%nat -> (0 <= k < Z.of_nat n)%Z -> 0 <= random < 1 ->
  exists d this',
    actualDensity this = Done d /\
    let actualOn := fst (entry (traceQubitOutOfDensityMatrix d k) 1 1) in
    let predictedOn :=
      fst (entry (traceQubitOutOfDensityMatrix (_inferredStateDensity this) k) 1 1) in
    measureQubit k random this = (Done (Rltb random actualOn), this') /\
    _expectedIgnoranceErrors this' =
    _expectedIgnoranceErrors this + Rabs (predictedOn - actualOn).
Proof.
  intros R Hn Hk Hr.
  pose proof (reachable_state_ok n this Hn R) as Ok.
  pose proof (ok_shaped n this Ok) as Sh.
  destruct (actualDensity_ok this n Sh) as (d & Ed & Wd & Dw & Dh & De).
  destruct (measureQubit_plausible this n k random Ok Hn Hk Hr)
    as (this' & E & Sc & _).
  cbv zeta in E, Sc.
  assert (Hk' : (0 <= k < 31)%Z) by lia.
  assert (A : fst (entry (traceQubitOutOfDensityMatrix d k) 1 1) =
              massWhere (bitOf k) (_actualHiddenState this)).
  { rewrite (traceQubitOut_on d n k Dw Dh) by (lia || assumption).
    unfold diagWhere, massWhere.
    rewrite Dh, (actual_height n this Sh). apply Rsum_ext. intros i Hi.
    rewrite (De i i Hi Hi). destruct (bitOf k i); [|reflexivity].
    apply Cmult_conj_real. }
  assert (P : fst (entry (traceQubitOutOfDensityMatrix
                            (_inferredStateDensity this) k) 1 1) =
              diagWhere (bitOf k) (_inferredStateDensity this)).
  { apply (traceQubitOut_on _ n k); [apply Sh | apply Sh | lia | exact Hk']. }
  exists d, this'. split; [exact Ed|]. cbv zeta. rewrite A, P.
  split; [exact E | exact Sc].
Qed.

Lemma measureQubit_marginals_witness :
  reachable 1 born /\ (1 <= 30)%nat /\ (0 <= 0 < Z.of_nat 1)%Z /\ 0 <= 1 / 2 < 1 /\
  exists d this',
    actualDensity born = Done d /\
    let actualOn := fst (entry (traceQubitOutOfDensityMatrix d 0) 1 1) in
    let predictedOn :=
      fst (entry (traceQubitOutOfDensityMatrix (_inferredStateDensity born) 0) 1 1) in
    measureQubit 0 (1 / 2) born = (Done (Rltb (1 / 2) actualOn), this') /\
    _expectedIgnoranceErrors this' =
    _expectedIgnoranceErrors born + Rabs (predictedOn - actualOn).
Proof.
  assert (H2 : (1 <= 30)%nat) by lia.
  assert (H3 : (0 <= 0 < Z.of_nat 1)%Z) by (simpl; lia).
  assert (H4 : 0 <= 1 / 2 < 1) by lra.
  split; [exact reachable_born|]. split; [exact H2|]. split; [exact H3|].
  split; [exact H4|].
  exact (measureQubit_marginals born 1 0 (1 / 2) reachable_born H2 H3 H4).
Defined.

Lemma entry_certain (b : bool) (a c : nat) :
  (a < 2)%nat -> (c < 2)%nat ->
  entry (certain b) a c =
  if Nat.eqb a (if b then 1 else 0)%nat && Nat.eqb c (if b then 1 else 0)%nat
  then C1 else C0.
Proof.
  intros Ha Hc.
  assert (Da : a = 0%nat \/ a = 1%nat) by lia.
  assert (Dc : c = 0%nat \/ c = 1%nat) by lia.
  destruct Da as [-> | ->], Dc as [-> | ->], b; reflexivity.
Qed.

(** The marginal of a qubit of a matrix of trace 1 that is zero outside the
    rows and columns where the qubit is [b]. *)
Lemma traceQubitOut_certain (m : Matrix) (n : nat) (k : Z) (b : bool) :
  width m = (2 ^ n)%nat -> height m = (2 ^ n)%nat ->
  (n <= 31)%nat -> (0 <= k < 31)%Z ->
  (forall r c, (r < 2 ^ n)%nat -> (c < 2 ^ n)%nat ->
     Bool.eqb (bitOf k c) b && Bool.eqb (bitOf k r) b = false -> entry m r c = C0) ->
  trace m = Done C1 ->
  traceQubitOutOfDensityMatrix m k = certain b.
Proof.
  intros W H Hn Hk Zero T.
  rewrite trace_ok in T by congruence. apply Done_inj in T.
  apply matrix_ext; [apply wf_traceQubitOut | destruct b; reflexivity
                    | reflexivity | reflexivity |].
  change (height (traceQubitOutOfDensityMatrix m k)) with 2%nat.
  change (width (traceQubitOutOfDensityMatrix m k)) with 2%nat.
  intros a c Ha Hc. rewrite entry_certain by assumption.
  destruct (Nat.eqb_spec a (if b then 1 else 0)%nat) as [Ea | Na];
    [destruct (Nat.eqb_spec c (if b then 1 else 0)%nat) as [Ec | Nc]|]; cbn [andb].
  - rewrite Ec, <- Ea. rewrite (traceQubitOut_diag m n k a) by assumption.
    rewrite <- T. unfold traceWhere. apply Csum_ext. intros i Hi.
    rewrite H in Hi.
    destruct (Nat.eqb_spec a (bitIndex k i)) as [_ | NE]; [reflexivity|].
    symmetry. apply (Zero i i Hi Hi).
    assert (B : Bool.eqb (bitOf k i) b = false).
    { apply eqb_false_iff. intros <-. apply NE. rewrite Ea. reflexivity. }
    rewrite B. reflexivity.
  - rewrite entry_traceQubitOut by assumption. rewrite H, W.
    apply Csum_zero. intros r Hr. apply Csum_zero. intros c' Hc'.
    rewrite (cellBit_bitIndex k c' Hk (pow2_bound n 31 Hn c' Hc')).
    destruct (Nat.eqb_spec c (bitIndex k c')) as [Ec | _];
      [|rewrite !andb_false_r; reflexivity].
    destruct (sameOff k r c' && (Nat.eqb a (cellBit k r) && true)); [|reflexivity].
    apply (Zero r c' Hr Hc').
    assert (B : Bool.eqb (bitOf k c') b = false).
    { apply eqb_false_iff. intros <-. apply Nc. rewrite Ec. reflexivity. }
    rewrite B. reflexivity.
  - rewrite entry_traceQubitOut by assumption. rewrite H, W.
    apply Csum_zero. intros r Hr. apply Csum_zero. intros c' Hc'.
    rewrite (cellBit_bitIndex k r Hk (pow2_bound n 31 Hn r Hr)).
    destruct (Nat.eqb_spec a (bitIndex k r)) as [Er | _];
      [|rewrite andb_false_r; reflexivity].
    destruct (sameOff k r c' && (true && Nat.eqb c (cellBit k c'))); [|reflexivity].
    apply (Zero r c' Hr Hc').
    assert (B : Bool.eqb (bitOf k r) b = false).
    { apply eqb_false_iff. intros <-. apply Na. rewrite Er. reflexivity. }
    rewrite B. apply andb_false_r.
Qed.

Lemma qubitTraceDistance_self (d : Matrix) : qubitTraceDistance d d = Str "0.0000".
Proof.
  rewrite qubitTraceDistance_eq.
  assert (B : blochDistance d d = 0).
  { unfold blochDistance. destruct (qubitDensityMatrixToBlochVector d) as [[x y] z].
    replace ((x - x) * (x - x) + (y - y) * (y - y) + (z - z) * (z - z)) with 0 by ring.
    apply sqrt_0. }
  rewrite B, toFixed_nonneg by lra.
  assert (N : nearest_scaled (0 / 2) 4 = 0%Z).
  { unfold nearest_scaled. apply Zfloor_eq. simpl. lra. }
  rewrite N. reflexivity.
Qed.

Lemma measureQubit_settles (this this' : EveQuantumComputer) (n : nat) (k : Z)
    (random : R) (result : bool) :
  reachable n this -> (n <= 30)%nat -> (0 <= k < Z.of_nat n)%Z -> 0 <= random < 1 ->
  measureQubit k random this = (Done result, this') ->
  traceQubitOutOfDensityMatrix (_inferredStateDensity this') k = certain result /\
  (exists d, actualDensity this' = Done d /\
             traceQubitOutOfDensityMatrix d k = certain result) /\
  traceDistanceQubit this' k = Done (Str "0.0000").
Proof.
  intros R Hn Hk Hr E.
  pose proof (reachable_state_ok n this Hn R) as Ok.
  destruct (measureQubit_plausible this n k random Ok Hn Hk Hr)
    as (this'' & E' & _ & _ & Sh & _ & _ & Psi & N & Rho & T).
  cbv zeta in E', Psi, Rho. rewrite E in E'.
  injection E' as Eres Ethis. subst this''. rewrite <- Eres in Psi, Rho.
  assert (Hk' : (0 <= k < 31)%Z) by lia.
  assert (Hn' : (n <= 31)%nat) by lia.
  assert (I : traceQubitOutOfDensityMatrix (_inferredStateDensity this') k =
              certain result).
  { apply (traceQubitOut_certain _ n k result); try assumption; try apply Sh.
    intros r c Hr' Hc' B. rewrite (Rho r c Hr' Hc'), B. reflexivity. }
  destruct (actualDensity_ok this' n Sh) as (d & Ed & Wd & Dw & Dh & De).
  assert (A : traceQubitOutOfDensityMatrix d k = certain result).
  { apply (traceQubitOut_certain _ n k result); try assumption.
    - intros r c Hr' Hc' B. rewrite (De r c Hr' Hc'), (Psi r Hr'), (Psi c Hc').
      apply andb_false_iff in B. destruct B as [-> | ->]; [|cpx].
      destruct (Bool.eqb (bitOf k r) result); cpx.
    - rewrite trace_ok by congruence. f_equal. rewrite Dh.
      rewrite Csum_parts. unfold C1. f_equal.
      + rewrite <- N. unfold norm2. rewrite (actual_height n this' Sh).
        apply Rsum_ext. intros i Hi. rewrite (De i i Hi Hi).
        apply Cmult_conj_real.
      + apply Rsum_zero. intros i Hi. rewrite (De i i Hi Hi).
        apply Cmult_conj_real. }
  split; [exact I|]. split; [exists d; split; [exact Ed | exact A]|].
  unfold traceDistanceQubit. rewrite Ed. cbn [bind]. rewrite A, I.
  rewrite qubitTraceDistance_self. reflexivity.
Qed.

(** Right after [measureQubit(k)] returned [result], the marginals of qubit
    [k] of the inferred matrix and of the true state are both the matrix of
    a qubit that is certainly [result], and the distance [redraw] prints for
    qubit [k] is "0.0000": the observer knows the measured qubit. *)
Theorem measureQubit_reveals_qubit (this : EveQuantumComputer) (n : nat)
    (k : Z) (random : R) :
  reachable n this -> (n <= 30)%nat -> (0 <= k < Z.of_nat n)%Z -> 0 <= random < 1 ->
  exists result this',
    measureQubit k random this = (Done result, this') /\
    traceQubitOutOfDensityMatrix (_inferredStateDensity this') k = certain result /\
    (exists d, actualDensity this' = Done d /\
               traceQubitOutOfDensityMatrix d k = certain result) /\
    traceDistanceQubit this' k = Done (Str "0.0000").
Proof.
  intros R Hn Hk Hr.
  destruct (measureQubit_plausible this n k random
              (reachable_state_ok n this Hn R) Hn Hk Hr) as (this' & E & _).
  cbv zeta in E. eexists. exists this'. split; [exact E|].
  exact (measureQubit_settles this this' n k random _ R Hn Hk Hr E).
Qed.

Lemma measureQubit_reveals_qubit_witness :
  reachable 1 born /\ (1 <= 30)%nat /\ (0 <= 0 < Z.of_nat 1)%Z /\ 0 <= 1 / 2 < 1 /\
  exists result this',
    measureQubit 0 (1 / 2) born = (Done result, this') /\
    traceQubitOutOfDensityMatrix (_inferredStateDensity this') 0 = certain result /\
    (exists d, actualDensity this' = Done d /\
               traceQubitOutOfDensityMatrix d 0 = certain result) /\
    traceDistanceQubit this' 0 = Done (Str "0.0000").
Proof.
  assert (H2 : (1 <= 30)%nat) by lia.
  assert (H3 : (0 <= 0 < Z.of_nat 1)%Z) by (simpl; lia).
  assert (H4 : 0 <= 1 / 2 < 1) by lra.
  split; [exact reachable_born|]. split; [exact H2|]. split; [exact H3|].
  split; [exact H4|].
  exact (measureQubit_reveals_qubit born 1 0 (1 / 2) reachable_born H2 H3 H4).
Defined.

Lemma traceQubitOut_outside (density : Matrix) (n : nat) (k : Z) (a b : nat) :
  width density = (2 ^ n)%nat -> height density = (2 ^ n)%nat ->
  (n <= 31)%nat -> (Z.of_nat n <= k < 31)%Z -> (a < 2)%nat -> (b < 2)%nat ->
  entry (traceQubitOutOfDensityMatrix density k) a b =
  if Nat.eqb a 0 && Nat.eqb b 0
  then Csum (2 ^ n) (fun i => entry density i i) else C0.
Proof.
  intros W H Hn Hk Ha Hb.
  assert (Hk' : (0 <= k < 31)%Z) by lia.
  assert (Low : forall i, (i < 2 ^ n)%nat -> bitOf k i = false).
  { intros i Hi. apply bitOf_small; [lia|].
    apply Z.lt_le_trans with (2 ^ Z.of_nat n)%Z.
    - apply (pow2_bound n n (le_n n) i Hi).
    - apply Z.pow_le_mono_r; lia. }
  rewrite entry_traceQubitOut by assumption. rewrite W, H.
  destruct (Nat.eqb_spec a 0) as [-> | Na];
    [destruct (Nat.eqb_spec b 0) as [-> | Nb]|]; cbn [andb].
  - apply Csum_ext. intros r Hr.
    rewrite <- (Csum_pick_if (2 ^ n) r (fun c => entry density r c) Hr).
    apply Csum_ext. intros c Hc.
    pose proof (pow2_bound n 31 Hn r Hr) as Br.
    pose proof (pow2_bound n 31 Hn c Hc) as Bc.
    rewrite <- (sameOff_same_bit k r c Hk' Br Bc).
    rewrite !cellBit_bitIndex by assumption. unfold bitIndex.
    rewrite (Low r Hr), (Low c Hc). cbn [Nat.eqb andb Bool.eqb].
    rewrite !andb_true_r. reflexivity.
  - apply Csum_zero. intros r Hr. apply Csum_zero. intros c Hc.
    rewrite (cellBit_bitIndex k c Hk' (pow2_bound n 31 Hn c Hc)).
    unfold bitIndex. rewrite (Low c Hc).
    destruct b as [|b']; [contradiction|]. cbn [Nat.eqb].
    rewrite !andb_false_r. reflexivity.
  - apply Csum_zero. intros r Hr. apply Csum_zero. intros c Hc.
    rewrite (cellBit_bitIndex k r Hk' (pow2_bound n 31 Hn r Hr)).
    unfold bitIndex. rewrite (Low r Hr).
    destruct a as [|a']; [contradiction|]. cbn [Nat.eqb andb].
    rewrite andb_false_r. reflexivity.
Qed.

(** For a qubit index at or beyond the size of the register (and below 31)
    [traceQubitOutOfDensityMatrix] does not fail: the marginal it returns
    holds the trace of the matrix in its "off" cell and zero elsewhere. *)
Theorem traceQubitOut_beyond_register (density : Matrix) (n : nat) (k : Z) (t : C) :
  wf density -> width density = (2 ^ n)%nat -> height density = (2 ^ n)%nat ->
  (n <= 31)%nat -> (Z.of_nat n <= k < 31)%Z ->
  trace density = Done t ->
  entry (traceQubitOutOfDensityMatrix density k) 0 0 = t /\
  entry (traceQubitOutOfDensityMatrix density k) 0 1 = C0 /\
  entry (traceQubitOutOfDensityMatrix density k) 1 0 = C0 /\
  entry (traceQubitOutOfDensityMatrix density k) 1 1 = C0.
Proof.
  intros _ W H Hn Hk T. rewrite trace_ok in T by congruence.
  apply Done_inj in T. rewrite H in T.
  rewrite !(traceQubitOut_outside density n k) by (assumption || lia).
  cbn [Nat.eqb andb]. auto.
Qed.

Lemma traceQubitOut_beyond_register_witness :
  wf mixed1 /\ width mixed1 = (2 ^ 1)%nat /\ height mixed1 = (2 ^ 1)%nat /\
  (1 <= 31)%nat /\ (Z.of_nat 1 <= 5 < 31)%Z /\
  trace mixed1 = Done (Cplus (Cplus C0 (entry mixed1 0 0)) (entry mixed1 1 1)) /\
  entry (traceQubitOutOfDensityMatrix mixed1 5) 0 0 =
    Cplus (Cplus C0 (entry mixed1 0 0)) (entry mixed1 1 1) /\
  entry (traceQubitOutOfDensityMatrix mixed1 5) 0 1 = C0 /\
  entry (traceQubitOutOfDensityMatrix mixed1 5) 1 0 = C0 /\
  entry (traceQubitOutOfDensityMatrix mixed1 5) 1 1 = C0.
Proof.
  assert (H4 : (Z.of_nat 1 <= 5 < 31)%Z) by (simpl; lia).
  split; [reflexivity|].
  split; [reflexivity|]. split; [reflexivity|]. split; [lia|]. split; [exact H4|].
  split; [reflexivity|].
  apply (traceQubitOut_beyond_register mixed1 1 5);
    [reflexivity | reflexivity | reflexivity | lia | exact H4 | reflexivity].
Defined.

(** ** A target outside the register *)

Lemma bits_below (n r c : nat) :
  (r < 2 ^ n)%nat -> (c < 2 ^ n)%nat ->
  (forall i, (i < n)%nat -> bitOf (Z.of_nat i) r = bitOf (Z.of_nat i) c) -> r = c.
Proof.
  intros Hr Hc Same. apply Nat2Z.inj, Z.bits_inj'. intros i Hi.
  destruct (Z.lt_ge_cases i (Z.of_nat n)) as [Lt | Ge].
  - specialize (Same (Z.to_nat i) ltac:(lia)).
    rewrite Z2Nat.id in Same by lia. exact Same.
  - assert (2 ^ Z.of_nat n <= 2 ^ i)%Z by (apply Z.pow_le_mono_r; lia).
    pose proof (pow2_bound n n (le_n n) r Hr).
    pose proof (pow2_bound n n (le_n n) c Hc).
    change (bitOf i r = bitOf i c). rewrite !bitOf_small by lia. reflexivity.
Qed.

Lemma agreeOff_outside (t : Z) (n : nat) (r c : nat) :
  (t < 0 \/ Z.of_nat n <= t)%Z -> (r < 2 ^ n)%nat -> (c < 2 ^ n)%nat ->
  agreeOff t n r c = Nat.eqb r c.
Proof.
  intros Ht Hr Hc. destruct (Nat.eqb_spec r c) as [-> | NE].
  - apply forallb_seq. intros i _. rewrite eqb_reflx. apply orb_true_r.
  - destruct (agreeOff t n r c) eqn:Ag; [|reflexivity].
    exfalso. apply NE, (bits_below n); try assumption.
    intros i Hi. unfold agreeOff in Ag. rewrite forallb_forall in Ag.
    specialize (Ag i ltac:(apply in_seq; lia)).
    apply orb_true_iff in Ag. destruct Ag as [Ag | Ag].
    + apply Z.eqb_eq in Ag. lia.
    + apply eqb_prop in Ag. exact Ag.
Qed.

(** Asked for a target qubit that is not part of the register, [expandOp]
    does not fail: without controls it returns the identity, whatever the
    operation matrix. *)
Theorem expandOp_target_outside (M : Matrix) (t : Z) (n : nat) :
  width M = 2%nat -> height M = 2%nat -> (n <= 31)%nat ->
  (t < 0 \/ Z.of_nat n <= t)%Z ->
  expandOp M t n [] = identity (2 ^ n).
Proof.
  intros WM HM Hn Ht.
  destruct (expand_dims M t n WM HM) as (Wt & Wd & Hh).
  assert (Wi : width (expandOp M t n []) = (2 ^ n)%nat)
    by (unfold expandOp, controlify; cbn [width]; exact Wd).
  assert (Hi : height (expandOp M t n []) = (2 ^ n)%nat)
    by (unfold expandOp, controlify; cbn [height]; exact Hh).
  apply matrix_ext.
  - unfold expandOp. apply wf_controlify. exact Wt.
  - apply wf_make.
  - rewrite Wi. reflexivity.
  - rewrite Hi. reflexivity.
  - intros r c Hr Hc. rewrite Hi in Hr. rewrite Wi in Hc.
    rewrite entry_expandOp by (try assumption; constructor).
    rewrite entry_identity by assumption.
    cbn [controlsOn forallb andb]. unfold onQubit.
    rewrite agreeOff_outside by assumption.
    destruct (Nat.eqb r c); [|reflexivity].
    destruct (Z.leb_spec 0 t); destruct (Z.ltb_spec t (Z.of_nat n));
      cbn [andb]; try reflexivity; lia.
Qed.

Lemma expandOp_target_outside_witness :
  width PAULI_X = 2%nat /\ height PAULI_X = 2%nat /\ (1 <= 31)%nat /\
  (1 < 0 \/ Z.of_nat 1 <= 1)%Z /\
  expandOp PAULI_X 1 1 [] = identity (2 ^ 1).
Proof.
  assert (H4 : (1 < 0 \/ Z.of_nat 1 <= 1)%Z) by (right; simpl; lia).
  split; [reflexivity|]. split; [reflexivity|]. split; [lia|]. split; [exact H4|].
  apply (expandOp_target_outside PAULI_X 1 1); [reflexivity | reflexivity | lia | exact H4].
Defined.

(** ** Qubits whose value is known *)

Lemma measureQubit_known (this this' : EveQuantumComputer) (n : nat) (k : Z)
    (random : R) (b : bool) :
  state_ok n this -> (n <= 30)%nat -> (0 <= k < Z.of_nat n)%Z -> 0 <= random < 1 ->
  measureQubit k random this = (Done b, this') ->
  settled n k b this'.
Proof.
  intros Ok Hn Hk Hr E.
  destruct (measureQubit_plausible this n k random Ok Hn Hk Hr)
    as (this'' & E' & _ & _ & _ & _ & _ & Psi & _ & Rho & _).
  cbv zeta in E', Psi, Rho. rewrite E in E'.
  injection E' as Eres Ethis. subst this''. rewrite <- Eres in Psi, Rho.
  split.
  - intros i Hi B. rewrite (Psi i Hi).
    destruct (Bool.eqb (bitOf k i) b) eqn:Q; [|reflexivity].
    apply eqb_prop in Q. contradiction.
  - intros r c Hr' Hc' B. rewrite (Rho r c Hr' Hc').
    destruct (Bool.eqb (bitOf k c) b) eqn:Qc; [|reflexivity].
    destruct (Bool.eqb (bitOf k r) b) eqn:Qr; [|reflexivity].
    apply eqb_prop in Qc, Qr. destruct B; contradiction.
Qed.

Lemma measureQubit_keeps_known (this this' : EveQuantumComputer) (n : nat) (k j : Z)
    (random : R) (b b' : bool) :
  state_ok n this -> (n <= 30)%nat -> (0 <= j < Z.of_nat n)%Z -> 0 <= random < 1 ->
  settled n k b this ->
  measureQubit j random this = (Done b', this') ->
  settled n k b this'.
Proof.
  intros Ok Hn Hj Hr [SPsi SRho] E.
  destruct (measureQubit_plausible this n j random Ok Hn Hj Hr)
    as (this'' & E' & _ & _ & _ & _ & _ & Psi & _ & Rho & _).
  cbv zeta in E', Psi, Rho. rewrite E in E'.
  injection E' as Eres Ethis. subst this''.
  split.
  - intros i Hi B. rewrite (Psi i Hi), (SPsi i Hi B), Cscale_C0.
    destruct (Bool.eqb (bitOf j i) _); reflexivity.
  - intros r c Hr' Hc' B. rewrite (Rho r c Hr' Hc'), (SRho r c Hr' Hc' B), Cscale_C0.
    destruct (_ && _); reflexivity.
Qed.

Lemma settled_mass (this : EveQuantumComputer) (n : nat) (k : Z) (b : bool) :
  invariant n this -> settled n k b this ->
  massWhere (bitOf k) (_actualHiddenState this) = (if b then 1 else 0) /\
  diagWhere (bitOf k) (_inferredStateDensity this) = (if b then 1 else 0).
Proof.
  intros [Sh N T _] [SPsi SRho].
  pose proof (actual_height n this Sh) as Ha.
  pose proof (inferred_height n this Sh) as Hi.
  rewrite trace_ok in T by (destruct Sh; congruence).
  apply Done_inj in T. apply (f_equal fst) in T.
  rewrite Csum_parts in T. cbn [fst] in T. change (fst C1) with 1 in T.
  split.
  - destruct b.
    + rewrite <- N. unfold massWhere, norm2. apply Rsum_ext. intros i Hi'.
      rewrite Ha in Hi'. destruct (bitOf k i) eqn:B; [reflexivity|].
      rewrite (SPsi i Hi') by (rewrite B; discriminate).
      unfold Cnorm2, C0. simpl. ring.
    + unfold massWhere. apply Rsum_zero. intros i Hi'. rewrite Ha in Hi'.
      destruct (bitOf k i) eqn:B; [|reflexivity].
      rewrite (SPsi i Hi') by (rewrite B; discriminate).
      unfold Cnorm2, C0. simpl. ring.
  - destruct b.
    + rewrite <- T. unfold diagWhere. apply Rsum_ext. intros i Hi'.
      rewrite Hi in Hi'. destruct (bitOf k i) eqn:B; [reflexivity|].
      rewrite (SRho i i Hi' Hi') by (left; rewrite B; discriminate). reflexivity.
    + unfold diagWhere. apply Rsum_zero. intros i Hi'. rewrite Hi in Hi'.
      destruct (bitOf k i) eqn:B; [|reflexivity].
      rewrite (SRho i i Hi' Hi') by (left; rewrite B; discriminate). reflexivity.
Qed.

Lemma settled_measured_again (this : EveQuantumComputer) (n : nat) (k : Z)
    (random : R) (b : bool) :
  invariant n this -> (n <= 30)%nat -> (0 <= k < Z.of_nat n)%Z -> 0 <= random < 1 ->
  settled n k b this ->
  exists this',
    measureQubit k random this = (Done b, this') /\
    _expectedIgnoranceErrors this' = _expectedIgnoranceErrors this + 0.
Proof.
  intros Inv Hn Hk Hr St.
  destruct (settled_mass this n k b Inv St) as [P Q].
  destruct (measureQubit_plausible this n k random (invariant_state_ok n this Inv)
              Hn Hk Hr) as (this' & E & Sc & _).
  cbv zeta in E, Sc. rewrite P in E. rewrite P, Q in Sc.
  assert (Same : Rltb random (if b then 1 else 0) = b)
    by (destruct b; [apply Rltb_true | apply Rltb_false]; lra).
  rewrite Same in E. exists this'. split; [exact E|]. rewrite Sc. f_equal.
  replace ((if b then 1 else 0) - (if b then 1 else 0)) with 0 by ring.
  apply Rabs_R0.
Qed.

Lemma settled_marginals (this : EveQuantumComputer) (n : nat) (k : Z) (b : bool) :
  invariant n this -> (n <= 31)%nat -> (0 <= k < 31)%Z ->
  settled n k b this ->
  traceQubitOutOfDensityMatrix (_inferredStateDensity this) k = certain b /\
  (exists d, actualDensity this = Done d /\
             traceQubitOutOfDensityMatrix d k = certain b) /\
  traceDistanceQubit this k = Done (Str "0.0000").
Proof.
  intros [Sh N T _] Hn Hk [SPsi SRho].
  assert (I : traceQubitOutOfDensityMatrix (_inferredStateDensity this) k = certain b).
  { apply (traceQubitOut_certain _ n k b); try assumption; try apply Sh.
    intros r c Hr Hc B. apply (SRho r c Hr Hc).
    apply andb_false_iff in B. destruct B as [B | B]; apply eqb_false_iff in B; auto. }
  destruct (actualDensity_ok this n Sh) as (d & Ed & Wd & Dw & Dh & De).
  assert (A : traceQubitOutOfDensityMatrix d k = certain b).
  { apply (traceQubitOut_certain _ n k b); try assumption.
    - intros r c Hr Hc B. rewrite (De r c Hr Hc).
      apply andb_false_iff in B. destruct B as [B | B]; apply eqb_false_iff in B.
      + rewrite (SPsi c Hc B). cpx.
      + rewrite (SPsi r Hr B). cpx.
    - rewrite trace_ok by congruence. f_equal. rewrite Dh.
      rewrite Csum_parts. unfold C1. f_equal.
      + rewrite <- N. unfold norm2. rewrite (actual_height n this Sh).
        apply Rsum_ext. intros i Hi. rewrite (De i i Hi Hi).
        apply Cmult_conj_real.
      + apply Rsum_zero. intros i Hi. rewrite (De i i Hi Hi).
        apply Cmult_conj_real. }
  split; [exact I|]. split; [exists d; split; [exact Ed | exact A]|].
  unfold traceDistanceQubit. rewrite Ed. cbn [bind]. rewrite A, I.
  rewrite qubitTraceDistance_self. reflexivity.
Qed.

(** Once qubit [k] has been measured, measuring any qubit [j] of the
    register leaves the observer's marginal of qubit [k] at the measured
    value and the printed distance at "0.0000"; measuring [k] again returns
    the first result and adds nothing to the misprediction score. *)
Theorem measureQubit_keeps_measured (this : EveQuantumComputer) (n : nat) (k j : Z)
    (random1 random2 random3 : R) :
  reachable n this -> (n <= 30)%nat ->
  (0 <= k < Z.of_nat n)%Z -> (0 <= j < Z.of_nat n)%Z ->
  0 <= random1 < 1 -> 0 <= random2 < 1 -> 0 <= random3 < 1 ->
  exists b b' this1 this2 this3,
    measureQubit k random1 this = (Done b, this1) /\
    measureQubit j random2 this1 = (Done b', this2) /\
    traceQubitOutOfDensityMatrix (_inferredStateDensity this2) k = certain b /\
    traceDistanceQubit this2 k = Done (Str "0.0000") /\
    measureQubit k random3 this2 = (Done b, this3) /\
    _expectedIgnoranceErrors this3 = _expectedIgnoranceErrors this2 + 0.
Proof.
  intros R Hn Hk Hj H1 H2 H3.
  pose proof (reachable_invariant n this Hn R) as Inv.
  pose proof (invariant_state_ok n this Inv) as Ok.
  destruct (measureQubit_plausible this n k random1 Ok Hn Hk H1) as (this1 & E1 & _).
  cbv zeta in E1.
  pose proof (measureQubit_invariant n k random1 _ this this1 Inv Hn H1 E1) as Inv1.
  pose proof (invariant_state_ok n this1 Inv1) as Ok1.
  pose proof (measureQubit_known this this1 n k random1 _ Ok Hn Hk H1 E1) as St1.
  destruct (measureQubit_plausible this1 n j random2 Ok1 Hn Hj H2) as (this2 & E2 & _).
  cbv zeta in E2.
  pose proof (measureQubit_invariant n j random2 _ this1 this2 Inv1 Hn H2 E2) as Inv2.
  pose proof (measureQubit_keeps_known this1 this2 n k j random2 _ _ Ok1 Hn Hj H2
                St1 E2) as St2.
  destruct (settled_marginals this2 n k _ Inv2 ltac:(lia) ltac:(lia) St2)
    as (I & _ & D).
  destruct (settled_measured_again this2 n k random3 _ Inv2 Hn Hk H3 St2)
    as (this3 & E3 & Sc).
  eexists _, _, this1, this2, this3.
  split; [exact E1|]. split; [exact E2|]. split; [exact I|]. split; [exact D|].
  split; [exact E3 | exact Sc].
Qed.

Lemma measureQubit_keeps_measured_witness :
  reachable 1 born /\ (1 <= 30)%nat /\
  (0 <= 0 < Z.of_nat 1)%Z /\ (0 <= 0 < Z.of_nat 1)%Z /\
  0 <= 1 / 2 < 1 /\ 0 <= 1 / 4 < 1 /\ 0 <= 3 / 4 < 1 /\
  exists b b' this1 this2 this3,
    measureQubit 0 (1 / 2) born = (Done b, this1) /\
    measureQubit 0 (1 / 4) this1 = (Done b', this2) /\
    traceQubitOutOfDensityMatrix (_inferredStateDensity this2) 0 = certain b /\
    traceDistanceQubit this2 0 = Done (Str "0.0000") /\
    measureQubit 0 (3 / 4) this2 = (Done b, this3) /\
    _expectedIgnoranceErrors this3 = _expectedIgnoranceErrors this2 + 0.
Proof.
  assert (H2 : (1 <= 30)%nat) by lia.
  assert (H3 : (0 <= 0 < Z.of_nat 1)%Z) by (simpl; lia).
  assert (R1 : 0 <= 1 / 2 < 1) by lra.
  assert (R2 : 0 <= 1 / 4 < 1) by lra.
  assert (R3 : 0 <= 3 / 4 < 1) by lra.
  split; [exact reachable_born|]. split; [exact H2|]. split; [exact H3|].
  split; [exact H3|]. split; [exact R1|]. split; [exact R2|]. split; [exact R3|].
  exact (measureQubit_keeps_measured born 1 0 0 (1 / 2) (1 / 4) (3 / 4)
           reachable_born H2 H3 H3 R1 R2 R3).
Defined.

(** The expansion of a 2x2 matrix with a zero diagonal has no entry between
    two indices that agree on the target qubit. *)
Lemma flip_entries (M : Matrix) (k : Z) (n : nat) (r c : nat) :
  width M = 2%nat -> height M = 2%nat ->
  entry M 0 0 = C0 -> entry M 1 1 = C0 ->
  (n <= 31)%nat -> (0 <= k < Z.of_nat n)%Z ->
  (r < 2 ^ n)%nat -> (c < 2 ^ n)%nat ->
  bitOf k r = bitOf k c ->
  entry (expandOp M k n []) r c = C0.
Proof.
  intros WM HM M0 M1 Hn Hk Hr Hc B.
  rewrite entry_expandOp by (try assumption; constructor).
  cbn [controlsOn forallb andb]. unfold onQubit.
  destruct (agreeOff k n r c); [|reflexivity].
  destruct (Z.leb_spec 0 k); [|lia]. destruct (Z.ltb_spec k (Z.of_nat n)); [|lia].
  cbn [andb]. unfold bitIndex. rewrite B. destruct (bitOf k c); assumption.
Qed.

Lemma applyOperation_flips (this : EveQuantumComputer) (n : nat) (k : Z) (M : Matrix)
    (b : bool) :
  invariant n this -> (n <= 30)%nat -> (0 <= k < Z.of_nat n)%Z ->
  unitary M -> width M = 2%nat -> entry M 0 0 = C0 -> entry M 1 1 = C0 ->
  settled n k b this ->
  exists this',
    applyOperation (expandOp M k n []) this = (Done tt, this') /\
    invariant n this' /\ settled n k (negb b) this' /\
    _operationCount this' = (_operationCount this + 1)%Z /\
    _expectedIgnoranceErrors this' = _expectedIgnoranceErrors this.
Proof.
  intros Inv Hn Hk UM WM M0 M1 [SPsi SRho].
  pose proof (inv_shaped n this Inv) as Sh.
  assert (HM : height M = 2%nat) by (rewrite <- (unitary_square M UM); exact WM).
  assert (UU : unitary (expandOp M k n []))
    by (apply expandOp_unitary; try assumption; try lia; [constructor | intros []]).
  assert (HU : height (expandOp M k n []) = (2 ^ n)%nat).
  { destruct (expand_dims M k n WM HM) as (_ & _ & Hh).
    unfold expandOp, controlify; cbn [height]. exact Hh. }
  destruct (applyOperation_shaped this (expandOp M k n []) n Sh UU HU)
    as (this' & E & Sh' & Cn & Sc & Psi & Rho).
  exists this'. split; [exact E|].
  split; [exact (applyOperation_invariant n _ this this' Inv UU E)|].
  split; [|split; assumption].
  assert (Zero : forall r c, (r < 2 ^ n)%nat -> (c < 2 ^ n)%nat ->
                   bitOf k r = bitOf k c -> entry (expandOp M k n []) r c = C0)
    by (intros; apply flip_entries; try assumption; lia).
  assert (Half : forall r a, (r < 2 ^ n)%nat -> (a < 2 ^ n)%nat -> bitOf k r = b ->
            mm (2 ^ n) (entry (expandOp M k n []))
               (entry (_inferredStateDensity this)) r a = C0).
  { intros r a Hr Ha B. apply Csum_zero. intros j Hj.
    destruct (bool_dec (bitOf k j) b) as [Bj | Bj].
    - rewrite (Zero r j Hr Hj) by congruence. apply Cmult_C0_l.
    - rewrite (SRho j a Hj Ha) by (left; exact Bj). apply Cmult_C0_r. }
  split.
  - intros i Hi B. rewrite (Psi i 0%nat Hi ltac:(lia)).
    assert (Bi : bitOf k i = b) by (destruct (bitOf k i), b; simpl in B; congruence).
    apply Csum_zero. intros j Hj.
    destruct (bool_dec (bitOf k j) b) as [Bj | Bj].
    + rewrite (Zero i j Hi Hj) by congruence. apply Cmult_C0_l.
    + rewrite (SPsi j Hj Bj). apply Cmult_C0_r.
  - intros r c Hr Hc B. rewrite (Rho r c Hr Hc).
    apply Csum_zero. intros a Ha.
    destruct B as [B | B].
    + assert (Br : bitOf k r = b) by (destruct (bitOf k r), b; simpl in B; congruence).
      fold (mm (2 ^ n) (entry (expandOp M k n []))
              (entry (_inferredStateDensity this)) r a).
      rewrite (Half r a Hr Ha Br). apply Cmult_C0_l.
    + assert (Bc : bitOf k c = b) by (destruct (bitOf k c), b; simpl in B; congruence).
      destruct (bool_dec (bitOf k a) b) as [Ba | Ba].
      * rewrite (Zero c a Hc Ha) by congruence.
        replace (Cconj C0) with C0 by cpx. apply Cmult_C0_r.
      * assert (In0 : mm (2 ^ n) (entry (expandOp M k n []))
                        (entry (_inferredStateDensity this)) r a = C0).
        { apply Csum_zero. intros j Hj.
          rewrite (SRho j a Hj Ha) by (right; exact Ba). apply Cmult_C0_r. }
        fold (mm (2 ^ n) (entry (expandOp M k n []))
                (entry (_inferredStateDensity this)) r a).
        rewrite In0. apply Cmult_C0_l.
Qed.

(** ** The driver loop *)

Lemma andThen_done {A B : Type} (m : method A) (k : A -> method B)
    (this this' : EveQuantumComputer) (a : A) :
  m this = (Done a, this') -> Main.andThen m k this = k a this'.
Proof. intros E. unfold Main.andThen. rewrite E. reflexivity. Qed.

Lemma gate_step (qpu0 qpu : EveQuantumComputer) (n : nat) (M : Matrix) (t : Z)
    (controls : list Z) :
  shaped n qpu0 -> reachable n qpu -> (n <= 30)%nat ->
  unitary M -> width M = 2%nat ->
  Forall (fun e => (0 <= e < 31)%Z) controls -> ~ In t controls ->
  exists qpu',
    applyOperation (expandOperation qpu0 M t controls) qpu = (Done tt, qpu') /\
    reachable n qpu' /\
    _operationCount qpu' = (_operationCount qpu + 1)%Z /\
    _expectedIgnoranceErrors qpu' = _expectedIgnoranceErrors qpu.
Proof.
  intros Sh0 R Hn UM WM Hl Nt.
  assert (HM : height M = 2%nat) by (rewrite <- (unitary_square M UM); exact WM).
  rewrite (expandOperation_register qpu0 n M t controls (actual_height n qpu0 Sh0)).
  assert (UU : unitary (expandOp M t n controls))
    by (apply expandOp_unitary; try assumption; lia).
  assert (HU : height (expandOp M t n controls) = (2 ^ n)%nat).
  { destruct (expand_dims M t n WM HM) as (_ & _ & Hh).
    unfold expandOp, controlify; cbn [height]. exact Hh. }
  pose proof (inv_shaped n qpu (reachable_invariant n qpu Hn R)) as Sh.
  destruct (applyOperation_shaped qpu (expandOp M t n controls) n Sh UU HU)
    as (qpu' & E & _ & Cn & Sc & _).
  exists qpu'. split; [exact E|].
  split; [exact (reach_applyOperation n _ qpu qpu' R UU E)|].
  split; assumption.
Qed.

Lemma measure_step (qpu : EveQuantumComputer) (n : nat) (k : Z) (random : R) :
  reachable n qpu -> (n <= 30)%nat -> (0 <= k < Z.of_nat n)%Z -> 0 <= random < 1 ->
  let result := Rltb random (massWhere (bitOf k) (_actualHiddenState qpu)) in
  exists qpu',
    measureQubit k random qpu = (Done result, qpu') /\
    reachable n qpu' /\
    _operationCount qpu' = (_operationCount qpu + 1)%Z /\
    _expectedIgnoranceErrors qpu <= _expectedIgnoranceErrors qpu' /\
    settled n k result qpu'.
Proof.
  intros R Hn Hk Hr result.
  pose proof (reachable_state_ok n qpu Hn R) as Ok.
  destruct (measureQubit_plausible qpu n k random Ok Hn Hk Hr)
    as (qpu' & E & Sc & Cn & _).
  cbv zeta in E, Sc. fold result in E.
  exists qpu'. split; [exact E|].
  split; [exact (reach_measureQubit n k random result qpu qpu' R Hr E)|].
  split; [exact Cn|].
  split.
  - rewrite Sc.
    pose proof (Rabs_pos (diagWhere (bitOf k) (_inferredStateDensity qpu) -
                          massWhere (bitOf k) (_actualHiddenState qpu))). lra.
  - exact (measureQubit_known qpu qpu' n k random result Ok Hn Hk Hr E).
Qed.

Lemma loopBody_steps (HADAMARD yRotation xRotation confounding : Matrix)
    (qpu0 qpu : EveQuantumComputer) (random1 random2 random3 : R) :
  unitary HADAMARD -> width HADAMARD = 2%nat ->
  unitary yRotation -> width yRotation = 2%nat ->
  unitary xRotation -> width xRotation = 2%nat ->
  unitary confounding -> width confounding = 2%nat ->
  shaped 4 qpu0 -> reachable 4 qpu ->
  0 <= random1 < 1 -> 0 <= random3 < 1 ->
  let measured := Rltb random1 (massWhere (bitOf 0) (_actualHiddenState qpu)) in
  let generatedEntropy :=
    if Rltb random2 (3 / 10) then negb measured else measured in
  exists (measureResult : bool) (qpu' : EveQuantumComputer),
    Main.loopBody HADAMARD yRotation xRotation confounding qpu0
      random1 random2 random3 qpu = (Done tt, qpu') /\
    reachable 4 qpu' /\
    _operationCount qpu' =
      (_operationCount qpu + 6 + (if generatedEntropy then 2 else 0)
       + (if measureResult then 1 else 0))%Z /\
    _expectedIgnoranceErrors qpu <= _expectedIgnoranceErrors qpu' /\
    traceQubitOutOfDensityMatrix (_inferredStateDensity qpu') 3 = certain false /\
    traceDistanceQubit qpu' 3 = Done (Str "0.0000").
Proof.
  intros UH WH UY WY UX WX UC WC Sh0 R H1 H3 measured generatedEntropy.
  assert (Hn : (4 <= 30)%nat) by lia.
  assert (K0 : (0 <= 0 < Z.of_nat 4)%Z) by (simpl; lia).
  assert (K3 : (0 <= 3 < Z.of_nat 4)%Z) by (simpl; lia).
  assert (L0 : Forall (fun e => (0 <= e < 31)%Z) []) by constructor.
  assert (L1 : Forall (fun e => (0 <= e < 31)%Z) [1%Z]) by (repeat constructor; lia).
  assert (L2 : Forall (fun e => (0 <= e < 31)%Z) [2%Z]) by (repeat constructor; lia).
  assert (WP : width PAULI_X = 2%nat) by reflexivity.
  destruct (measure_step qpu 4 0 random1 R Hn K0 H1) as (q1 & E1 & R1 & C1' & S1 & _).
  cbv zeta in E1. fold measured in E1.
  assert (Branch : exists q2,
            (if generatedEntropy
             then Main.andThen (applyOperation (Main.SMALL_Y_ROT_1 yRotation qpu0))
                    (fun _ => applyOperation (Main.X0 qpu0))
             else Main.skip) q1 = (Done tt, q2) /\
            reachable 4 q2 /\
            _operationCount q2 =
              (_operationCount q1 + (if generatedEntropy then 2 else 0))%Z /\
            _expectedIgnoranceErrors q2 = _expectedIgnoranceErrors q1).
  { destruct generatedEntropy.
    - destruct (gate_step qpu0 q1 4 yRotation 1 [] Sh0 R1 Hn UY WY L0 ltac:(intros []))
        as (qa & Ea & Ra & Ca & Sa).
      destruct (gate_step qpu0 qa 4 PAULI_X 0 [] Sh0 Ra Hn unitary_PAULI_X WP L0
                  ltac:(intros [])) as (qb & Eb & Rb & Cb & Sb).
      exists qb. split; [|split; [exact Rb|split; [lia|congruence]]].
      rewrite (andThen_done _ _ q1 qa tt Ea). exact Eb.
    - exists q1. split; [reflexivity|]. split; [exact R1|]. split; [lia|reflexivity]. }
  destruct Branch as (q2 & E2 & R2 & C2' & S2).
  destruct (gate_step qpu0 q2 4 HADAMARD 0 [] Sh0 R2 Hn UH WH L0 ltac:(intros []))
    as (q3 & E3 & R3 & C3' & S3).
  destruct (gate_step qpu0 q3 4 xRotation 2 [1%Z] Sh0 R3 Hn UX WX L1
              ltac:(intros [D | []]; discriminate D)) as (q4 & E4 & R4 & C4' & S4).
  destruct (gate_step qpu0 q4 4 PAULI_X 3 [2%Z] Sh0 R4 Hn unitary_PAULI_X WP L2
              ltac:(intros [D | []]; discriminate D)) as (q5 & E5 & R5 & C5' & S5).
  destruct (gate_step qpu0 q5 4 confounding 3 [] Sh0 R5 Hn UC WC L0 ltac:(intros []))
    as (q6 & E6 & R6 & C6' & S6).
  destruct (measure_step q6 4 3 random3 R6 Hn K3 H3) as (q7 & E7 & R7 & C7' & S7 & St7).
  cbv zeta in E7, St7.
  set (measureResult := Rltb random3 (massWhere (bitOf 3) (_actualHiddenState q6))) in *.
  pose proof (reachable_invariant 4 q7 Hn R7) as Inv7.
  assert (Clear : exists q8,
            (if measureResult then applyOperation (Main.X3 qpu0) else Main.skip) q7 =
              (Done tt, q8) /\
            reachable 4 q8 /\ settled 4 3 false q8 /\
            _operationCount q8 =
              (_operationCount q7 + (if measureResult then 1 else 0))%Z /\
            _expectedIgnoranceErrors q8 = _expectedIgnoranceErrors q7).
  { destruct measureResult.
    - destruct (applyOperation_flips q7 4 3 PAULI_X true Inv7 Hn K3 unitary_PAULI_X WP
                  eq_refl eq_refl St7) as (q8 & E8 & _ & St8 & C8' & S8).
      unfold Main.X3.
      rewrite (expandOperation_register qpu0 4 PAULI_X 3 [] (actual_height 4 qpu0 Sh0)).
      exists q8. split; [exact E8|].
      split; [|split; [exact St8|split; [exact C8' | exact S8]]].
      apply (reach_applyOperation 4 (expandOp PAULI_X 3 4 []) q7 q8 R7); [|exact E8].
      apply expandOp_unitary; try assumption; try lia;
        [exact unitary_PAULI_X | intros []].
    - exists q7. split; [reflexivity|]. split; [exact R7|]. split; [exact St7|].
      split; [lia | reflexivity]. }
  destruct Clear as (q8 & E8 & R8 & St8 & C8' & S8).
  destruct (settled_marginals q8 4 3 false (reachable_invariant 4 q8 Hn R8)
              ltac:(lia) ltac:(lia) St8) as (I & _ & D).
  exists measureResult, q8.
  split.
  - unfold Main.loopBody.
    rewrite (andThen_done _ _ qpu q1 measured E1). fold generatedEntropy.
    rewrite (andThen_done _ _ q1 q2 tt E2).
    rewrite (andThen_done _ _ q2 q3 tt E3).
    rewrite (andThen_done _ _ q3 q4 tt E4).
    rewrite (andThen_done _ _ q4 q5 tt E5).
    rewrite (andThen_done _ _ q5 q6 tt E6).
    rewrite (andThen_done _ _ q6 q7 measureResult E7).
    exact E8.
  - split; [exact R8|]. split; [lia|]. split; [lra|]. split; [exact I | exact D].
Qed.

Lemma norm2_basisCol (h b : nat) : (b < h)%nat -> norm2 (basisCol h b) = 1.
Proof.
  intros Hb. unfold norm2. change (height (basisCol h b)) with h.
  rewrite (Rsum_ext _ _ (fun i => fst (Cmult C1 (if Nat.eqb i b then C1 else C0)))).
  - pose proof (Csum_pick h b (fun _ => C1) Hb) as P.
    apply (f_equal fst) in P. rewrite Csum_parts in P. exact P.
  - intros i Hi. rewrite entry_basisCol by exact Hi.
    destruct (Nat.eqb i b); unfold Cnorm2, Cmult, C1, C0; simpl; ring.
Qed.

Lemma reachable_started (n : nat) : reachable n (started n).
Proof.
  assert (P : (0 < 2 ^ n)%nat) by (apply Nat.neq_0_lt_0, Nat.pow_nonzero; lia).
  apply (reach_constructor n (basisCol (2 ^ n) 0)).
  - apply wf_make.
  - reflexivity.
  - rewrite constructor_valid.
    + destruct (Req_dec_T (norm2 (basisCol (2 ^ n) 0)) 0) as [Z | _]; [|reflexivity].
      rewrite norm2_basisCol in Z by exact P. lra.
    + apply isPowerOf2_spec. exists n. reflexivity.
    + reflexivity.
Qed.

Lemma shaped_started (n : nat) : (n <= 30)%nat -> shaped n (started n).
Proof.
  intros Hn. apply (inv_shaped n), reachable_invariant;
    [exact Hn | apply reachable_started].
Qed.

Lemma rounds_steps (HADAMARD yRotation xRotation confounding : Matrix)
    (qpu0 : EveQuantumComputer) (samples : list (R * R * R)) :
  unitary HADAMARD -> width HADAMARD = 2%nat ->
  unitary yRotation -> width yRotation = 2%nat ->
  unitary xRotation -> width xRotation = 2%nat ->
  unitary confounding -> width confounding = 2%nat ->
  shaped 4 qpu0 ->
  Forall (fun s => 0 <= fst (fst s) < 1 /\ 0 <= snd s < 1) samples ->
  forall qpu, reachable 4 qpu ->
  exists qpu',
    Main.rounds HADAMARD yRotation xRotation confounding qpu0 samples qpu =
      (repeat (Done tt) (length samples), qpu') /\
    reachable 4 qpu' /\
    (_operationCount qpu + 6 * Z.of_nat (length samples) <= _operationCount qpu'
     <= _operationCount qpu + 9 * Z.of_nat (length samples))%Z /\
    _expectedIgnoranceErrors qpu <= _expectedIgnoranceErrors qpu' /\
    (samples <> [] ->
     traceQubitOutOfDensityMatrix (_inferredStateDensity qpu') 3 = certain false /\
     traceDistanceQubit qpu' 3 = Done (Str "0.0000")).
Proof.
  intros UH WH UY WY UX WX UC WC Sh0 Hs.
  induction Hs as [|[[random1 random2] random3] rest [H1 H3] Hrest IH]; intros qpu R.
  - exists qpu. split; [reflexivity|]. split; [exact R|].
    split; [simpl; lia|]. split; [lra|]. intros N. contradiction.
  - cbn [fst snd] in H1, H3.
    destruct (loopBody_steps HADAMARD yRotation xRotation confounding qpu0 qpu
                random1 random2 random3 UH WH UY WY UX WX UC WC Sh0 R H1 H3)
      as (measureResult & q1 & E1 & R1 & C1' & S1 & I1 & D1).
    destruct (IH q1 R1) as (q2 & E2 & R2 & C2' & S2 & Last).
    exists q2. split.
    + cbn [Main.rounds]. rewrite E1, E2. reflexivity.
    + split; [exact R2|]. split.
      * cbn [length]. rewrite Nat2Z.inj_succ.
        destruct (if Rltb random2 (3 / 10)
                  then negb (Rltb random1
                               (massWhere (bitOf 0) (_actualHiddenState qpu)))
                  else Rltb random1 (massWhere (bitOf 0) (_actualHiddenState qpu))),
                 measureResult; lia.
      * split; [lra|]. intros _.
        destruct rest as [|s rest'].
        -- cbn [Main.rounds] in E2.
           injection E2 as <-. split; assumption.
        -- apply Last. discriminate.
Qed.

(** However many times the timer of [drawLoop] calls the loop body on a
    reachable four-qubit simulator, no call throws and the simulator stays
    reachable; each call counts between six and nine operations, the
    misprediction score never decreases, and after the last call qubit 3 is
    off in the observer's marginal. *)
Theorem rounds_run (HADAMARD yRotation xRotation confounding : Matrix)
    (qpu0 qpu : EveQuantumComputer) (samples : list (R * R * R)) :
  unitary HADAMARD -> width HADAMARD = 2%nat ->
  unitary yRotation -> width yRotation = 2%nat ->
  unitary xRotation -> width xRotation = 2%nat ->
  unitary confounding -> width confounding = 2%nat ->
  shaped 4 qpu0 -> reachable 4 qpu ->
  Forall (fun s => 0 <= fst (fst s) < 1 /\ 0 <= snd s < 1) samples ->
  exists qpu',
    Main.rounds HADAMARD yRotation xRotation confounding qpu0 samples qpu =
      (repeat (Done tt) (length samples), qpu') /\
    reachable 4 qpu' /\
    (_operationCount qpu + 6 * Z.of_nat (length samples) <= _operationCount qpu'
     <= _operationCount qpu + 9 * Z.of_nat (length samples))%Z /\
    _expectedIgnoranceErrors qpu <= _expectedIgnoranceErrors qpu' /\
    (samples <> [] ->
     traceQubitOutOfDensityMatrix (_inferredStateDensity qpu') 3 = certain false /\
     traceDistanceQubit qpu' 3 = Done (Str "0.0000")).
Proof.
  intros UH WH UY WY UX WX UC WC Sh0 R Hs.
  exact (rounds_steps HADAMARD yRotation xRotation confounding qpu0 samples
           UH WH UY WY UX WX UC WC Sh0 Hs qpu R).
Qed.

Lemma rounds_run_witness :
  unitary PAULI_X /\ width PAULI_X = 2%nat /\
  shaped 4 (started 4) /\ reachable 4 (started 4) /\
  Forall (fun s => 0 <= fst (fst s) < 1 /\ 0 <= snd s < 1)
    [(1 / 2, 1 / 4, 1 / 2); (1 / 4, 1 / 2, 3 / 4)] /\
  exists qpu',
    Main.rounds PAULI_X PAULI_X PAULI_X PAULI_X (started 4)
      [(1 / 2, 1 / 4, 1 / 2); (1 / 4, 1 / 2, 3 / 4)] (started 4) =
      (repeat (Done tt) (length [(1 / 2, 1 / 4, 1 / 2); (1 / 4, 1 / 2, 3 / 4)]),
       qpu') /\
    reachable 4 qpu' /\
    (_operationCount (started 4) +
       6 * Z.of_nat (length [(1 / 2, 1 / 4, 1 / 2); (1 / 4, 1 / 2, 3 / 4)])
     <= _operationCount qpu'
     <= _operationCount (started 4) +
       9 * Z.of_nat (length [(1 / 2, 1 / 4, 1 / 2); (1 / 4, 1 / 2, 3 / 4)]))%Z /\
    _expectedIgnoranceErrors (started 4) <= _expectedIgnoranceErrors qpu' /\
    ([(1 / 2, 1 / 4, 1 / 2); (1 / 4, 1 / 2, 3 / 4)] <> [] ->
     traceQubitOutOfDensityMatrix (_inferredStateDensity qpu') 3 = certain false /\
     traceDistanceQubit qpu' 3 = Done (Str "0.0000")).
Proof.
  assert (Hs : shaped 4 (started 4)) by (apply shaped_started; lia).
  assert (Hf : Forall (fun s => 0 <= fst (fst s) < 1 /\ 0 <= snd s < 1)
                 [(1 / 2, 1 / 4, 1 / 2); (1 / 4, 1 / 2, 3 / 4)])
    by (repeat constructor; simpl; lra).
  split; [exact unitary_PAULI_X|]. split; [reflexivity|]. split; [exact Hs|].
  split; [exact (reachable_started 4)|]. split; [exact Hf|].
  exact (rounds_run PAULI_X PAULI_X PAULI_X PAULI_X (started 4) (started 4)
           [(1 / 2, 1 / 4, 1 / 2); (1 / 4, 1 / 2, 3 / 4)]
           unitary_PAULI_X eq_refl unitary_PAULI_X eq_refl
           unitary_PAULI_X eq_refl unitary_PAULI_X eq_refl
           Hs (reachable_started 4) Hf).
Defined.

(** ** What the observer knows at the start *)

Lemma Rsum_app (a b : nat) (f : nat -> R) :
  Rsum (a + b) f = Rsum a f + Rsum b (fun i => f (a + i)%nat).
Proof.
  induction b as [|b IH].
  - rewrite Nat.add_0_r. simpl. ring.
  - rewrite Nat.add_succ_r. simpl. rewrite IH. ring.
Qed.

Local Open Scope Z_scope.

Lemma testbit_above (m k i : Z) :
  0 <= k < m -> 0 <= i -> Z.testbit (2 ^ m + i) k = Z.testbit i k.
Proof.
  intros Hk Hi. rewrite !Z.testbit_odd, !Z.shiftr_div_pow2 by lia.
  replace (2 ^ m) with (2 ^ (m - k) * 2 ^ k)
    by (rewrite <- Z.pow_add_r by lia; f_equal; lia).
  rewrite Z.div_add_l by lia. rewrite Z.odd_add, Z.odd_pow by lia.
  reflexivity.
Qed.

Lemma testbit_top (m i : Z) :
  0 <= m -> 0 <= i < 2 ^ m -> Z.testbit (2 ^ m + i) m = true.
Proof.
  intros Hm Hi. rewrite Z.testbit_odd, Z.shiftr_div_pow2 by lia.
  replace (2 ^ m + i) with (1 * 2 ^ m + i) by ring.
  rewrite Z.div_add_l, Z.div_small by lia. reflexivity.
Qed.

Local Close Scope Z_scope.

(** Half of the basis indices of a register have a given qubit on. *)
Lemma count_bit (k n : nat) :
  (k < n)%nat ->
  Rsum (2 ^ n) (fun i => if bitOf (Z.of_nat k) i then 1 else 0) = INR (2 ^ n) / 2.
Proof.
  induction n as [|m IH]; intros Hk; [lia|].
  assert (E : (2 ^ S m = 2 ^ m + 2 ^ m)%nat) by (simpl; lia).
  rewrite E, Rsum_app, plus_INR.
  destruct (Nat.eq_dec k m) as [-> | NE].
  - rewrite (Rsum_zero (2 ^ m)), (Rsum_ext _ _ (fun _ => 1)), Rsum_const_one.
    + field.
    + intros i Hi. unfold bitOf. rewrite Nat2Z.inj_add, Nat2Z.inj_pow.
      change (Z.of_nat 2) with 2%Z. rewrite testbit_top; [reflexivity | lia |].
      pose proof (pow2_bound m m (le_n m) i Hi). lia.
    + intros i Hi. rewrite bitOf_small; [reflexivity | lia |].
      apply (pow2_bound m m (le_n m) i Hi).
  - rewrite IH by lia.
    rewrite (Rsum_ext _ _ (fun i => if bitOf (Z.of_nat k) i then 1 else 0)).
    + rewrite IH by lia. field.
    + intros i Hi. unfold bitOf. rewrite Nat2Z.inj_add, Nat2Z.inj_pow.
      change (Z.of_nat 2) with 2%Z. rewrite testbit_above by lia. reflexivity.
Qed.

Lemma constructor_fields (n : nat) (v : Matrix) (this : EveQuantumComputer) :
  height v = (2 ^ n)%nat -> constructor v = Done this ->
  _inferredStateDensity this = timesScalar (identity (2 ^ n)) (1 / INR (2 ^ n)) /\
  _actualHiddenState this = timesScalar v (1 / sqrt (norm2 v)) /\
  norm2 v <> 0 /\ width v = 1%nat /\
  _operationCount this = 0%Z /\ _expectedIgnoranceErrors this = 0.
Proof.
  intros Hv E.
  assert (P : isPowerOf2 (height v) = true) by (apply isPowerOf2_spec; eauto).
  destruct (Nat.eq_dec (width v) 1) as [W1 | W1];
    [|rewrite constructor_invalid in E by auto; discriminate].
  rewrite constructor_valid in E by assumption.
  destruct (Req_dec_T (norm2 v) 0) as [? | NZ]; [discriminate|].
  apply Done_inj in E. subst this. rewrite Hv.
  cbn [_actualHiddenState _inferredStateDensity _operationCount
       _expectedIgnoranceErrors].
  repeat split; try reflexivity; assumption.
Qed.

Lemma uniform_marginal (n : nat) (k : Z) :
  (n <= 31)%nat -> (0 <= k < Z.of_nat n)%Z ->
  traceQubitOutOfDensityMatrix (timesScalar (identity (2 ^ n)) (1 / INR (2 ^ n))) k =
  mixed1.
Proof.
  intros Hn Hk.
  assert (Hh : 0 < INR (2 ^ n))
    by (apply lt_0_INR, Nat.neq_0_lt_0, Nat.pow_nonzero; lia).
  set (rho := timesScalar (identity (2 ^ n)) (1 / INR (2 ^ n))).
  assert (W : width rho = (2 ^ n)%nat) by reflexivity.
  assert (H : height rho = (2 ^ n)%nat) by reflexivity.
  assert (Er : forall r c, (r < 2 ^ n)%nat -> (c < 2 ^ n)%nat ->
                 entry rho r c = if Nat.eqb r c then (1 / INR (2 ^ n), 0) else C0).
  { intros r c Hr Hc. unfold rho. rewrite entry_scaled, entry_identity by assumption.
    destruct (Nat.eqb r c); unfold Cscale, C1, C0; cbn [fst snd]; f_equal; ring. }
  assert (Hk' : (0 <= k < 31)%Z) by lia.
  assert (On : Rsum (2 ^ n) (fun i => if bitOf k i then 1 else 0) = INR (2 ^ n) / 2).
  { rewrite <- (Z2Nat.id k) by lia. apply count_bit. lia. }
  assert (Diag : forall a, (a < 2)%nat ->
            entry (traceQubitOutOfDensityMatrix rho k) a a = (1 / 2, 0)).
  { intros a Ha. rewrite (traceQubitOut_diag rho n k a W H Hn Hk' Ha).
    unfold traceWhere. rewrite H, Csum_parts. f_equal.
    - assert (Da : a = 0%nat \/ a = 1%nat) by lia.
      destruct Da as [-> | ->].
      + rewrite (Rsum_ext _ _ (fun i => (1 - (if bitOf k i then 1 else 0))
                                         * (1 / INR (2 ^ n)))).
        * rewrite Rsum_scale.
          rewrite (Rsum_ext _ _ (fun i => 1 + - (if bitOf k i then 1 else 0)))
            by (intros; ring).
          rewrite Rsum_plus, Rsum_const_one.
          rewrite (Rsum_ext _ _ (fun i => (if bitOf k i then 1 else 0) * -1))
            by (intros; ring).
          rewrite Rsum_scale, On. field. lra.
        * intros i Hi. rewrite (Er i i Hi Hi), Nat.eqb_refl. unfold bitIndex.
          destruct (bitOf k i); simpl; ring.
      + rewrite (Rsum_ext _ _ (fun i => (if bitOf k i then 1 else 0)
                                         * (1 / INR (2 ^ n)))).
        * rewrite Rsum_scale, On. field. lra.
        * intros i Hi. rewrite (Er i i Hi Hi), Nat.eqb_refl. unfold bitIndex.
          destruct (bitOf k i); simpl; ring.
    - apply Rsum_zero. intros i Hi. rewrite (Er i i Hi Hi), Nat.eqb_refl.
      destruct (Nat.eqb a (bitIndex k i)); reflexivity. }
  assert (Off : forall a b, (a < 2)%nat -> (b < 2)%nat -> a <> b ->
            entry (traceQubitOutOfDensityMatrix rho k) a b = C0).
  { intros a b Ha Hb NE. rewrite entry_traceQubitOut by assumption. rewrite H, W.
    apply Csum_zero. intros r Hr. apply Csum_zero. intros c Hc.
    rewrite (Er r c Hr Hc).
    destruct (Nat.eqb_spec r c) as [-> | _].
    - destruct (Nat.eqb_spec a (cellBit k c)) as [-> | _];
        [|rewrite andb_false_r; reflexivity].
      destruct (Nat.eqb_spec b (cellBit k c)) as [-> | _];
        [contradiction | rewrite !andb_false_r; reflexivity].
    - destruct (_ && _); reflexivity. }
  apply matrix_ext; [apply wf_traceQubitOut | reflexivity | reflexivity | reflexivity |].
  change (height (traceQubitOutOfDensityMatrix rho k)) with 2%nat.
  change (width (traceQubitOutOfDensityMatrix rho k)) with 2%nat.
  intros a b Ha Hb.
  assert (Da : a = 0%nat \/ a = 1%nat) by lia.
  assert (Db : b = 0%nat \/ b = 1%nat) by lia.
  destruct Da as [-> | ->], Db as [-> | ->];
    first [ rewrite Diag by lia; reflexivity
          | rewrite Off by lia; reflexivity ].
Qed.

(** A simulator as the constructor leaves it predicts one half for every
    qubit of the register: the observer's marginal of each qubit is the
    maximally mixed matrix, whatever the initial state is, and no operation
    has been counted. *)
Theorem constructor_knows_nothing (n : nat) (v : Matrix) (this : EveQuantumComputer)
    (k : Z) :
  height v = (2 ^ n)%nat -> constructor v = Done this ->
  (n <= 31)%nat -> (0 <= k < Z.of_nat n)%Z ->
  traceQubitOutOfDensityMatrix (_inferredStateDensity this) k = mixed1 /\
  _operationCount this = 0%Z /\ _expectedIgnoranceErrors this = 0.
Proof.
  intros Hv E Hn Hk.
  destruct (constructor_fields n v this Hv E) as (Rho & _ & _ & _ & Cn & Sc).
  rewrite Rho. split; [apply uniform_marginal; assumption | split; assumption].
Qed.

Lemma constructor_knows_nothing_witness :
  height ket0 = (2 ^ 1)%nat /\ constructor ket0 = Done born /\
  (1 <= 31)%nat /\ (0 <= 0 < Z.of_nat 1)%Z /\
  traceQubitOutOfDensityMatrix (_inferredStateDensity born) 0 = mixed1 /\
  _operationCount born = 0%Z /\ _expectedIgnoranceErrors born = 0.
Proof.
  assert (H3 : (1 <= 31)%nat) by lia.
  assert (H4 : (0 <= 0 < Z.of_nat 1)%Z) by (simpl; lia).
  split; [reflexivity|]. split; [exact constructor_ket0|]. split; [exact H3|].
  split; [exact H4|].
  exact (constructor_knows_nothing 1 ket0 born 0 eq_refl constructor_ket0 H3 H4).
Defined.

(** ** Random initial states *)

Local Open Scope Z_scope.

Lemma js_shl_two (n : nat) :
  (n <= 29)%nat -> js_shl 2 (Z.of_nat n) = Z.of_nat (2 * 2 ^ n).
Proof.
  intros Hn. unfold js_shl.
  rewrite (to_int32_small 2) by lia. rewrite Z.mod_small by lia.
  rewrite Z.shiftl_mul_pow2 by lia.
  assert (B : 2 ^ Z.of_nat n <= 2 ^ 29) by (apply Z.pow_le_mono_r; lia).
  assert (P : 0 < 2 ^ Z.of_nat n) by (apply Z.pow_pos_nonneg; lia).
  rewrite to_int32_small by lia.
  rewrite Nat2Z.inj_mul, Nat2Z.inj_pow. reflexivity.
Qed.

Lemma js_shl_two_thirty (k : Z) : k mod 32 = 30 -> js_shl 2 k = - 2 ^ 31.
Proof.
  intros E. unfold js_shl. rewrite E. reflexivity.
Qed.

Local Close Scope Z_scope.

(** The loop that fills a buffer sets each cell to its value. *)
Lemma fill_loop (f : nat -> R) (n : nat) (buf : list R) :
  (n <= length buf)%nat ->
  length (for_range n (fun buf i => upd buf i (f i)) buf) = length buf /\
  forall j, (j < n)%nat ->
    rd (for_range n (fun buf i => upd buf i (f i)) buf) j = f j.
Proof.
  induction n as [|n IH]; intros Hn.
  - split; [reflexivity|]. intros j Hj. lia.
  - destruct (IH ltac:(lia)) as [L E]. rewrite for_range_S.
    split; [rewrite length_upd; exact L|].
    intros j Hj. rewrite rd_upd, L.
    destruct (Nat.eqb_spec j n) as [-> | NE].
    + destruct (Nat.ltb_spec n (length buf)); [reflexivity | lia].
    + cbn [andb]. apply E. lia.
Qed.

Lemma generateUnknownState_column (n : nat) (random : nat -> R) :
  (n <= 29)%nat ->
  exists v,
    wf v /\ width v = 1%nat /\ height v = (2 ^ n)%nat /\
    (forall r, (r < 2 ^ n)%nat ->
       entry v r 0 = (random (2 * r)%nat - 1 / 2, random (2 * r + 1)%nat - 1 / 2)) /\
    generateUnknownState (Z.of_nat n) random = normalizeCol v.
Proof.
  intros Hn. unfold generateUnknownState. cbv zeta.
  rewrite js_shl_two by exact Hn.
  rewrite js_shl_one
    by (split; [apply Nat2Z.is_nonneg | apply Nat2Z.inj_lt with (m := 31%nat); lia]).
  destruct (Z.ltb_spec (Z.of_nat (2 * 2 ^ n)) 0) as [Neg | _]; [lia|].
  rewrite Nat2Z.id.
  replace (Z.to_nat (2 ^ Z.of_nat n)) with (2 ^ n)%nat
    by (rewrite <- (Nat2Z.id (2 ^ n)); f_equal; rewrite Nat2Z.inj_pow; reflexivity).
  rewrite repeat_length.
  destruct (fill_loop (fun i => random i - 1 / 2) (2 * 2 ^ n) (repeat 0 (2 * 2 ^ n)))
    as [L E]; [rewrite repeat_length; lia|].
  rewrite repeat_length in L.
  eexists. split; [|split; [|split; [|split; [|reflexivity]]]].
  - unfold wf. cbn [rawBuffer height width]. rewrite L. lia.
  - reflexivity.
  - reflexivity.
  - intros r Hr. unfold entry. cbn [rawBuffer width].
    rewrite !E by lia. f_equal; f_equal; f_equal; lia.
Qed.

(** For up to 29 qubits and samples that are not all exactly one half,
    [withRandomInitialState] returns a reachable simulator: its true state
    is the column of the shifted samples, two per amplitude, rescaled to
    unit norm, while the inferred matrix is the identity over the dimension
    whatever the samples are: nothing of the state reaches the observer. *)
Theorem withRandomInitialState_spec (n : nat) (random : nat -> R) :
  (n <= 29)%nat ->
  (exists i, (i < 2 * 2 ^ n)%nat /\ random i <> 1 / 2) ->
  let total :=
    Rsum (2 ^ n) (fun r => (random (2 * r)%nat - 1 / 2) * (random (2 * r)%nat - 1 / 2) +
                           (random (2 * r + 1)%nat - 1 / 2) *
                           (random (2 * r + 1)%nat - 1 / 2)) in
  exists this,
    withRandomInitialState (Z.of_nat n) random = Done this /\
    reachable n this /\
    0 < total /\
    (forall r, (r < 2 ^ n)%nat ->
       entry (_actualHiddenState this) r 0 =
       Cscale (1 / sqrt total)
         (random (2 * r)%nat - 1 / 2, random (2 * r + 1)%nat - 1 / 2)) /\
    norm2 (_actualHiddenState this) = 1 /\
    _inferredStateDensity this = timesScalar (identity (2 ^ n)) (1 / INR (2 ^ n)) /\
    _operationCount this = 0%Z /\ _expectedIgnoranceErrors this = 0.
Proof.
  intros Hn (i & Hi & Ne) total.
  destruct (generateUnknownState_column n random Hn) as (v & Wv & Wd & Hv & Ev & G).
  assert (N : norm2 v = total).
  { unfold norm2, total. rewrite Hv. apply Rsum_ext. intros r Hr.
    rewrite (Ev r Hr). reflexivity. }
  assert (Pos : 0 < total).
  { assert (Sq : forall a b : R, 0 <= a * a + b * b) by (intros; nra).
    assert (Nn : 0 <= total)
      by (unfold total; apply Rsum_nonneg; intros r _; apply Sq).
    destruct (Req_dec_T total 0) as [Z | NZ]; [|lra].
    exfalso. apply Ne.
    assert (Hr : (i / 2 < 2 ^ n)%nat) by (apply Nat.Div0.div_lt_upper_bound; lia).
    pose proof (Rsum_zero_inv (2 ^ n) _ ltac:(intros r _; apply Sq) Z (i / 2)%nat Hr)
      as Cell.
    cbv beta in Cell.
    assert (Zs : forall a b : R, a * a + b * b = 0 -> a = 0 /\ b = 0)
      by (intros; split; nra).
    apply Zs in Cell. destruct Cell as [Ca Cb].
    pose proof (Nat.div_mod_eq i 2) as D.
    pose proof (Nat.mod_upper_bound i 2 ltac:(lia)) as M.
    assert (Par : (i = 2 * (i / 2) \/ i = 2 * (i / 2) + 1)%nat) by lia.
    destruct Par as [P | P]; rewrite P; lra. }
  unfold withRandomInitialState. rewrite G, (normalizeCol_column v Wd), N.
  destruct (Req_dec_T total 0) as [Z | _]; [lra|]. cbn [bind].
  set (u := timesScalar v (1 / sqrt total)).
  assert (Nu : norm2 u = 1).
  { unfold u. rewrite norm2_timesScalar, N, inv_sqrt_square by exact Pos.
    field. lra. }
  assert (Pu : isPowerOf2 (height u) = true)
    by (apply isPowerOf2_spec; exists n; exact Hv).
  assert (Cu : constructor u =
               Done (mkEve u (timesScalar (identity (2 ^ n)) (1 / INR (2 ^ n))) 0%Z 0)).
  { rewrite (constructor_valid u Pu Wd), Nu.
    destruct (Req_dec_T 1 0) as [Z | _]; [lra|].
    rewrite sqrt_1, timesScalar_one.
    change (height u) with (height v). rewrite Hv. reflexivity. }
  eexists. split; [exact Cu|].
  split; [apply (reach_constructor n u); [apply wf_timesScalar; exact Wv | exact Hv
                                         | exact Cu]|].
  split; [exact Pos|].
  cbn [_actualHiddenState _inferredStateDensity _operationCount
       _expectedIgnoranceErrors].
  split; [|split; [exact Nu|split; [reflexivity|split; reflexivity]]].
  intros r Hr. unfold u. rewrite entry_scaled, (Ev r Hr). reflexivity.
Qed.

Lemma withRandomInitialState_spec_witness :
  (1 <= 29)%nat /\
  (exists i, (i < 2 * 2 ^ 1)%nat /\ (fun _ : nat => 3 / 4) i <> 1 / 2) /\
  let random := fun _ : nat => 3 / 4 in
  let total :=
    Rsum (2 ^ 1) (fun r => (random (2 * r)%nat - 1 / 2) * (random (2 * r)%nat - 1 / 2) +
                           (random (2 * r + 1)%nat - 1 / 2) *
                           (random (2 * r + 1)%nat - 1 / 2)) in
  exists this,
    withRandomInitialState (Z.of_nat 1) random = Done this /\
    reachable 1 this /\
    0 < total /\
    (forall r, (r < 2 ^ 1)%nat ->
       entry (_actualHiddenState this) r 0 =
       Cscale (1 / sqrt total)
         (random (2 * r)%nat - 1 / 2, random (2 * r + 1)%nat - 1 / 2)) /\
    norm2 (_actualHiddenState this) = 1 /\
    _inferredStateDensity this = timesScalar (identity (2 ^ 1)) (1 / INR (2 ^ 1)) /\
    _operationCount this = 0%Z /\ _expectedIgnoranceErrors this = 0.
Proof.
  assert (H1 : (1 <= 29)%nat) by lia.
  assert (H2 : exists i, (i < 2 * 2 ^ 1)%nat /\ (fun _ : nat => 3 / 4) i <> 1 / 2)
    by (exists 0%nat; split; [simpl; lia | lra]).
  split; [exact H1|]. split; [exact H2|].
  exact (withRandomInitialState_spec 1 (fun _ => 3 / 4) H1 H2).
Defined.

(** When every sample is exactly one half the generated column is zero and
    its normalisation divides by zero: [withRandomInitialState] yields no
    finite state. *)
Theorem withRandomInitialState_all_half (n : nat) (random : nat -> R) :
  (n <= 29)%nat ->
  (forall i, (i < 2 * 2 ^ n)%nat -> random i = 1 / 2) ->
  generateUnknownState (Z.of_nat n) random = NonFinite /\
  withRandomInitialState (Z.of_nat n) random = NonFinite.
Proof.
  intros Hn Half.
  destruct (generateUnknownState_column n random Hn) as (v & Wv & Wd & Hv & Ev & G).
  assert (N : norm2 v = 0).
  { unfold norm2. rewrite Hv. apply Rsum_zero. intros r Hr.
    rewrite (Ev r Hr), !Half by lia. unfold Cnorm2. cbn [fst snd]. lra. }
  assert (E : generateUnknownState (Z.of_nat n) random = NonFinite).
  { rewrite G, (normalizeCol_column v Wd), N.
    destruct (Req_dec_T 0 0) as [_ | NZ]; [reflexivity | contradiction]. }
  split; [exact E|]. unfold withRandomInitialState. rewrite E. reflexivity.
Qed.

Lemma withRandomInitialState_all_half_witness :
  (1 <= 29)%nat /\
  (forall i, (i < 2 * 2 ^ 1)%nat -> (fun _ : nat => 1 / 2) i = 1 / 2) /\
  generateUnknownState (Z.of_nat 1) (fun _ => 1 / 2) = NonFinite /\
  withRandomInitialState (Z.of_nat 1) (fun _ => 1 / 2) = NonFinite.
Proof.
  assert (H1 : (1 <= 29)%nat) by lia.
  assert (H2 : forall i, (i < 2 * 2 ^ 1)%nat -> (fun _ : nat => 1 / 2) i = 1 / 2)
    by (intros; reflexivity).
  split; [exact H1|]. split; [exact H2|].
  exact (withRandomInitialState_all_half 1 (fun _ => 1 / 2) H1 H2).
Defined.

(** For 30 qubits (and every count that is 30 modulo 32) the buffer length
    [2 << numQubits] wraps to a negative number: the allocation throws and
    no simulator is made. *)
Theorem withRandomInitialState_thirty (numQubits : Z) (random : nat -> R) :
  (numQubits mod 32 = 30)%Z ->
  exists msg,
    generateUnknownState numQubits random = Thrown msg /\
    withRandomInitialState numQubits random = Thrown msg.
Proof.
  intros E. unfold withRandomInitialState, generateUnknownState. cbv zeta.
  rewrite (js_shl_two_thirty numQubits E).
  eexists. split; reflexivity.
Qed.

Lemma withRandomInitialState_thirty_witness :
  (30 mod 32 = 30)%Z /\
  exists msg,
    generateUnknownState 30 (fun _ => 3 / 4) = Thrown msg /\
    withRandomInitialState 30 (fun _ => 3 / 4) = Thrown msg.
Proof.
  split; [reflexivity|].
  exact (withRandomInitialState_thirty 30 (fun _ => 3 / 4) eq_refl).
Defined.

(** ** Further compositions *)

(** The text [qubitTraceDistance] returns does not depend on the order of
    its two arguments, and it is "0.0000" when they are the same matrix. *)
Theorem qubitTraceDistance_symmetric (d1 d2 : Matrix) :
  qubitTraceDistance d1 d2 = qubitTraceDistance d2 d1 /\
  qubitTraceDistance d1 d1 = Str "0.0000".
Proof.
  split; [|apply qubitTraceDistance_self].
  rewrite !qubitTraceDistance_eq. do 3 f_equal. unfold blochDistance.
  destruct (qubitDensityMatrixToBlochVector d1) as [[x1 y1] z1].
  destruct (qubitDensityMatrixToBlochVector d2) as [[x2 y2] z2].
  f_equal. ring.
Qed.

(** The X operator on a qubit that has just been measured turns the known
    value over: the observer's marginal of the qubit is then certainly the
    opposite of the result, still at printed distance "0.0000", and the
    misprediction score is untouched. *)
Theorem applyOperation_flips_measured (this : EveQuantumComputer) (n : nat) (k : Z)
    (random : R) :
  reachable n this -> (n <= 30)%nat -> (0 <= k < Z.of_nat n)%Z -> 0 <= random < 1 ->
  exists result this1 this2,
    measureQubit k random this = (Done result, this1) /\
    applyOperation (expandOperation this PAULI_X k []) this1 = (Done tt, this2) /\
    traceQubitOutOfDensityMatrix (_inferredStateDensity this2) k =
      certain (negb result) /\
    traceDistanceQubit this2 k = Done (Str "0.0000") /\
    _expectedIgnoranceErrors this2 = _expectedIgnoranceErrors this1.
Proof.
  intros R Hn Hk Hr.
  pose proof (inv_shaped n this (reachable_invariant n this Hn R)) as Sh.
  destruct (measure_step this n k random R Hn Hk Hr) as (this1 & E1 & R1 & _ & _ & St1).
  cbv zeta in E1, St1.
  destruct (applyOperation_flips this1 n k PAULI_X _ (reachable_invariant n this1 Hn R1)
              Hn Hk unitary_PAULI_X eq_refl eq_refl eq_refl St1)
    as (this2 & E2 & Inv2 & St2 & _ & Sc2).
  destruct (settled_marginals this2 n k _ Inv2 ltac:(lia) ltac:(lia) St2)
    as (I & _ & D).
  eexists _, this1, this2. split; [exact E1|].
  rewrite (expandOperation_register this n PAULI_X k [] (actual_height n this Sh)).
  split; [exact E2|]. split; [exact I|]. split; [exact D | exact Sc2].
Qed.

Lemma applyOperation_flips_measured_witness :
  reachable 1 born /\ (1 <= 30)%nat /\ (0 <= 0 < Z.of_nat 1)%Z /\ 0 <= 1 / 2 < 1 /\
  exists result this1 this2,
    measureQubit 0 (1 / 2) born = (Done result, this1) /\
    applyOperation (expandOperation born PAULI_X 0 []) this1 = (Done tt, this2) /\
    traceQubitOutOfDensityMatrix (_inferredStateDensity this2) 0 =
      certain (negb result) /\
    traceDistanceQubit this2 0 = Done (Str "0.0000") /\
    _expectedIgnoranceErrors this2 = _expectedIgnoranceErrors this1.
Proof.
  assert (H2 : (1 <= 30)%nat) by lia.
  assert (H3 : (0 <= 0 < Z.of_nat 1)%Z) by (simpl; lia).
  assert (H4 : 0 <= 1 / 2 < 1) by lra.
  split; [exact reachable_born|]. split; [exact H2|]. split; [exact H3|].
  split; [exact H4|].
  exact (applyOperation_flips_measured born 1 0 (1 / 2) reachable_born H2 H3 H4).
Defined.

(** The rows and columns of a controlled operator at indices whose control
    qubit is off are those of the identity. *)
Lemma controlled_entries_off (M : Matrix) (t c : Z) (n : nat) (r j : nat) :
  width M = 2%nat -> height M = 2%nat -> (n <= 31)%nat -> (0 <= c < 31)%Z ->
  (r < 2 ^ n)%nat -> (j < 2 ^ n)%nat ->
  bitOf c r = false \/ bitOf c j = false ->
  entry (expandOp M t n [c]) r j = if Nat.eqb r j then C1 else C0.
Proof.
  intros WM HM Hn Hc Hr Hj B.
  rewrite entry_expandOp by (try assumption; repeat constructor; lia).
  cbn [controlsOn forallb].
  destruct B as [-> | ->]; rewrite ?andb_false_r; reflexivity.
Qed.

Lemma controlled_off_idle (this : EveQuantumComputer) (n : nat) (M : Matrix)
    (t c : Z) :
  invariant n this -> (n <= 30)%nat -> (0 <= c < 31)%Z -> t <> c ->
  unitary M -> width M = 2%nat ->
  settled n c false this ->
  applyOperation (expandOp M t n [c]) this =
  (Done tt, mkEve (_actualHiddenState this) (_inferredStateDensity this)
                  (_operationCount this + 1)%Z (_expectedIgnoranceErrors this)).
Proof.
  intros Inv Hn Hc Ntc UM WM [SPsi SRho].
  pose proof (inv_shaped n this Inv) as Sh.
  assert (HM : height M = 2%nat) by (rewrite <- (unitary_square M UM); exact WM).
  assert (UU : unitary (expandOp M t n [c])).
  { apply expandOp_unitary; try assumption; try lia.
    - repeat constructor; lia.
    - intros [D | []]. congruence. }
  assert (HU : height (expandOp M t n [c]) = (2 ^ n)%nat).
  { destruct (expand_dims M t n WM HM) as (_ & _ & Hh).
    unfold expandOp, controlify; cbn [height]. exact Hh. }
  destruct (applyOperation_shaped this (expandOp M t n [c]) n Sh UU HU)
    as (this' & E & Sh' & Cn & Sc & Psi & Rho).
  rewrite E. f_equal.
  set (delta := fun a b : nat => if Nat.eqb a b then C1 else C0).
  assert (Off : forall x, x <> false -> x = true) by (intros []; congruence).
  assert (Left : forall (f : nat -> nat -> C) r a, (r < 2 ^ n)%nat ->
            (forall j, (j < 2 ^ n)%nat -> bitOf c j <> false -> f j a = C0) ->
            mm (2 ^ n) (entry (expandOp M t n [c])) f r a = f r a).
  { intros f r a Hr Zf. rewrite <- (mm_delta_l (2 ^ n) f r a Hr).
    apply Csum_ext. intros j Hj.
    destruct (bitOf c j) eqn:B.
    - rewrite (Zf j Hj) by (rewrite B; discriminate). rewrite !Cmult_C0_r. reflexivity.
    - rewrite (controlled_entries_off M t c n r j) by (try assumption; try lia; auto).
      reflexivity. }
  assert (EPsi : _actualHiddenState this' = _actualHiddenState this).
  { destruct Sh' as [W' Wd' H' _ _ _], Sh as [W0 Wd0 H0' _ _ _].
    apply matrix_ext; try assumption; try congruence.
    intros r a Hr Ha. rewrite H' in Hr. rewrite Wd' in Ha.
    assert (a = 0%nat) by lia. subst a.
    rewrite (Psi r 0%nat Hr ltac:(lia)).
    apply Left; [exact Hr|]. intros j Hj B. apply (SPsi j Hj B). }
  assert (ERho : _inferredStateDensity this' = _inferredStateDensity this).
  { destruct Sh' as [_ _ _ W' Wd' H'], Sh as [_ _ _ W0 Wd0 H0'].
    apply matrix_ext; try assumption; try congruence.
    intros r a Hr Ha. rewrite H' in Hr. rewrite Wd' in Ha.
    rewrite (Rho r a Hr Ha).
    transitivity (mm (2 ^ n) (entry (_inferredStateDensity this)) delta r a).
    - apply Csum_ext. intros j Hj.
      fold (mm (2 ^ n) (entry (expandOp M t n [c]))
              (entry (_inferredStateDensity this)) r j).
      rewrite (Left (entry (_inferredStateDensity this)) r j Hr)
        by (intros i Hi B; apply (SRho i j Hi Hj); left; exact B).
      destruct (bitOf c j) eqn:B.
      + rewrite (SRho r j Hr Hj) by (right; rewrite B; discriminate).
        rewrite !Cmult_C0_l. reflexivity.
      + rewrite (controlled_entries_off M t c n a j) by (try assumption; try lia; auto).
        unfold delta. rewrite (Nat.eqb_sym j a).
        destruct (Nat.eqb a j); f_equal; cpx.
    - unfold delta. apply mm_delta_r. exact Ha. }
  destruct this' as [a' i' c' s']. cbn in EPsi, ERho, Cn, Sc. subst. reflexivity.
Qed.

(** After [measureQubit(c)] returned false, an operation controlled by
    qubit [c] changes neither the true state nor the inferred matrix:
    [applyOperation] accepts it and only counts it. *)
Theorem controlled_operation_idle (this this1 : EveQuantumComputer) (n : nat)
    (M : Matrix) (t c : Z) (random : R) :
  reachable n this -> (n <= 30)%nat -> (0 <= c < Z.of_nat n)%Z -> t <> c ->
  unitary M -> width M = 2%nat -> 0 <= random < 1 ->
  measureQubit c random this = (Done false, this1) ->
  applyOperation (expandOperation this M t [c]) this1 =
  (Done tt, mkEve (_actualHiddenState this1) (_inferredStateDensity this1)
                  (_operationCount this1 + 1)%Z (_expectedIgnoranceErrors this1)).
Proof.
  intros R Hn Hc Ntc UM WM Hr E.
  pose proof (reachable_invariant n this Hn R) as Inv.
  pose proof (invariant_state_ok n this Inv) as Ok.
  pose proof (measureQubit_known this this1 n c random false Ok Hn Hc Hr E) as St.
  pose proof (measureQubit_invariant n c random false this this1 Inv Hn Hr E) as Inv1.
  rewrite (expandOperation_register this n M t [c]
             (actual_height n this (inv_shaped n this Inv))).
  apply controlled_off_idle; try assumption. lia.
Qed.

Lemma started_mass (n : nat) (k : Z) :
  massWhere (bitOf k) (_actualHiddenState (started n)) = 0.
Proof.
  unfold massWhere, started. cbn [_actualHiddenState].
  change (height (timesScalar (basisCol (2 ^ n) 0)
                    (1 / sqrt (norm2 (basisCol (2 ^ n) 0))))) with (2 ^ n)%nat.
  apply Rsum_zero. intros i Hi.
  rewrite entry_scaled, entry_basisCol by exact Hi.
  destruct (Nat.eqb_spec i 0) as [-> | _].
  - unfold bitOf. simpl Z.of_nat. rewrite Z.testbit_0_l. reflexivity.
  - rewrite Cscale_C0. destruct (bitOf k i); [|reflexivity].
    unfold Cnorm2, C0. simpl. ring.
Qed.

Lemma controlled_operation_idle_witness :
  reachable 2 (started 2) /\ (2 <= 30)%nat /\ (0 <= 1 < Z.of_nat 2)%Z /\
  (0 <> 1)%Z /\ unitary PAULI_X /\ width PAULI_X = 2%nat /\ 0 <= 1 / 2 < 1 /\
  exists this1,
    measureQubit 1 (1 / 2) (started 2) = (Done false, this1) /\
    applyOperation (expandOperation (started 2) PAULI_X 0 [1%Z]) this1 =
    (Done tt, mkEve (_actualHiddenState this1) (_inferredStateDensity this1)
                    (_operationCount this1 + 1)%Z (_expectedIgnoranceErrors this1)).
Proof.
  assert (H2 : (2 <= 30)%nat) by lia.
  assert (H3 : (0 <= 1 < Z.of_nat 2)%Z) by (simpl; lia).
  assert (H4 : (0 <> 1)%Z) by discriminate.
  assert (H7 : 0 <= 1 / 2 < 1) by lra.
  split; [exact (reachable_started 2)|]. split; [exact H2|]. split; [exact H3|].
  split; [exact H4|]. split; [exact unitary_PAULI_X|]. split; [reflexivity|].
  split; [exact H7|].
  destruct (measure_step (started 2) 2 1 (1 / 2) (reachable_started 2) H2 H3 H7)
    as (this1 & E & _).
  cbv zeta in E. rewrite started_mass in E.
  assert (F : Rltb (1 / 2) 0 = false) by (apply Rltb_false; lra).
  rewrite F in E.
  exists this1. split; [exact E|].
  exact (controlled_operation_idle (started 2) this1 2 PAULI_X 0 1 (1 / 2)
           (reachable_started 2) H2 H3 H4 unitary_PAULI_X eq_refl H7 E).
Defined.

(** * The constructor and the measurement on every state *)

(** ** The constructor *)

(** C5. Constructing a simulator from a matrix [v] throws exactly when the
    height of [v] is not a power of two or its width is not 1.  A column of
    height [2^n] that is not zero always yields a simulator: its true state
    is [v] divided by its norm, its inferred density matrix is the identity
    of dimension [2^n] divided by [2^n], and its operation count and
    misprediction score are 0.  On the zero column the division by the norm
    is a division by zero: nothing is thrown and no finite state results. *)
Theorem constructor_spec (v : Matrix) :
  ((exists msg, constructor v = Thrown msg) <->
   (~ (exists n : nat, height v = (2 ^ n)%nat) \/ width v <> 1%nat)) /\
  (forall n : nat, height v = (2 ^ n)%nat -> width v = 1%nat ->
   (norm2 v <> 0 ->
    constructor v =
    Done (mkEve (timesScalar v (1 / sqrt (norm2 v)))
                (timesScalar (identity (2 ^ n)) (1 / 2 ^ n)) 0%Z 0)) /\
   (norm2 v = 0 -> constructor v = NonFinite)).
Proof.
  split.
  - destruct (isPowerOf2 (height v)) eqn:P.
    + destruct (Nat.eq_dec (width v) 1) as [W1 | W1].
      * pose proof (constructor_valid v P W1) as E.
        apply isPowerOf2_spec in P. split.
        -- intros [msg T]. rewrite T in E.
           destruct (Req_dec_T (norm2 v) 0); discriminate.
        -- intros [N | N]; contradiction.
      * rewrite constructor_invalid by auto. split; [auto | intros _; eauto].
    + rewrite constructor_invalid by auto. split; [| intros _; eauto].
      intros _. left. intros Ex. apply isPowerOf2_spec in Ex. congruence.
  - intros n Hv W1.
    assert (P : isPowerOf2 (height v) = true) by (apply isPowerOf2_spec; eauto).
    rewrite (constructor_valid v P W1), Hv.
    split; intros N; destruct (Req_dec_T (norm2 v) 0) as [Z | NZ];
      try contradiction; try reflexivity.
    rewrite pow_INR. cbn [INR]. replace (1 + 1) with 2 by ring. reflexivity.
Qed.

Lemma constructor_spec_witness :
  height ket0 = (2 ^ 1)%nat /\ width ket0 = 1%nat /\ norm2 ket0 <> 0 /\
  constructor ket0 =
  Done (mkEve (timesScalar ket0 (1 / sqrt (norm2 ket0)))
              (timesScalar (identity (2 ^ 1)) (1 / 2 ^ 1)) 0%Z 0).
Proof.
  assert (N : norm2 ket0 <> 0) by (rewrite norm2_ket0; lra).
  split; [reflexivity|]. split; [reflexivity|]. split; [exact N|].
  exact (proj1 (proj2 (constructor_spec ket0) 1%nat eq_refl eq_refl) N).
Defined.

(** ** The measurement *)

(** [measureQubit] on any state of the right shape: the two
    renormalizations fail or succeed one after the other. *)
Lemma measureQubit_general (k : Z) (random : R) (this : EveQuantumComputer) (n : nat) :
  shaped n this -> (n <= 30)%nat ->
  let p := massWhere (consistent k true) (_actualHiddenState this) in
  let q := diagWhere (consistent k true) (_inferredStateDensity this) in
  let result := Rltb random p in
  let kept := massWhere (consistent k result) (_actualHiddenState this) in
  let t := traceWhere (consistent k result) (_inferredStateDensity this) in
  let count := (_operationCount this + 1)%Z in
  let score := _expectedIgnoranceErrors this + Rabs (q - p) in
  let actual :=
    timesScalar (keepCol (_actualHiddenState this) k result) (1 / sqrt kept) in
  measureQubit k random this =
  if Req_dec_T kept 0
  then (NonFinite,
        mkEve (_actualHiddenState this) (_inferredStateDensity this) count score)
  else if Req_dec_T (Cabs t) 0
       then (NonFinite, mkEve actual (_inferredStateDensity this) count score)
       else (Done result,
             mkEve actual
               (timesScalar (keepDensity (_inferredStateDensity this) k result)
                  (1 / Cabs t)) count score).
Proof.
  intros [W W1 H WD WI HI] Hn p q result kept t count score actual.
  rewrite (measureQubit_steps k random this n) by assumption.
  fold p q result.
  rewrite normalizeCol_keepCol. fold kept.
  destruct (Req_dec_T kept 0) as [Z | NZ]; [reflexivity|]. cbn [attempt].
  rewrite normalizeDensity_keepDensity by congruence. fold t.
  destruct (Req_dec_T (Cabs t) 0); reflexivity.
Qed.

Lemma traceWhere_ext (sel sel' : nat -> bool) (m : Matrix) :
  (forall i, (i < height m)%nat -> sel i = sel' i) ->
  traceWhere sel m = traceWhere sel' m.
Proof. intros E. apply Csum_ext. intros i Hi. rewrite E by exact Hi. reflexivity. Qed.

Lemma trace_rescaled (m : Matrix) (k : Z) (b : bool) (s : R) :
  width m = height m ->
  trace (timesScalar (keepDensity m k b) s) =
  Done (Cscale s (traceWhere (consistent k b) m)).
Proof.
  intros Sq.
  rewrite trace_ok
    by (unfold keepDensity; simpl; rewrite ?width_make, ?height_make; exact Sq).
  f_equal. unfold traceWhere. rewrite <- Csum_Cscale.
  change (height (timesScalar (keepDensity m k b) s)) with (height m).
  apply Csum_ext. intros i Hi.
  rewrite entry_collapsed_density by (rewrite ?Sq; exact Hi).
  destruct (consistent k b i); cbn [andb]; [reflexivity|].
  symmetry. apply Cscale_C0.
Qed.

(** The test of the source on an index of the register is the test of bit
    [k]. *)
Lemma consistent_in_range (n : nat) (k : Z) (v : bool) (i : nat) :
  (n <= 30)%nat -> (0 <= k < Z.of_nat n)%Z -> (i < 2 ^ n)%nat ->
  consistent k v i = Bool.eqb (bitOf k i) v.
Proof.
  intros Hn Hk Hi. apply consistent_bit; [lia|].
  pose proof (pow2_bound n 31 ltac:(lia) i Hi). assumption.
Qed.

Lemma measureQubit_in_range (this : EveQuantumComputer) (n : nat) (k : Z) (random : R) :
  shaped n this -> (n <= 30)%nat -> (0 <= k < Z.of_nat n)%Z ->
  let p := massWhere (bitOf k) (_actualHiddenState this) in
  let q := diagWhere (bitOf k) (_inferredStateDensity this) in
  let result := Rltb random p in
  let agrees := fun i => Bool.eqb (bitOf k i) result in
  let kept := massWhere agrees (_actualHiddenState this) in
  let t := traceWhere agrees (_inferredStateDensity this) in
  let count := (_operationCount this + 1)%Z in
  let score := _expectedIgnoranceErrors this + Rabs (q - p) in
  let actual :=
    timesScalar (keepCol (_actualHiddenState this) k result) (1 / sqrt kept) in
  measureQubit k random this =
  if Req_dec_T kept 0
  then (NonFinite,
        mkEve (_actualHiddenState this) (_inferredStateDensity this) count score)
  else if Req_dec_T (Cabs t) 0
       then (NonFinite, mkEve actual (_inferredStateDensity this) count score)
       else (Done result,
             mkEve actual
               (timesScalar (keepDensity (_inferredStateDensity this) k result)
                  (1 / Cabs t)) count score).
Proof.
  intros Sh Hn Hk p q result agrees kept t count score actual.
  pose proof Sh as [W W1 H WD WI HI].
  assert (Bit : forall v i, (i < 2 ^ n)%nat ->
                consistent k v i = Bool.eqb (bitOf k i) v)
    by (intros; apply (consistent_in_range n); assumption).
  assert (Ep : massWhere (consistent k true) (_actualHiddenState this) = p).
  { apply massWhere_ext. intros i Hi. rewrite Bit by lia.
    destruct (bitOf k i); reflexivity. }
  assert (Eq : diagWhere (consistent k true) (_inferredStateDensity this) = q).
  { apply diagWhere_ext. intros i Hi. rewrite Bit by lia.
    destruct (bitOf k i); reflexivity. }
  assert (Ek : massWhere (consistent k result) (_actualHiddenState this) = kept).
  { apply massWhere_ext. intros i Hi. apply Bit. lia. }
  assert (Et : traceWhere (consistent k result) (_inferredStateDensity this) = t).
  { apply traceWhere_ext. intros i Hi. apply Bit. lia. }
  pose proof (measureQubit_general k random this n Sh Hn) as M.
  cbv zeta in M. rewrite Ep, Eq in M. fold result in M. rewrite Ek, Et in M.
  exact M.
Qed.

(** What a measurement that does not divide by zero leaves. *)
Lemma measureQubit_collapses (this : EveQuantumComputer) (n : nat) (k : Z) (random : R) :
  shaped n this -> (n <= 30)%nat -> (0 <= k < Z.of_nat n)%Z ->
  let p := massWhere (bitOf k) (_actualHiddenState this) in
  let q := diagWhere (bitOf k) (_inferredStateDensity this) in
  let result := Rltb random p in
  let agrees := fun i => Bool.eqb (bitOf k i) result in
  let kept := massWhere agrees (_actualHiddenState this) in
  let t := traceWhere agrees (_inferredStateDensity this) in
  kept <> 0 -> t <> C0 ->
  exists this',
    measureQubit k random this = (Done result, this') /\
    _expectedIgnoranceErrors this' = _expectedIgnoranceErrors this + Rabs (q - p) /\
    _operationCount this' = (_operationCount this + 1)%Z /\
    shaped n this' /\
    (forall i, (i < 2 ^ n)%nat ->
       entry (_actualHiddenState this') i 0 =
       if agrees i then Cscale (1 / sqrt kept) (entry (_actualHiddenState this) i 0)
       else C0) /\
    norm2 (_actualHiddenState this') = 1 /\
    (forall r c, (r < 2 ^ n)%nat -> (c < 2 ^ n)%nat ->
       entry (_inferredStateDensity this') r c =
       if agrees c && agrees r
       then Cscale (1 / Cabs t) (entry (_inferredStateDensity this) r c)
       else C0) /\
    trace (_inferredStateDensity this') = Done (Cscale (1 / Cabs t) t).
Proof.
  intros Sh Hn Hk p q result agrees kept t Kz Tz.
  pose proof Sh as [W W1 H WD WI HI].
  assert (Bit : forall v i, (i < 2 ^ n)%nat ->
                consistent k v i = Bool.eqb (bitOf k i) v)
    by (intros; apply (consistent_in_range n); assumption).
  assert (Ek : massWhere (consistent k result) (_actualHiddenState this) = kept).
  { apply massWhere_ext. intros i Hi. apply Bit. lia. }
  assert (Et : traceWhere (consistent k result) (_inferredStateDensity this) = t).
  { apply traceWhere_ext. intros i Hi. apply Bit. lia. }
  pose proof (measureQubit_in_range this n k random Sh Hn Hk) as M.
  cbv zeta in M. fold p q result agrees kept t in M.
  destruct (Req_dec_T kept 0) as [Z | _]; [contradiction|].
  destruct (Req_dec_T (Cabs t) 0) as [Z | _];
    [apply Cabs_zero_iff in Z; contradiction|].
  eexists. split; [exact M|].
  cbn [_expectedIgnoranceErrors _operationCount _actualHiddenState
       _inferredStateDensity].
  split; [reflexivity|]. split; [reflexivity|].
  split; [|split; [|split; [|split]]].
  - constructor; cbn [_actualHiddenState _inferredStateDensity].
    + apply wf_timesScalar, wf_make.
    + reflexivity.
    + exact H.
    + apply wf_timesScalar, wf_make.
    + exact WI.
    + exact HI.
  - intros i Hi. rewrite entry_collapsed_col by lia. rewrite Bit by exact Hi.
    reflexivity.
  - rewrite <- Ek. apply norm2_collapsed. rewrite Ek.
    pose proof (massWhere_nonneg agrees (_actualHiddenState this)) as Nn.
    fold kept in Nn. lra.
  - intros r c Hr Hc. rewrite entry_collapsed_density by lia.
    rewrite !Bit by assumption. reflexivity.
  - rewrite trace_rescaled by congruence. rewrite Et. reflexivity.
Qed.

Lemma measureQubit_fails (this : EveQuantumComputer) (n : nat) (k : Z) (random : R) :
  shaped n this -> (n <= 30)%nat -> (0 <= k < Z.of_nat n)%Z ->
  let p := massWhere (bitOf k) (_actualHiddenState this) in
  let q := diagWhere (bitOf k) (_inferredStateDensity this) in
  let result := Rltb random p in
  let agrees := fun i => Bool.eqb (bitOf k i) result in
  let kept := massWhere agrees (_actualHiddenState this) in
  let t := traceWhere agrees (_inferredStateDensity this) in
  kept = 0 \/ t = C0 ->
  exists this',
    measureQubit k random this = (NonFinite, this') /\
    _expectedIgnoranceErrors this' = _expectedIgnoranceErrors this + Rabs (q - p) /\
    _operationCount this' = (_operationCount this + 1)%Z.
Proof.
  intros Sh Hn Hk p q result agrees kept t Zero.
  pose proof (measureQubit_in_range this n k random Sh Hn Hk) as M.
  cbv zeta in M. fold p q result agrees kept t in M.
  destruct (Req_dec_T kept 0) as [Z | NZ].
  - eexists. split; [exact M|]. split; reflexivity.
  - destruct Zero as [Z | Z]; [contradiction|].
    destruct (Req_dec_T (Cabs t) 0) as [_ | NZ'].
    + eexists. split; [exact M|]. split; reflexivity.
    + exfalso. apply NZ'. apply Cabs_zero_iff. exact Z.
Qed.

(** On a reachable state the outcome a sample in [0, 1) selects has weight
    in both representations. *)
Lemma reachable_outcome_weight (this : EveQuantumComputer) (n : nat) (k : Z)
    (random : R) :
  reachable n this -> (n <= 30)%nat -> (0 <= k < Z.of_nat n)%Z -> 0 <= random < 1 ->
  let p := massWhere (bitOf k) (_actualHiddenState this) in
  let result := Rltb random p in
  let agrees := fun i => Bool.eqb (bitOf k i) result in
  let kept := massWhere agrees (_actualHiddenState this) in
  let t := traceWhere agrees (_inferredStateDensity this) in
  0 < kept /\ snd t = 0 /\ 0 < fst t.
Proof.
  intros R Hn Hk Hr p result agrees kept t.
  pose proof (reachable_state_ok n this Hn R) as Ok.
  destruct (measureQubit_plausible this n k random Ok Hn Hk Hr)
    as (this' & _ & _ & _ & _ & Kp & Bp & _).
  cbv zeta in Kp, Bp. fold p result agrees kept in Kp, Bp.
  assert (Tr : t = (diagWhere agrees (_inferredStateDensity this), 0)).
  { apply traceWhere_real. intros i Hi.
    apply (ok_diag n this Ok). rewrite <- (inferred_height n this (ok_shaped n this Ok)).
    exact Hi. }
  rewrite Tr. cbn [fst snd]. split; [exact Kp|]. split; [reflexivity | exact Bp].
Qed.

Lemma Cscale_unit (z : C) :
  snd z = 0 -> 0 < fst z -> Cscale (1 / Cabs z) z = C1.
Proof.
  destruct z as [x y]. cbn [fst snd]. intros -> Hx.
  rewrite Cabs_real by lra. unfold Cscale, C1. cbn [fst snd].
  f_equal; field; lra.
Qed.

(** C2 (as the code has it). On every simulator state of [n] qubits and for
    a qubit index [k] in range, [measureQubit(k)] computes the actual
    on-probability [p] and the predicted one [q], and with the one sample it
    draws selects the outcome [sample < p].  When the amplitudes that agree
    with the outcome do not all vanish and the agreeing diagonal entries do
    not sum to zero, it returns the outcome, adds [|q - p|] to the score,
    counts the operation and replaces both representations by their
    post-selection: the true state has the disagreeing amplitudes cleared
    and is rescaled to unit norm; the density matrix has the entries with a
    disagreeing row or column cleared and is divided by the magnitude of
    the trace that is left, which gives trace 1 when that trace is a
    positive real.  When the outcome has no weight the renormalization
    divides by zero and no finite state results.  On reachable states and
    for a sample in [0, 1) the outcome always has weight, and the trace
    that is left is a positive real. *)
Theorem measureQubit_spec (this : EveQuantumComputer) (n : nat) (k : Z) (random : R) :
  shaped n this -> (n <= 30)%nat -> (0 <= k < Z.of_nat n)%Z ->
  let p := massWhere (bitOf k) (_actualHiddenState this) in
  let q := diagWhere (bitOf k) (_inferredStateDensity this) in
  let result := Rltb random p in
  let agrees := fun i => Bool.eqb (bitOf k i) result in
  let kept := massWhere agrees (_actualHiddenState this) in
  let t := traceWhere agrees (_inferredStateDensity this) in
  (kept <> 0 -> t <> C0 ->
   exists this',
     measureQubit k random this = (Done result, this') /\
     _expectedIgnoranceErrors this' = _expectedIgnoranceErrors this + Rabs (q - p) /\
     _operationCount this' = (_operationCount this + 1)%Z /\
     shaped n this' /\
     (forall i, (i < 2 ^ n)%nat ->
        entry (_actualHiddenState this') i 0 =
        if agrees i then Cscale (1 / sqrt kept) (entry (_actualHiddenState this) i 0)
        else C0) /\
     norm2 (_actualHiddenState this') = 1 /\
     (forall r c, (r < 2 ^ n)%nat -> (c < 2 ^ n)%nat ->
        entry (_inferredStateDensity this') r c =
        if agrees c && agrees r
        then Cscale (1 / Cabs t) (entry (_inferredStateDensity this) r c)
        else C0) /\
     trace (_inferredStateDensity this') = Done (Cscale (1 / Cabs t) t) /\
     (snd t = 0 -> 0 < fst t -> trace (_inferredStateDensity this') = Done C1)) /\
  (kept = 0 \/ t = C0 ->
   exists this',
     measureQubit k random this = (NonFinite, this') /\
     _expectedIgnoranceErrors this' = _expectedIgnoranceErrors this + Rabs (q - p) /\
     _operationCount this' = (_operationCount this + 1)%Z) /\
  (reachable n this -> 0 <= random < 1 -> 0 < kept /\ snd t = 0 /\ 0 < fst t).
Proof.
  intros Sh Hn Hk p q result agrees kept t.
  split; [|split].
  - intros Kz Tz.
    destruct (measureQubit_collapses this n k random Sh Hn Hk Kz Tz)
      as (this' & E & Sc & Cn & Sh' & Psi & N & Rho & T).
    exists this'. repeat (split; [assumption|]).
    intros Im Re. rewrite T. f_equal. apply Cscale_unit; assumption.
  - exact (measureQubit_fails this n k random Sh Hn Hk).
  - intros R Hr. exact (reachable_outcome_weight this n k random R Hn Hk Hr).
Qed.

Lemma measureQubit_spec_witness :
  shaped 1 born /\ (1 <= 30)%nat /\ (0 <= 0 < Z.of_nat 1)%Z /\
  let p := massWhere (bitOf 0) (_actualHiddenState born) in
  let q := diagWhere (bitOf 0) (_inferredStateDensity born) in
  let result := Rltb (1 / 2) p in
  let agrees := fun i => Bool.eqb (bitOf 0 i) result in
  let kept := massWhere agrees (_actualHiddenState born) in
  let t := traceWhere agrees (_inferredStateDensity born) in
  (kept <> 0 -> t <> C0 ->
   exists this',
     measureQubit 0 (1 / 2) born = (Done result, this') /\
     _expectedIgnoranceErrors this' = _expectedIgnoranceErrors born + Rabs (q - p) /\
     _operationCount this' = (_operationCount born + 1)%Z /\
     shaped 1 this' /\
     (forall i, (i < 2 ^ 1)%nat ->
        entry (_actualHiddenState this') i 0 =
        if agrees i then Cscale (1 / sqrt kept) (entry (_actualHiddenState born) i 0)
        else C0) /\
     norm2 (_actualHiddenState this') = 1 /\
     (forall r c, (r < 2 ^ 1)%nat -> (c < 2 ^ 1)%nat ->
        entry (_inferredStateDensity this') r c =
        if agrees c && agrees r
        then Cscale (1 / Cabs t) (entry (_inferredStateDensity born) r c)
        else C0) /\
     trace (_inferredStateDensity this') = Done (Cscale (1 / Cabs t) t) /\
     (snd t = 0 -> 0 < fst t -> trace (_inferredStateDensity this') = Done C1)) /\
  (kept = 0 \/ t = C0 ->
   exists this',
     measureQubit 0 (1 / 2) born = (NonFinite, this') /\
     _expectedIgnoranceErrors this' = _expectedIgnoranceErrors born + Rabs (q - p) /\
     _operationCount this' = (_operationCount born + 1)%Z) /\
  (reachable 1 born -> 0 <= 1 / 2 < 1 -> 0 < kept /\ snd t = 0 /\ 0 < fst t).
Proof.
  assert (H2 : (1 <= 30)%nat) by lia.
  assert (H3 : (0 <= 0 < Z.of_nat 1)%Z) by (simpl; lia).
  split; [exact shaped_born|]. split; [exact H2|]. split; [exact H3|].
  exact (measureQubit_spec born 1 0 (1 / 2) shaped_born H2 H3).
Defined.

(** ** A qubit index beyond the register *)

Lemma measureQubit_beyond_general (this : EveQuantumComputer) (n : nat)
    (k : Z) (random : R) (t : C) :
  shaped n this -> (Z.of_nat n <= k < 31)%Z -> 0 <= random ->
  trace (_inferredStateDensity this) = Done t ->
  let count := (_operationCount this + 1)%Z in
  let score := _expectedIgnoranceErrors this + 0 in
  let actual :=
    timesScalar (_actualHiddenState this)
      (1 / sqrt (norm2 (_actualHiddenState this))) in
  measureQubit k random this =
  if Req_dec_T (norm2 (_actualHiddenState this)) 0
  then (NonFinite,
        mkEve (_actualHiddenState this) (_inferredStateDensity this) count score)
  else if Req_dec_T (Cabs t) 0
       then (NonFinite, mkEve actual (_inferredStateDensity this) count score)
       else (Done false,
             mkEve actual (timesScalar (_inferredStateDensity this) (1 / Cabs t))
                   count score).
Proof.
  intros [W W1 H WD WI HI] Hk Hr T count score actual.
  assert (Hn : (n <= 30)%nat) by lia.
  assert (Off : forall i, (i < 2 ^ n)%nat -> consistent k true i = false).
  { intros i Hi. rewrite consistent_bit; try lia.
    - rewrite bitOf_small; [reflexivity | lia |].
      pose proof (pow2_bound n n (le_n n) i Hi).
      assert (2 ^ Z.of_nat n <= 2 ^ k)%Z by (apply Z.pow_le_mono_r; lia). lia.
    - pose proof (pow2_bound n 31 ltac:(lia) i Hi) as B. exact B. }
  assert (On : forall i, (i < 2 ^ n)%nat -> consistent k false i = true)
    by (intros i Hi; rewrite consistent_false, Off by exact Hi; reflexivity).
  rewrite (measureQubit_steps k random this n) by assumption.
  assert (P0 : massWhere (consistent k true) (_actualHiddenState this) = 0).
  { apply Rsum_zero. intros i Hi. rewrite Off by lia. reflexivity. }
  assert (Q0 : diagWhere (consistent k true) (_inferredStateDensity this) = 0).
  { apply Rsum_zero. intros i Hi. rewrite Off by lia. reflexivity. }
  rewrite P0, Q0.
  replace (Rltb random 0) with false by (symmetry; apply Rltb_false; exact Hr).
  rewrite keepCol_all by (rewrite ?H; auto).
  rewrite keepDensity_all by (rewrite ?HI; auto; congruence).
  rewrite normalizeCol_column by exact W1.
  replace (0 - 0) with 0 by ring. rewrite Rabs_R0. fold count score.
  destruct (Req_dec_T (norm2 (_actualHiddenState this)) 0) as [Z | NZ];
    [reflexivity|].
  cbn [attempt]. fold actual.
  unfold normalizeDensity. rewrite T. cbn [bind]. unfold reciprocal.
  destruct (Req_dec_T (Cabs t) 0); reflexivity.
Qed.

(** C10 (as the code has it). For a qubit index [k] with [n <= k < 31],
    [measureQubit(k)] on a simulator of [n] qubits is not rejected: it
    selects false, adds 0 to the score, counts the operation and clears no
    entry, but it still renormalizes.  The true state is divided by its norm
    and the density matrix by the magnitude of its trace; both are left as
    they were when the norm is 1 and the trace is 1, as on every reachable
    state, and are rescaled otherwise.  With a zero norm or a zero trace the
    division is by zero and no finite state results. *)
Theorem measureQubit_beyond_register (this : EveQuantumComputer) (n : nat)
    (k : Z) (random : R) (t : C) :
  shaped n this -> (Z.of_nat n <= k < 31)%Z -> 0 <= random ->
  trace (_inferredStateDensity this) = Done t ->
  (norm2 (_actualHiddenState this) <> 0 -> t <> C0 ->
   measureQubit k random this =
   (Done false,
    mkEve (timesScalar (_actualHiddenState this)
             (1 / sqrt (norm2 (_actualHiddenState this))))
          (timesScalar (_inferredStateDensity this) (1 / Cabs t))
          (_operationCount this + 1)%Z (_expectedIgnoranceErrors this + 0))) /\
  (norm2 (_actualHiddenState this) = 1 -> t = C1 ->
   measureQubit k random this =
   (Done false,
    mkEve (_actualHiddenState this) (_inferredStateDensity this)
          (_operationCount this + 1)%Z (_expectedIgnoranceErrors this + 0))) /\
  (norm2 (_actualHiddenState this) = 0 \/ t = C0 ->
   exists this', measureQubit k random this = (NonFinite, this')) /\
  (reachable n this -> norm2 (_actualHiddenState this) = 1 /\ t = C1).
Proof.
  intros Sh Hk Hr T.
  pose proof (measureQubit_beyond_general this n k random t Sh Hk Hr T) as M.
  cbv zeta in M.
  split; [|split; [|split]].
  - intros NZ TZ.
    destruct (Req_dec_T (norm2 (_actualHiddenState this)) 0) as [Z | _];
      [contradiction|].
    destruct (Req_dec_T (Cabs t) 0) as [Z | _];
      [apply Cabs_zero_iff in Z; contradiction | exact M].
  - intros N T1. subst t. rewrite N in M.
    destruct (Req_dec_T 1 0) as [Z | _]; [lra|].
    assert (A1 : Cabs C1 = 1) by (unfold C1; rewrite Cabs_real; lra).
    rewrite A1 in M.
    destruct (Req_dec_T 1 0) as [Z | _]; [lra|].
    rewrite sqrt_1, !timesScalar_one in M. exact M.
  - intros [Z | Z].
    + destruct (Req_dec_T (norm2 (_actualHiddenState this)) 0) as [_ | NZ];
        [eexists; exact M | contradiction].
    + destruct (Req_dec_T (norm2 (_actualHiddenState this)) 0) as [_ | _];
        [eexists; exact M|].
      destruct (Req_dec_T (Cabs t) 0) as [_ | NZ]; [eexists; exact M|].
      exfalso. apply NZ, Cabs_zero_iff. exact Z.
  - intros R.
    assert (Hn : (n <= 30)%nat) by lia.
    destruct (reachable_invariant n this Hn R) as [_ N T1 _].
    split; [exact N|]. rewrite T in T1. apply Done_inj in T1. exact T1.
Qed.

Lemma measureQubit_beyond_register_witness :
  shaped 1 born /\ (Z.of_nat 1 <= 1 < 31)%Z /\ 0 <= 1 / 2 /\
  trace (_inferredStateDensity born) =
    Done (Csum 2 (fun i => entry (_inferredStateDensity born) i i)) /\
  let t := Csum 2 (fun i => entry (_inferredStateDensity born) i i) in
  (norm2 (_actualHiddenState born) <> 0 -> t <> C0 ->
   measureQubit 1 (1 / 2) born =
   (Done false,
    mkEve (timesScalar (_actualHiddenState born)
             (1 / sqrt (norm2 (_actualHiddenState born))))
          (timesScalar (_inferredStateDensity born) (1 / Cabs t))
          (_operationCount born + 1)%Z (_expectedIgnoranceErrors born + 0))) /\
  (norm2 (_actualHiddenState born) = 1 -> t = C1 ->
   measureQubit 1 (1 / 2) born =
   (Done false,
    mkEve (_actualHiddenState born) (_inferredStateDensity born)
          (_operationCount born + 1)%Z (_expectedIgnoranceErrors born + 0))) /\
  (norm2 (_actualHiddenState born) = 0 \/ t = C0 ->
   exists this', measureQubit 1 (1 / 2) born = (NonFinite, this')) /\
  (reachable 1 born -> norm2 (_actualHiddenState born) = 1 /\ t = C1).
Proof.
  assert (H2 : (Z.of_nat 1 <= 1 < 31)%Z) by (simpl; lia).
  assert (H3 : 0 <= 1 / 2) by lra.
  assert (H4 : trace (_inferredStateDensity born) =
               Done (Csum 2 (fun i => entry (_inferredStateDensity born) i i)))
    by reflexivity.
  split; [exact shaped_born|]. split; [exact H2|]. split; [exact H3|].
  split; [exact H4|].
  exact (measureQubit_beyond_register born 1 1 (1 / 2) _ shaped_born H2 H3 H4).
Defined.

(** ** Measuring the same qubit again *)

(** On a unit state with a matrix of trace 1 in which qubit [k] is [b], all
    the weight is where bit [k] is [b]. *)
Lemma known_weight (this : EveQuantumComputer) (n : nat) (k : Z) (b : bool) :
  shaped n this -> norm2 (_actualHiddenState this) = 1 ->
  trace (_inferredStateDensity this) = Done C1 ->
  settled n k b this ->
  massWhere (bitOf k) (_actualHiddenState this) = (if b then 1 else 0) /\
  diagWhere (bitOf k) (_inferredStateDensity this) = (if b then 1 else 0) /\
  massWhere (fun i => Bool.eqb (bitOf k i) b) (_actualHiddenState this) = 1 /\
  traceWhere (fun i => Bool.eqb (bitOf k i) b) (_inferredStateDensity this) = C1.
Proof.
  intros Sh N T [SPsi SRho].
  pose proof (actual_height n this Sh) as Ha.
  pose proof (inferred_height n this Sh) as Hi.
  rewrite trace_ok in T by (destruct Sh; congruence).
  apply Done_inj in T.
  pose proof (f_equal fst T) as T1.
  rewrite Csum_parts in T1. cbn [fst] in T1. change (fst C1) with 1 in T1.
  assert (Z0 : Cnorm2 C0 = 0) by (unfold Cnorm2, C0; simpl; ring).
  split; [|split; [|split]].
  - destruct b.
    + rewrite <- N. unfold massWhere, norm2. apply Rsum_ext. intros i Hi'.
      rewrite Ha in Hi'. destruct (bitOf k i) eqn:B; [reflexivity|].
      rewrite (SPsi i Hi') by (rewrite B; discriminate). symmetry. exact Z0.
    + unfold massWhere. apply Rsum_zero. intros i Hi'. rewrite Ha in Hi'.
      destruct (bitOf k i) eqn:B; [|reflexivity].
      rewrite (SPsi i Hi') by (rewrite B; discriminate). exact Z0.
  - destruct b.
    + rewrite <- T1. unfold diagWhere. apply Rsum_ext. intros i Hi'.
      rewrite Hi in Hi'. destruct (bitOf k i) eqn:B; [reflexivity|].
      rewrite (SRho i i Hi' Hi') by (left; rewrite B; discriminate). reflexivity.
    + unfold diagWhere. apply Rsum_zero. intros i Hi'. rewrite Hi in Hi'.
      destruct (bitOf k i) eqn:B; [|reflexivity].
      rewrite (SRho i i Hi' Hi') by (left; rewrite B; discriminate). reflexivity.
  - rewrite <- N. unfold massWhere, norm2. apply Rsum_ext. intros i Hi'.
    rewrite Ha in Hi'. destruct (Bool.eqb (bitOf k i) b) eqn:B; [reflexivity|].
    apply eqb_false_iff in B. rewrite (SPsi i Hi' B). symmetry. exact Z0.
  - rewrite <- T. unfold traceWhere. apply Csum_ext. intros i Hi'.
    rewrite Hi in Hi'. destruct (Bool.eqb (bitOf k i) b) eqn:B; [reflexivity|].
    apply eqb_false_iff in B. rewrite (SRho i i Hi' Hi') by (left; exact B).
    reflexivity.
Qed.

Lemma measureQubit_repeats (this : EveQuantumComputer) (n : nat) (k : Z)
    (random1 random2 : R) :
  shaped n this -> (n <= 30)%nat -> (0 <= k < Z.of_nat n)%Z -> 0 <= random2 < 1 ->
  let p := massWhere (bitOf k) (_actualHiddenState this) in
  let result := Rltb random1 p in
  let agrees := fun i => Bool.eqb (bitOf k i) result in
  let kept := massWhere agrees (_actualHiddenState this) in
  let t := traceWhere agrees (_inferredStateDensity this) in
  kept <> 0 -> snd t = 0 -> 0 < fst t ->
  exists this1 this2,
    measureQubit k random1 this = (Done result, this1) /\
    settled n k result this1 /\
    norm2 (_actualHiddenState this1) = 1 /\
    trace (_inferredStateDensity this1) = Done C1 /\
    measureQubit k random2 this1 = (Done result, this2) /\
    _expectedIgnoranceErrors this2 = _expectedIgnoranceErrors this1 + 0.
Proof.
  intros Sh Hn Hk H2 p result agrees kept t Kz Im Re.
  assert (Tz : t <> C0) by (intros Z; rewrite Z in Re; simpl in Re; lra).
  destruct (measureQubit_collapses this n k random1 Sh Hn Hk Kz Tz)
    as (this1 & E1 & _ & _ & Sh1 & Psi & N1 & Rho & T1).
  fold p result agrees kept t in E1, Psi, Rho, T1.
  assert (T1' : trace (_inferredStateDensity this1) = Done C1)
    by (rewrite T1; f_equal; apply Cscale_unit; assumption).
  assert (St : settled n k result this1).
  { split.
    - intros i Hi B. rewrite (Psi i Hi). unfold agrees.
      destruct (Bool.eqb (bitOf k i) result) eqn:Q; [|reflexivity].
      apply eqb_prop in Q. contradiction.
    - intros r c Hr Hc B. rewrite (Rho r c Hr Hc). unfold agrees.
      destruct (Bool.eqb (bitOf k c) result) eqn:Qc; [|reflexivity].
      destruct (Bool.eqb (bitOf k r) result) eqn:Qr; [|reflexivity].
      apply eqb_prop in Qc, Qr. destruct B; contradiction. }
  destruct (known_weight this1 n k result Sh1 N1 T1' St) as (P2 & Q2 & K2 & W2).
  assert (Same : Rltb random2 (if result then 1 else 0) = result)
    by (destruct result; [apply Rltb_true | apply Rltb_false]; lra).
  pose proof (measureQubit_collapses this1 n k random2 Sh1 Hn Hk) as M2.
  cbv zeta in M2. rewrite P2, Q2, Same in M2.
  rewrite K2, W2 in M2.
  destruct (M2 ltac:(lra) ltac:(intros Z; apply (f_equal fst) in Z; simpl in Z; lra))
    as (this2 & E2 & Sc2 & _).
  exists this1, this2.
  split; [exact E1|]. split; [exact St|]. split; [exact N1|]. split; [exact T1'|].
  split; [exact E2|]. rewrite Sc2. f_equal.
  replace ((if result then 1 else 0) - (if result then 1 else 0)) with 0 by ring.
  apply Rabs_R0.
Qed.

(** C7 (as the code has it). On every simulator state of [n] qubits and for
    a qubit index [k] in range: when the outcome the first [measureQubit(k)]
    selects has weight in the true state and the agreeing diagonal entries
    of the inferred matrix sum to a positive real, the first call leaves
    both representations collapsed onto its result (every amplitude and
    every matrix entry that disagrees with it is zero, the norm is 1 and the
    trace is 1), and a second call right after it returns the same boolean
    and adds exactly 0 to the score.  On reachable states and for a first
    sample in [0, 1) the condition always holds. *)
Theorem measureQubit_twice (this : EveQuantumComputer) (n : nat) (k : Z)
    (random1 random2 : R) :
  shaped n this -> (n <= 30)%nat -> (0 <= k < Z.of_nat n)%Z -> 0 <= random2 < 1 ->
  let p := massWhere (bitOf k) (_actualHiddenState this) in
  let result := Rltb random1 p in
  let agrees := fun i => Bool.eqb (bitOf k i) result in
  let kept := massWhere agrees (_actualHiddenState this) in
  let t := traceWhere agrees (_inferredStateDensity this) in
  (kept <> 0 -> snd t = 0 -> 0 < fst t ->
   exists this1 this2,
     measureQubit k random1 this = (Done result, this1) /\
     settled n k result this1 /\
     norm2 (_actualHiddenState this1) = 1 /\
     trace (_inferredStateDensity this1) = Done C1 /\
     measureQubit k random2 this1 = (Done result, this2) /\
     _expectedIgnoranceErrors this2 = _expectedIgnoranceErrors this1 + 0) /\
  (reachable n this -> 0 <= random1 < 1 -> kept <> 0 /\ snd t = 0 /\ 0 < fst t).
Proof.
  intros Sh Hn Hk H2 p result agrees kept t. split.
  - exact (measureQubit_repeats this n k random1 random2 Sh Hn Hk H2).
  - intros R H1.
    destruct (reachable_outcome_weight this n k random1 R Hn Hk H1) as (Kp & Im & Re).
    fold p result agrees kept t in Kp, Im, Re.
    split; [lra|]. split; assumption.
Qed.

Lemma measureQubit_twice_witness :
  shaped 1 born /\ (1 <= 30)%nat /\ (0 <= 0 < Z.of_nat 1)%Z /\ 0 <= 1 / 4 < 1 /\
  let p := massWhere (bitOf 0) (_actualHiddenState born) in
  let result := Rltb (1 / 2) p in
  let agrees := fun i => Bool.eqb (bitOf 0 i) result in
  let kept := massWhere agrees (_actualHiddenState born) in
  let t := traceWhere agrees (_inferredStateDensity born) in
  (kept <> 0 -> snd t = 0 -> 0 < fst t ->
   exists this1 this2,
     measureQubit 0 (1 / 2) born = (Done result, this1) /\
     settled 1 0 result this1 /\
     norm2 (_actualHiddenState this1) = 1 /\
     trace (_inferredStateDensity this1) = Done C1 /\
     measureQubit 0 (1 / 4) this1 = (Done result, this2) /\
     _expectedIgnoranceErrors this2 = _expectedIgnoranceErrors this1 + 0) /\
  (reachable 1 born -> 0 <= 1 / 2 < 1 -> kept <> 0 /\ snd t = 0 /\ 0 < fst t).
Proof.
  assert (H2 : (1 <= 30)%nat) by lia.
  assert (H3 : (0 <= 0 < Z.of_nat 1)%Z) by (simpl; lia).
  assert (H4 : 0 <= 1 / 4 < 1) by lra.
  split; [exact shaped_born|]. split; [exact H2|]. split; [exact H3|].
  split; [exact H4|].
  exact (measureQubit_twice born 1 0 (1 / 2) (1 / 4) shaped_born H2 H3 H4).
Defined.

(** ** After an operation that is unitary only within the tolerance *)

Lemma Rleb_true (x y : R) : x <= y -> Rleb x y = true.
Proof. intros H. unfold Rleb. destruct (Rle_dec x y); [reflexivity | contradiction]. Qed.

Lemma Cabs_le (z : C) (t : R) : 0 <= t -> Cnorm2 z <= t * t -> Cabs z <= t.
Proof.
  intros Ht H. unfold Cabs. rewrite <- (sqrt_square t Ht).
  apply sqrt_le_1_alt. exact H.
Qed.

(** [nearIdentity] passes the check of [applyOperation]. *)
Lemma isUnitary_nearIdentity : isUnitary nearIdentity (1 / 1000) = true.
Proof.
  unfold isUnitary. apply andb_true_iff. split; [reflexivity|].
  apply forallb_forall. intros r Hr. apply forallb_forall. intros c Hc.
  apply in_seq in Hr, Hc. change (height nearIdentity) with 2%nat in Hr, Hc.
  change (width nearIdentity) with 2%nat.
  apply Rleb_true, Cabs_le; [lra|].
  assert (Dr : r = 0%nat \/ r = 1%nat) by lia.
  assert (Dc : c = 0%nat \/ c = 1%nat) by lia.
  destruct Dr as [-> | ->], Dc as [-> | ->];
    unfold Cnorm2, Cminus, Cmult, Cconj, Cplus, C0, C1, entry, rd, nearIdentity;
    simpl; lra.
Qed.

Lemma norm2_ket1 : norm2 ket1 = 1.
Proof. unfold norm2, ket1, entry, rd, Cnorm2. simpl. ring. Qed.

Lemma constructor_ket1 : constructor ket1 = Done lit.
Proof.
  rewrite constructor_valid by reflexivity.
  destruct (Req_dec_T (norm2 ket1) 0) as [Z | NZ]; [|reflexivity].
  exfalso. rewrite norm2_ket1 in Z. lra.
Qed.

Lemma lit_plain : lit = mkEve ket1 (timesScalar (identity 2) (1 / INR 2)) 0%Z 0.
Proof. unfold lit. rewrite norm2_ket1, sqrt_1, timesScalar_one. reflexivity. Qed.

(** An operation that passes the check of [applyOperation], unitary or
    not, is applied to both representations. *)
Lemma applyOperation_tolerated (this : EveQuantumComputer) (U : Matrix) (n : nat) :
  shaped n this -> width U = (2 ^ n)%nat -> height U = (2 ^ n)%nat ->
  isUnitary U (1 / 1000) = true ->
  exists this',
    applyOperation U this = (Done tt, this') /\ shaped n this' /\
    _operationCount this' = (_operationCount this + 1)%Z /\
    _expectedIgnoranceErrors this' = _expectedIgnoranceErrors this /\
    (forall r c, (r < 2 ^ n)%nat -> (c < 1)%nat ->
       entry (_actualHiddenState this') r c =
       mm (2 ^ n) (entry U) (entry (_actualHiddenState this)) r c) /\
    (forall r c, (r < 2 ^ n)%nat -> (c < 2 ^ n)%nat ->
       entry (_inferredStateDensity this') r c =
       mm (2 ^ n) (mm (2 ^ n) (entry U) (entry (_inferredStateDensity this)))
          (fun k j => Cconj (entry U j k)) r c).
Proof.
  intros [W W1 H WD WI HI] WU HU Un.
  destruct (applyOperation_accepted U this) as (a & p & i & T1 & T2 & T3 & E);
    try congruence.
  rewrite times_ok in T1 by congruence. apply Done_inj in T1.
  rewrite times_ok in T2 by congruence. apply Done_inj in T2.
  rewrite W1, HU, WU in T1. rewrite WI, HU, WU in T2.
  assert (Wp : width p = (2 ^ n)%nat) by (subst p; apply width_make).
  assert (Hp : height p = (2 ^ n)%nat) by (subst p; apply height_make).
  rewrite times_ok in T3
    by (change (height (adjoint U)) with (width U); congruence).
  apply Done_inj in T3.
  change (width (adjoint U)) with (height U) in T3. rewrite HU, Hp, Wp in T3.
  exists (mkEve a i (_operationCount this + 1)%Z (_expectedIgnoranceErrors this)).
  split; [exact E|]. cbn [_actualHiddenState _inferredStateDensity
                          _operationCount _expectedIgnoranceErrors].
  split; [|split; [reflexivity|split; [reflexivity|split]]].
  - constructor; cbn [_actualHiddenState _inferredStateDensity]; subst a i;
      auto using wf_make, width_make, height_make.
  - intros r c Hr Hc. subst a. rewrite entry_make by assumption. reflexivity.
  - intros r c Hr Hc. subst i. rewrite entry_make by assumption.
    apply mm_ext; intros k Hk.
    + subst p. rewrite entry_make by assumption. reflexivity.
    + apply entry_adjoint; lia.
Qed.

(** The state [applyOperation(nearIdentity)] leaves of [lit]: the operation
    is accepted, and the true state has norm 0.9998. *)
Lemma tolerated_operation :
  exists this1,
    applyOperation nearIdentity lit = (Done tt, this1) /\
    shaped 1 this1 /\
    entry (_actualHiddenState this1) 0 0 = C0 /\
    entry (_actualHiddenState this1) 1 0 = (9998 / 10000, 0) /\
    entry (_inferredStateDensity this1) 0 0 =
      (9998 / 10000 * (9998 / 10000) / 2, 0) /\
    entry (_inferredStateDensity this1) 1 1 =
      (9998 / 10000 * (9998 / 10000) / 2, 0).
Proof.
  assert (Sh : shaped 1 lit).
  { apply (inv_shaped 1), (constructor_invariant 1 ket1);
      [reflexivity | reflexivity | exact constructor_ket1]. }
  destruct (applyOperation_tolerated lit nearIdentity 1 Sh eq_refl eq_refl
              isUnitary_nearIdentity) as (this1 & E & Sh1 & _ & _ & Psi & Rho).
  exists this1. split; [exact E|]. split; [exact Sh1|].
  assert (L0 : (0 < 2 ^ 1)%nat) by (simpl; lia).
  assert (L1 : (1 < 2 ^ 1)%nat) by (simpl; lia).
  rewrite (Psi 0%nat 0%nat L0 ltac:(lia)), (Psi 1%nat 0%nat L1 ltac:(lia)).
  rewrite (Rho 0%nat 0%nat L0 L0), (Rho 1%nat 1%nat L1 L1).
  rewrite lit_plain. cbn [_actualHiddenState _inferredStateDensity].
  unfold mm. cbn [Nat.pow Nat.mul Nat.add Csum].
  rewrite !entry_scaled, !entry_identity by lia. cbn [Nat.eqb].
  unfold entry, rd, nearIdentity, ket1, Cscale, Cmult, Cplus, Cconj, C0, C1.
  repeat split; apply injective_projections; simpl; field.
Qed.

Lemma one_qubit_weights (this : EveQuantumComputer) (a : R) :
  shaped 1 this ->
  entry (_actualHiddenState this) 0 0 = C0 ->
  entry (_actualHiddenState this) 1 0 = (a, 0) ->
  massWhere (bitOf 0) (_actualHiddenState this) = a * a /\
  massWhere (fun i => Bool.eqb (bitOf 0 i) false) (_actualHiddenState this) = 0 /\
  norm2 (_actualHiddenState this) = a * a.
Proof.
  intros Sh E0 E1. unfold massWhere, norm2.
  rewrite (actual_height 1 this Sh). cbn [Nat.pow Nat.mul Nat.add Rsum].
  rewrite E0, E1. unfold bitOf, Cnorm2, C0. simpl.
  repeat split; ring.
Qed.

(** C2 (as claimed) fails on a state the calls of the simulator produce:
    after the accepted operation [nearIdentity] the true state has norm
    0.9998, a sample of 0.9999 selects the outcome false, which has no
    weight, and the renormalization divides by zero. *)
Theorem measureQubit_zero_mass_outcome :
  exists this0 this1 this2,
    constructor ket1 = Done this0 /\
    applyOperation nearIdentity this0 = (Done tt, this1) /\
    measureQubit 0 (9999 / 10000) this1 = (NonFinite, this2).
Proof.
  destruct tolerated_operation as (this1 & E & Sh1 & P0 & P1 & _).
  destruct (one_qubit_weights this1 (9998 / 10000) Sh1 P0 P1) as (Wp & Wk & _).
  assert (H3 : (0 <= 0 < Z.of_nat 1)%Z) by (simpl; lia).
  pose proof (measureQubit_fails this1 1 0 (9999 / 10000) Sh1 ltac:(lia) H3) as F.
  cbv zeta in F. rewrite Wp in F.
  assert (Rf : Rltb (9999 / 10000) (9998 / 10000 * (9998 / 10000)) = false)
    by (apply Rltb_false; lra).
  rewrite Rf in F.
  destruct (F (or_introl Wk)) as (this2 & M & _).
  exists lit, this1, this2.
  split; [exact constructor_ket1|]. split; [exact E | exact M].
Qed.

(** C7 (as claimed) fails on the same state: the first call divides by
    zero, so there is no pair of calls that return the same boolean with the
    second adding 0. *)
Theorem measureQubit_twice_not_finite :
  exists this0 this1,
    constructor ket1 = Done this0 /\
    applyOperation nearIdentity this0 = (Done tt, this1) /\
    ~ (exists (b : bool) this2 this3,
         measureQubit 0 (9999 / 10000) this1 = (Done b, this2) /\
         measureQubit 0 (1 / 2) this2 = (Done b, this3) /\
         _expectedIgnoranceErrors this3 = _expectedIgnoranceErrors this2 + 0).
Proof.
  destruct tolerated_operation as (this1 & E & Sh1 & P0 & P1 & _).
  destruct (one_qubit_weights this1 (9998 / 10000) Sh1 P0 P1) as (Wp & Wk & _).
  assert (H3 : (0 <= 0 < Z.of_nat 1)%Z) by (simpl; lia).
  pose proof (measureQubit_fails this1 1 0 (9999 / 10000) Sh1 ltac:(lia) H3) as F.
  cbv zeta in F. rewrite Wp in F.
  assert (Rf : Rltb (9999 / 10000) (9998 / 10000 * (9998 / 10000)) = false)
    by (apply Rltb_false; lra).
  rewrite Rf in F.
  destruct (F (or_introl Wk)) as (this2 & M & _).
  exists lit, this1.
  split; [exact constructor_ket1|]. split; [exact E|].
  intros (b & s2 & s3 & M1 & _). rewrite M in M1. discriminate M1.
Qed.

(** C10 (as claimed) fails on the same state: [measureQubit(1)] on this
    one-qubit simulator returns false and changes the true state, whose
    amplitude 0.9998 becomes 1. *)
Theorem measureQubit_beyond_rescales :
  exists this0 this1 this2,
    constructor ket1 = Done this0 /\
    applyOperation nearIdentity this0 = (Done tt, this1) /\
    measureQubit 1 (1 / 2) this1 = (Done false, this2) /\
    entry (_actualHiddenState this1) 1 0 = (9998 / 10000, 0) /\
    entry (_actualHiddenState this2) 1 0 = (1, 0).
Proof.
  destruct tolerated_operation as (this1 & E & Sh1 & P0 & P1 & R0 & R1).
  destruct (one_qubit_weights this1 (9998 / 10000) Sh1 P0 P1) as (_ & _ & N).
  assert (T : trace (_inferredStateDensity this1) =
              Done (9998 / 10000 * (9998 / 10000), 0)).
  { rewrite trace_ok by (destruct Sh1; congruence). f_equal.
    rewrite (inferred_height 1 this1 Sh1). cbn [Nat.pow Nat.mul Nat.add Csum].
    rewrite R0, R1. unfold Cplus, C0. apply injective_projections; simpl; field. }
  assert (H2 : (Z.of_nat 1 <= 1 < 31)%Z) by (simpl; lia).
  pose proof (measureQubit_beyond_general this1 1 1 (1 / 2) _ Sh1 H2 ltac:(lra) T)
    as M.
  cbv zeta in M. rewrite N in M.
  destruct (Req_dec_T (9998 / 10000 * (9998 / 10000)) 0) as [Z | _]; [lra|].
  rewrite Cabs_real in M by lra.
  destruct (Req_dec_T (9998 / 10000 * (9998 / 10000)) 0) as [Z | _]; [lra|].
  eexists lit, this1, _.
  split; [exact constructor_ket1|]. split; [exact E|]. split; [exact M|].
  split; [exact P1|].
  cbn [_actualHiddenState]. rewrite entry_scaled, P1.
  rewrite sqrt_square by lra. unfold Cscale. cbn [fst snd].
  apply injective_projections; simpl; field.
Qed.

(** ** One round of the driver loop, call by call *)

(** One round of the driver loop on a reachable four-qubit simulator, call
    by call: [measureQubit(0)] returns [measured]; the entropy branch, taken
    when [generatedEntropy] holds, and the four operations that follow are
    accepted; [measureQubit(3)] is then called on the state [q6] they leave
    and returns [measureResult], its sample compared with the weight [q6]
    puts on qubit 3; the X operator on qubit 3 is applied exactly when
    [measureResult] is true.  The round does not throw and leaves a
    reachable simulator.  It counts six operations, two more when the
    entropy branch is taken and one more when [measureQubit(3)] returned
    true; the misprediction score does not decrease; and at the end qubit 3
    is off in the observer's marginal, at printed distance "0.0000". *)
Theorem loopBody_round (HADAMARD yRotation xRotation confounding : Matrix)
    (qpu0 qpu : EveQuantumComputer) (random1 random2 random3 : R) :
  unitary HADAMARD -> width HADAMARD = 2%nat ->
  unitary yRotation -> width yRotation = 2%nat ->
  unitary xRotation -> width xRotation = 2%nat ->
  unitary confounding -> width confounding = 2%nat ->
  shaped 4 qpu0 -> reachable 4 qpu ->
  0 <= random1 < 1 -> 0 <= random3 < 1 ->
  let measured := Rltb random1 (massWhere (bitOf 0) (_actualHiddenState qpu)) in
  let generatedEntropy :=
    if Rltb random2 (3 / 10) then negb measured else measured in
  exists q1 q2 q3 q4 q5 q6 q7 qpu' : EveQuantumComputer,
    measureQubit 0 random1 qpu = (Done measured, q1) /\
    (if generatedEntropy
     then Main.andThen (applyOperation (Main.SMALL_Y_ROT_1 yRotation qpu0))
            (fun _ => applyOperation (Main.X0 qpu0))
     else Main.skip) q1 = (Done tt, q2) /\
    applyOperation (Main.H0 HADAMARD qpu0) q2 = (Done tt, q3) /\
    applyOperation (Main.SMALL_X_ROT_2_WHEN_1 xRotation qpu0) q3 = (Done tt, q4) /\
    applyOperation (Main.CNOT_2_ONTO_3 qpu0) q4 = (Done tt, q5) /\
    applyOperation (Main.CONFOUNDING_X3 confounding qpu0) q5 = (Done tt, q6) /\
    let measureResult :=
      Rltb random3 (massWhere (bitOf 3) (_actualHiddenState q6)) in
    measureQubit 3 random3 q6 = (Done measureResult, q7) /\
    (if measureResult then applyOperation (Main.X3 qpu0) else Main.skip) q7 =
      (Done tt, qpu') /\
    Main.loopBody HADAMARD yRotation xRotation confounding qpu0
      random1 random2 random3 qpu = (Done tt, qpu') /\
    reachable 4 qpu' /\
    _operationCount qpu' =
      (_operationCount qpu + 6 + (if generatedEntropy then 2 else 0)
       + (if measureResult then 1 else 0))%Z /\
    _expectedIgnoranceErrors qpu <= _expectedIgnoranceErrors qpu' /\
    traceQubitOutOfDensityMatrix (_inferredStateDensity qpu') 3 = certain false /\
    traceDistanceQubit qpu' 3 = Done (Str "0.0000").
Proof.
  intros UH WH UY WY UX WX UC WC Sh0 R H1 H3 measured generatedEntropy.
  assert (Hn : (4 <= 30)%nat) by lia.
  assert (K0 : (0 <= 0 < Z.of_nat 4)%Z) by (simpl; lia).
  assert (K3 : (0 <= 3 < Z.of_nat 4)%Z) by (simpl; lia).
  assert (L0 : Forall (fun e => (0 <= e < 31)%Z) []) by constructor.
  assert (L1 : Forall (fun e => (0 <= e < 31)%Z) [1%Z]) by (repeat constructor; lia).
  assert (L2 : Forall (fun e => (0 <= e < 31)%Z) [2%Z]) by (repeat constructor; lia).
  assert (WP : width PAULI_X = 2%nat) by reflexivity.
  destruct (measure_step qpu 4 0 random1 R Hn K0 H1) as (q1 & E1 & R1 & C1' & S1 & _).
  cbv zeta in E1. fold measured in E1.
  assert (Branch : exists q2,
            (if generatedEntropy
             then Main.andThen (applyOperation (Main.SMALL_Y_ROT_1 yRotation qpu0))
                    (fun _ => applyOperation (Main.X0 qpu0))
             else Main.skip) q1 = (Done tt, q2) /\
            reachable 4 q2 /\
            _operationCount q2 =
              (_operationCount q1 + (if generatedEntropy then 2 else 0))%Z /\
            _expectedIgnoranceErrors q2 = _expectedIgnoranceErrors q1).
  { destruct generatedEntropy.
    - destruct (gate_step qpu0 q1 4 yRotation 1 [] Sh0 R1 Hn UY WY L0 ltac:(intros []))
        as (qa & Ea & Ra & Ca & Sa).
      destruct (gate_step qpu0 qa 4 PAULI_X 0 [] Sh0 Ra Hn unitary_PAULI_X WP L0
                  ltac:(intros [])) as (qb & Eb & Rb & Cb & Sb).
      exists qb. split; [|split; [exact Rb|split; [lia|congruence]]].
      rewrite (andThen_done _ _ q1 qa tt Ea). exact Eb.
    - exists q1. split; [reflexivity|]. split; [exact R1|]. split; [lia|reflexivity]. }
  destruct Branch as (q2 & E2 & R2 & C2' & S2).
  destruct (gate_step qpu0 q2 4 HADAMARD 0 [] Sh0 R2 Hn UH WH L0 ltac:(intros []))
    as (q3 & E3 & R3 & C3' & S3).
  destruct (gate_step qpu0 q3 4 xRotation 2 [1%Z] Sh0 R3 Hn UX WX L1
              ltac:(intros [D | []]; discriminate D)) as (q4 & E4 & R4 & C4' & S4).
  destruct (gate_step qpu0 q4 4 PAULI_X 3 [2%Z] Sh0 R4 Hn unitary_PAULI_X WP L2
              ltac:(intros [D | []]; discriminate D)) as (q5 & E5 & R5 & C5' & S5).
  destruct (gate_step qpu0 q5 4 confounding 3 [] Sh0 R5 Hn UC WC L0 ltac:(intros []))
    as (q6 & E6 & R6 & C6' & S6).
  destruct (measure_step q6 4 3 random3 R6 Hn K3 H3) as (q7 & E7 & R7 & C7' & S7 & St7).
  cbv zeta in E7, St7.
  set (measureResult := Rltb random3 (massWhere (bitOf 3) (_actualHiddenState q6))) in *.
  pose proof (reachable_invariant 4 q7 Hn R7) as Inv7.
  assert (Clear : exists q8,
            (if measureResult then applyOperation (Main.X3 qpu0) else Main.skip) q7 =
              (Done tt, q8) /\
            reachable 4 q8 /\ settled 4 3 false q8 /\
            _operationCount q8 =
              (_operationCount q7 + (if measureResult then 1 else 0))%Z /\
            _expectedIgnoranceErrors q8 = _expectedIgnoranceErrors q7).
  { destruct measureResult.
    - destruct (applyOperation_flips q7 4 3 PAULI_X true Inv7 Hn K3 unitary_PAULI_X WP
                  eq_refl eq_refl St7) as (q8 & E8 & _ & St8 & C8' & S8).
      unfold Main.X3.
      rewrite (expandOperation_register qpu0 4 PAULI_X 3 [] (actual_height 4 qpu0 Sh0)).
      exists q8. split; [exact E8|].
      split; [|split; [exact St8|split; [exact C8' | exact S8]]].
      apply (reach_applyOperation 4 (expandOp PAULI_X 3 4 []) q7 q8 R7); [|exact E8].
      apply expandOp_unitary; try assumption; try lia;
        [exact unitary_PAULI_X | intros []].
    - exists q7. split; [reflexivity|]. split; [exact R7|]. split; [exact St7|].
      split; [lia | reflexivity]. }
  destruct Clear as (q8 & E8 & R8 & St8 & C8' & S8).
  destruct (settled_marginals q8 4 3 false (reachable_invariant 4 q8 Hn R8)
              ltac:(lia) ltac:(lia) St8) as (I & _ & D).
  exists q1, q2, q3, q4, q5, q6, q7, q8.
  split; [exact E1|]. split; [exact E2|]. split; [exact E3|].
  split; [exact E4|]. split; [exact E5|]. split; [exact E6|].
  cbv zeta. fold measureResult.
  split; [exact E7|]. split; [exact E8|].
  split.
  - unfold Main.loopBody.
    rewrite (andThen_done _ _ qpu q1 measured E1). fold generatedEntropy.
    rewrite (andThen_done _ _ q1 q2 tt E2).
    rewrite (andThen_done _ _ q2 q3 tt E3).
    rewrite (andThen_done _ _ q3 q4 tt E4).
    rewrite (andThen_done _ _ q4 q5 tt E5).
    rewrite (andThen_done _ _ q5 q6 tt E6).
    rewrite (andThen_done _ _ q6 q7 measureResult E7).
    exact E8.
  - split; [exact R8|]. split; [lia|]. split; [lra|]. split; [exact I | exact D].
Qed.

Lemma loopBody_round_witness :
  unitary PAULI_X /\ width PAULI_X = 2%nat /\
  shaped 4 (started 4) /\ reachable 4 (started 4) /\
  0 <= 1 / 2 < 1 /\
  let measured := Rltb (1 / 2) (massWhere (bitOf 0) (_actualHiddenState (started 4))) in
  let generatedEntropy :=
    if Rltb (1 / 4) (3 / 10) then negb measured else measured in
  exists q1 q2 q3 q4 q5 q6 q7 qpu' : EveQuantumComputer,
    measureQubit 0 (1 / 2) (started 4) = (Done measured, q1) /\
    (if generatedEntropy
     then Main.andThen (applyOperation (Main.SMALL_Y_ROT_1 PAULI_X (started 4)))
            (fun _ => applyOperation (Main.X0 (started 4)))
     else Main.skip) q1 = (Done tt, q2) /\
    applyOperation (Main.H0 PAULI_X (started 4)) q2 = (Done tt, q3) /\
    applyOperation (Main.SMALL_X_ROT_2_WHEN_1 PAULI_X (started 4)) q3 = (Done tt, q4) /\
    applyOperation (Main.CNOT_2_ONTO_3 (started 4)) q4 = (Done tt, q5) /\
    applyOperation (Main.CONFOUNDING_X3 PAULI_X (started 4)) q5 = (Done tt, q6) /\
    let measureResult :=
      Rltb (1 / 2) (massWhere (bitOf 3) (_actualHiddenState q6)) in
    measureQubit 3 (1 / 2) q6 = (Done measureResult, q7) /\
    (if measureResult then applyOperation (Main.X3 (started 4)) else Main.skip) q7 =
      (Done tt, qpu') /\
    Main.loopBody PAULI_X PAULI_X PAULI_X PAULI_X (started 4)
      (1 / 2) (1 / 4) (1 / 2) (started 4) = (Done tt, qpu') /\
    reachable 4 qpu' /\
    _operationCount qpu' =
      (_operationCount (started 4) + 6 + (if generatedEntropy then 2 else 0)
       + (if measureResult then 1 else 0))%Z /\
    _expectedIgnoranceErrors (started 4) <= _expectedIgnoranceErrors qpu' /\
    traceQubitOutOfDensityMatrix (_inferredStateDensity qpu') 3 = certain false /\
    traceDistanceQubit qpu' 3 = Done (Str "0.0000").
Proof.
  assert (Hs : shaped 4 (started 4)) by (apply shaped_started; lia).
  assert (Hr : 0 <= 1 / 2 < 1) by lra.
  split; [exact unitary_PAULI_X|]. split; [reflexivity|]. split; [exact Hs|].
  split; [exact (reachable_started 4)|]. split; [exact Hr|].
  exact (loopBody_round PAULI_X PAULI_X PAULI_X PAULI_X (started 4) (started 4)
           (1 / 2) (1 / 4) (1 / 2)
           unitary_PAULI_X eq_refl unitary_PAULI_X eq_refl
           unitary_PAULI_X eq_refl unitary_PAULI_X eq_refl
           Hs (reachable_started 4) Hr Hr).
Defined.
